(** * HYROX results collector: a shallow embedding of [fetch_hyrox.py] and of
      the time parser of [dashboard.py].

    Conventions of the embedding.
    - A Python [str] is a [string] that holds the bytes of its UTF-8
      encoding (a lone surrogate, which [json.loads] and a character
      reference can produce, encoded like any other code point).  The
      characters of a text are the pieces [PyStr.chars] cuts the bytes into;
      [len], indexing, [str.strip], [str.lower], [int] and the
      regular-expression class [\d] work on them, with the white space of
      [str.isspace] and the decimal digits of Unicode 14.0, the tables that
      CPython 3.11 carries.  A [string] that is no such encoding stands for
      no [str]; [PyStr.text] tells the ones that do.
    - A Python [int] is a [Z]; the interpreter's limit on the number of
      digits that [int] and [str] convert is left out.
    - A Python [dict] literal iterated in insertion order is an association
      list; a decoded JSON object is a [gmap].
    - The tree of a page is the one [BeautifulSoup(r.text, "html.parser")]
      builds with bs4 4.11 or later, where [get_text] on a [script], [style],
      [template], [rt] or [rp] tag returns the strings of its own kind.
    - Of a run the embedding follows the requests, the rows handed to the
      writer, the flushes and the done-set.  [time.sleep], the header line of
      the store and the progress lines are left out, and so is every failure
      of a statement that sits outside the [try] blocks other than the
      [AttributeError] of a code that is not a string: [print] on a console
      that cannot encode a label, [BeautifulSoup] on markup the parser
      rejects, [writer.writerow] and [csvfile.flush] on a store that cannot
      take the row.  A run of the program in which one of them raises ends
      there, with a beginning of the requests and rows that [main] gives. *)

From Stdlib Require Import ZArith Ascii String List Lia Bool DecimalString DecimalNat.
From stdpp Require Import base decidable option list strings gmap.

Set Warnings "-register-all".
Local Open Scope string_scope.
Local Open Scope Z_scope.

(** ** Python string primitives *)

Module PyStr.

Definition byte (c : ascii) : N := N_of_ascii c.

Definition is_lower (c : ascii) : bool := (97 <=? byte c)%N && (byte c <=? 122)%N.

Definition is_upper (c : ascii) : bool := (65 <=? byte c)%N && (byte c <=? 90)%N.

(** The upper case of a byte: of an ASCII letter, which is one byte. *)
Definition upper_char (c : ascii) : ascii :=
  if is_lower c then ascii_of_N (byte c - 32) else c.

(** The lower case of a byte that stands for an ASCII character. *)
Definition lower_byte (c : ascii) : ascii :=
  if is_upper c then ascii_of_N (byte c + 32) else c.

(** [s.upper()], exact up to the characters outside ASCII: the bytes below
    128 are the ASCII characters, and the letters among them are mapped.
    [str.upper] also changes characters outside ASCII; seventeen of them
    (sharp s, dotless i, long s, the ligatures and a few letters with a mark)
    get an ASCII letter, none of them one that stands in a configured prefix
    or in OVERALL at a place where the rest could match, so the tests the
    source makes on the result ([startswith] a prefix, OVERALL [in]) come
    out the same. *)
Fixpoint upper (s : string) : string :=
  match s with
  | EmptyString => EmptyString
  | String c r => String (upper_char c) (upper r)
  end.

(** [s.lower()], exact on every character whose lower case has an ASCII
    letter: the ASCII capitals, the Kelvin sign U+212A (bytes 226 132 170),
    which becomes k, and the dotted capital I U+0130 (bytes 196 176), which
    becomes i followed by the combining dot U+0307 (bytes 204 135).  The
    other characters are left as they are; [str.lower] maps some of them to
    other characters outside ASCII, which changes no comparison of the
    result with an ASCII text. *)
Fixpoint lower (s : string) : string :=
  match s with
  | EmptyString => EmptyString
  | String c r =>
      match r with
      | String b r1 =>
          if Ascii.eqb c "196" && Ascii.eqb b "176"
          then String "i" (String "204" (String "135" (lower r1)))
          else
            match r1 with
            | String d r2 =>
                if Ascii.eqb c "226" && Ascii.eqb b "132" && Ascii.eqb d "170"
                then String "k" (lower r2)
                else String (lower_byte c) (lower r)
            | EmptyString => String (lower_byte c) (lower r)
            end
      | EmptyString => String (lower_byte c) (lower r)
      end
  end.

(** [s.startswith(p)] *)
Fixpoint startswith (p s : string) : bool :=
  match p, s with
  | EmptyString, _ => true
  | String a p', String b s' => if Ascii.eqb a b then startswith p' s' else false
  | String _ _, EmptyString => false
  end.

(** [sub in s] *)
Fixpoint contains (sub s : string) : bool :=
  startswith sub s ||
  match s with
  | EmptyString => false
  | String _ r => contains sub r
  end.

(** [sep.join(l)] *)
Fixpoint join (sep : string) (l : list string) : string :=
  match l with
  | [] => EmptyString
  | [x] => x
  | x :: r => x ++ sep ++ join sep r
  end.

(** A byte that continues a character. *)
Definition continuation (c : ascii) : bool := (128 <=? byte c)%N && (byte c <=? 191)%N.

(** The number of bytes of a character, as its first byte announces it. *)
Definition width (c : ascii) : nat :=
  if (byte c <? 192)%N then 1
  else if (byte c <? 224)%N then 2
  else if (byte c <? 240)%N then 3
  else if (byte c <? 248)%N then 4
  else 1.

(** The characters of a text, each one as the bytes that encode it.  A byte
    that starts no character (in a [string] that is no encoding of a text)
    is a piece of its own. *)
Fixpoint chars (s : string) : list string :=
  match s with
  | EmptyString => []
  | String a r =>
      match width a, r with
      | 2%nat, String b r2 =>
          if continuation b
          then String a (String b EmptyString) :: chars r2
          else String a EmptyString :: chars r
      | 3%nat, String b (String c r3) =>
          if continuation b && continuation c
          then String a (String b (String c EmptyString)) :: chars r3
          else String a EmptyString :: chars r
      | 4%nat, String b (String c (String d r4)) =>
          if continuation b && continuation c && continuation d
          then String a (String b (String c (String d EmptyString))) :: chars r4
          else String a EmptyString :: chars r
      | _, _ => String a EmptyString :: chars r
      end
  end.

(** The code point of a character, [None] for bytes that encode none. *)
Definition code (ch : string) : option N :=
  match ch with
  | String a EmptyString => if (byte a <? 128)%N then Some (byte a) else None
  | String a (String b EmptyString) =>
      let n := ((byte a - 192) * 64 + (byte b - 128))%N in
      if Nat.eqb (width a) 2 && continuation b && (128 <=? n)%N then Some n else None
  | String a (String b (String c EmptyString)) =>
      let n := ((byte a - 224) * 4096 + (byte b - 128) * 64 + (byte c - 128))%N in
      if Nat.eqb (width a) 3 && (continuation b && continuation c) && (2048 <=? n)%N
      then Some n else None
  | String a (String b (String c (String d EmptyString))) =>
      let n := ((byte a - 240) * 262144 + (byte b - 128) * 4096
                + (byte c - 128) * 64 + (byte d - 128))%N in
      if Nat.eqb (width a) 4 && (continuation b && continuation c && continuation d)
         && ((65536 <=? n)%N && (n <=? 1114111)%N)
      then Some n else None
  | _ => None
  end.

(** The [string] encodes a text. *)
Definition text (s : string) : bool :=
  forallb (fun ch => match code ch with Some _ => true | None => false end) (chars s).

(** The code points on which [str.isspace] holds, those [str.strip] removes. *)
Definition WHITESPACE : list N :=
  [ 9; 10; 11; 12; 13; 28; 29; 30; 31; 32; 133; 160; 5760; 8192; 8193; 8194; 8195;
    8196; 8197; 8198; 8199; 8200; 8201; 8202; 8232; 8233; 8239; 8287; 12288 ]%N.

(** The digit zero of each of the decimal number systems of Unicode 14.0;
    the digits one to nine follow it. *)
Definition DECIMAL_ZEROS : list N :=
  [ 48; 1632; 1776; 1984; 2406; 2534; 2662; 2790; 2918; 3046; 3174; 3302; 3430;
    3558; 3664; 3792; 3872; 4160; 4240; 6112; 6160; 6470; 6608; 6784; 6800; 6992;
    7088; 7232; 7248; 42528; 43216; 43264; 43472; 43504; 43600; 44016; 65296;
    66720; 68912; 69734; 69872; 69942; 70096; 70384; 70736; 70864; 71248; 71360;
    71472; 71904; 72016; 72784; 73040; 73120; 92768; 92864; 93008; 120782; 120792;
    120802; 120812; 120822; 123200; 123632; 125264; 130032 ]%N.

(** [ch.isspace()] on one character *)
Definition is_space (ch : string) : bool :=
  match code ch with
  | Some n => existsb (N.eqb n) WHITESPACE
  | None => false
  end.

(** The value of a decimal digit, as [int] and the class [\d] know it. *)
Definition decimal (ch : string) : option Z :=
  n ← code ch;
  z ← List.find (fun z => (z <=? n)%N && (n <? z + 10)%N) DECIMAL_ZEROS;
  Some (Z.of_N (n - z)).

Definition is_digit (ch : string) : bool :=
  match decimal ch with Some _ => true | None => false end.

Definition digit_val (ch : string) : Z := default 0 (decimal ch).

Fixpoint lstrip (cs : list string) : list string :=
  match cs with
  | [] => []
  | c :: r => if is_space c then lstrip r else cs
  end.

(** Drops the trailing white space: a character is kept when it is not
    white space or when something is kept after it. *)
Fixpoint rstrip (cs : list string) : list string :=
  match cs with
  | [] => []
  | c :: r =>
      match rstrip r with
      | [] => if is_space c then [] else [c]
      | r' => c :: r'
      end
  end.

(** [s.strip()] *)
Definition strip (s : string) : string :=
  join EmptyString (rstrip (lstrip (chars s))).

(** [int] on decimal digits, most significant first. *)
Definition int_of_chars (cs : list string) : Z :=
  fold_left (fun acc c => 10 * acc + digit_val c) cs 0.

(** [int(s)] for a string of decimal digits. *)
Definition int_of_digits (s : string) : Z := int_of_chars (chars s).

Definition all_digits (s : string) : bool := forallb is_digit (chars s).

End PyStr.

(** ** Configuration *)

Definition PER_PAGE : Z := 25.
Definition MAX_PAGES : Z := 4.
Definition ONLY_OPEN : bool := true.

(** The dictionary literal, in insertion order (the order [items()] yields). *)
Definition CATEGORY_PREFIXES : list (string * string) :=
  [ ("HPRO_", "HYROX PRO");
    ("HDP_",  "HYROX PRO DOUBLES");
    ("HD_",   "HYROX DOUBLES");
    ("HMR_",  "HYROX TEAM RELAY");
    ("HA_",   "HYROX ADAPTIVE");
    ("HY1_",  "HYROX YOUNGSTARS");
    ("HG_",   "HYROX GORUCK");
    ("HE_",   "HYROX ELITE");
    ("WCHE",  "WCHE ELITE");
    ("H_",    "HYROX") ].

Definition GENDERS : list (string * string) := [ ("M", "Men") ].

Definition SEASON_BASES : list (string * string) :=
  [ ("Season 1", "https://results.hyrox.com/season-1/");
    ("Season 2", "https://results.hyrox.com/season-2/");
    ("Season 3", "https://results.hyrox.com/season-3/");
    ("Season 4", "https://results.hyrox.com/season-4/");
    ("Season 5", "https://results.hyrox.com/season-5/");
    ("Season 6", "https://results.hyrox.com/season-6/");
    ("Season 7", "https://results.hyrox.com/season-7/");
    ("Season 8", "https://results.hyrox.com/season-8/") ].

(** ** Category classifier *)

(** The [for prefix, name in ...items()] loop of [category_from_code], over
    the already upper-cased code. *)
Fixpoint category_loop (ucode : string) (items : list (string * string)) : string :=
  match items with
  | [] => "HYROX"
  | (prefix, name) :: rest =>
      if PyStr.startswith prefix ucode then name else category_loop ucode rest
  end.

Definition category_from_code (code : string) : string :=
  category_loop (PyStr.upper code) CATEGORY_PREFIXES.

(** The classifier as the specification words it: a configured prefix
    matches a code when it is a prefix of it up to case; the answer is the
    label of the longest matching prefix, the generic label when none
    matches. *)
Definition ci_prefix (prefix code : string) : bool :=
  PyStr.startswith (PyStr.upper prefix) (PyStr.upper code).

Fixpoint longest_match (code : string) (items : list (string * string))
    (best : option (string * string)) : option (string * string) :=
  match items with
  | [] => best
  | (prefix, name) :: rest =>
      if ci_prefix prefix code then
        match best with
        | Some (bp, _) =>
            if (String.length bp <? String.length prefix)%nat
            then longest_match code rest (Some (prefix, name))
            else longest_match code rest best
        | None => longest_match code rest (Some (prefix, name))
        end
      else longest_match code rest best
  end.

Definition spec_category (code : string) : string :=
  match longest_match code CATEGORY_PREFIXES None with
  | Some (_, name) => name
  | None => "HYROX"
  end.

(** ** Python values and exceptions *)

Inductive exn : Set :=
  | RequestException | KeyError | TypeError | AttributeError | IndexError.

Inductive result (A : Type) : Type :=
  | Ok (a : A)
  | Raise (e : exn).
Arguments Ok {A} a.
Arguments Raise {A} e.

#[export] Instance result_ret : MRet result := fun _ a => Ok a.
#[export] Instance result_bind : MBind result := fun _ _ f r =>
  match r with
  | Ok a => f a
  | Raise e => Raise e
  end.

(** What [json.loads] builds: [None], [bool], [int], [float] (mantissa and
    binary exponent), [str], [list] and [dict] with string keys. *)
Inductive json : Type :=
  | JNull
  | JBool (b : bool)
  | JInt (z : Z)
  | JFloat (m e : Z)
  | JStr (s : string)
  | JList (l : list json)
  | JDict (d : gmap string json).

Module Py.

(** [bool(v)] *)
Definition truthy (v : json) : bool :=
  match v with
  | JNull => false
  | JBool b => b
  | JInt z => negb (z =? 0)
  | JFloat m _ => negb (m =? 0)
  | JStr s => negb (String.eqb s EmptyString)
  | JList l => match l with [] => false | _ => true end
  | JDict d => negb (Nat.eqb (size d) 0)
  end.

(** [v[k]] for a string [k] *)
Definition getitem (v : json) (k : string) : result json :=
  match v with
  | JDict d => match d !! k with Some x => Ok x | None => Raise KeyError end
  | _ => Raise TypeError
  end.

(** [v.get(k)]: only a [dict] has the method. *)
Definition get (v : json) (k : string) : result json :=
  match v with
  | JDict d => Ok (default JNull (d !! k))
  | _ => Raise AttributeError
  end.

(** [len(v)] *)
Definition len (v : json) : result Z :=
  match v with
  | JStr s => Ok (Z.of_nat (length (PyStr.chars s)))
  | JList l => Ok (Z.of_nat (length l))
  | JDict d => Ok (Z.of_nat (size d))
  | _ => Raise TypeError
  end.

(** [v[i]] for a natural number [i] *)
Definition index (v : json) (i : nat) : result json :=
  match v with
  | JList l => match l !! i with Some x => Ok x | None => Raise IndexError end
  | JStr s => match PyStr.chars s !! i with
              | Some c => Ok (JStr c)
              | None => Raise IndexError
              end
  | JDict _ => Raise KeyError
  | _ => Raise TypeError
  end.

(** The items a [for] loop over [v] visits. *)
Definition iter (v : json) : result (list json) :=
  match v with
  | JList l => Ok l
  | JStr s => Ok (JStr <$> PyStr.chars s)
  | JDict d => Ok (JStr <$> (map_to_list d).*1)
  | _ => Raise TypeError
  end.

(** Whether [except (KeyError, TypeError)] catches [e]. *)
Definition key_or_type_error (e : exn) : bool :=
  match e with
  | KeyError | TypeError => true
  | _ => false
  end.

End Py.

(** ** Parsed HTML *)

(** The classes of the strings that stand in a [script], [style],
    [template], [rt] or [rp] tag. *)
Inductive container : Set :=
  | Script | Stylesheet | TemplateString | RubyTextString | RubyParenthesisString.

#[export] Instance container_eq_dec : EqDecision container.
Proof. solve_decision. Defined.

(** A page element of BeautifulSoup: a text string, a CDATA section, a
    string of the class of the container tag it stands in, a string that no
    [get_text] returns (comment, declaration, doctype, processing
    instruction), or a tag with its name, its [class] attribute ([None] when
    the tag has none, else the list of its values) and its contents. *)
Inductive node : Type :=
  | NavigableString (s : string)
  | CData (s : string)
  | Contained (k : container) (s : string)
  | Comment (s : string)
  | Tag (name : string) (class_ : option (list string)) (contents : list node).

(** A [BeautifulSoup] object: the top-level contents of the document. *)
Abbreviation soup := (list node).

Module Bs4.

Definition contents (n : node) : list node :=
  match n with
  | Tag _ _ cs => cs
  | _ => []
  end.

(** A filter on the multi-valued [class] attribute is tried on each value
    and then on the values joined by a space; a tag without the attribute
    never matches. *)
Definition class_matches (P : string -> bool) (n : node) : bool :=
  match n with
  | Tag _ (Some cls) _ => existsb P cls || P (PyStr.join " " cls)
  | _ => false
  end.

Definition named (nm : string) (n : node) : bool :=
  match n with
  | Tag name _ _ => String.eqb name nm
  | _ => false
  end.

(** The elements below a list of siblings, in document order. *)
Fixpoint descendants_of (n : node) : list node :=
  n :: match n with
       | Tag _ _ cs => flat_map descendants_of cs
       | _ => []
       end.

Definition descendants (cs : list node) : list node :=
  flat_map descendants_of cs.

(** [x.find(...)]: the first tag below [x] that passes the filter. *)
Definition find (P : node -> bool) (cs : list node) : option node :=
  List.find P (descendants cs).

(** The builder's table [string_containers]: the class of the strings of a
    tag of that name. *)
Definition string_containers (name : string) : option container :=
  if String.eqb name "script" then Some Script
  else if String.eqb name "style" then Some Stylesheet
  else if String.eqb name "template" then Some TemplateString
  else if String.eqb name "rt" then Some RubyTextString
  else if String.eqb name "rp" then Some RubyParenthesisString
  else None.

(** The string of an element whose class is among the
    [interesting_string_types] of a tag of that name: the class of the table
    for a container tag, text strings and CDATA sections for any other. *)
Definition interesting (name : string) (n : node) : option string :=
  match string_containers name, n with
  | None, NavigableString s => Some s
  | None, CData s => Some s
  | Some k, Contained k' s => if decide (k = k') then Some s else None
  | _, _ => None
  end.

(** The strings [get_text] joins: those of the interesting classes among
    all that lies below the tag, in document order. *)
Definition strings (n : node) : list string :=
  match n with
  | Tag name _ cs => omap (interesting name) (descendants cs)
  | _ => []
  end.

(** [el.get_text()] *)
Definition get_text (n : node) : string :=
  PyStr.join EmptyString (strings n).

(** [el.get_text(strip=True)]: each string is stripped and dropped when
    nothing is left of it. *)
Definition get_text_strip (n : node) : string :=
  PyStr.join EmptyString
    (List.filter (fun s => negb (String.eqb s EmptyString)) (PyStr.strip <$> strings n)).

End Bs4.

(** ** Result row parser *)

Record Athlete : Type := {
  rank : string;
  athlete : string;
  nationality : string;
  age_group : string;
  total_time : string
}.

(** The regular expression of [parse_total_count] (a digit, then any run of
    digits and commas, greedy) searched in the characters of a text: the
    first digit and the longest run of digits and commas after it. *)
Definition digit_or_comma (c : string) : bool := PyStr.is_digit c || String.eqb c ",".

Fixpoint digits_commas (cs : list string) : list string :=
  match cs with
  | [] => []
  | c :: r => if digit_or_comma c then c :: digits_commas r else []
  end.

Fixpoint search_count (cs : list string) : option (list string) :=
  match cs with
  | [] => None
  | c :: r => if PyStr.is_digit c then Some (c :: digits_commas r) else search_count r
  end.

(** [g.replace] of every comma by nothing, on the characters of [g] *)
Definition remove_commas (g : list string) : list string :=
  List.filter (fun c => negb (String.eqb c ",")) g.

Definition parse_total_count (sp : soup) : Z :=
  match Bs4.find (Bs4.class_matches (String.eqb "list-info__text str_num")) sp with
  | Some el =>
      match search_count (PyStr.chars (Bs4.get_text el)) with
      | Some g => PyStr.int_of_chars (remove_commas g)
      | None => 0
      end
  | None => 0
  end.

(** [lambda c: c and "list-group-item" in c and "row" in c] *)
Definition row_class (c : string) : bool :=
  negb (String.eqb c EmptyString) && PyStr.contains "list-group-item" c && PyStr.contains "row" c.

Definition is_row (n : node) : bool :=
  Bs4.named "li" n && Bs4.class_matches row_class n.

(** [re.compile(r"visible-xs|visible-sm")] as a [class_] filter *)
Definition is_label (n : node) : bool :=
  Bs4.class_matches
    (fun c => PyStr.contains "visible-xs" c || PyStr.contains "visible-sm" c) n.

(** The row after [label.decompose()] on every label found below it: each
    label goes with all it contains. *)
Fixpoint decompose_labels (n : node) : node :=
  match n with
  | Tag nm cls cs =>
      Tag nm cls (flat_map (fun c => if is_label c then [] else [decompose_labels c]) cs)
  | _ => n
  end.

(** A tag after [decompose()] has emptied it. *)
Definition emptied (n : node) : node :=
  match n with
  | Tag nm cls _ => Tag nm cls []
  | _ => n
  end.

(** The rows [find_all] lists, each one as the body of the [for row in rows]
    loop has it once its labels are decomposed.  The list is built before any
    label is removed and the tree is changed in place, so a row that lies
    inside another row is met again later in the state the outer row left it
    in: with its labels already gone ([decompose_labels] gives the same), or,
    when it sat in (or was itself) a label below the outer row, decomposed
    with nothing left in it.  [in_row] tells that an enclosing tag is a row,
    [gone] that the element has been decomposed by then. *)
Fixpoint rows_in (in_row gone : bool) (n : node) : list node :=
  match n with
  | Tag nm cls cs =>
      let gone' := gone || (in_row && is_label n) in
      (if is_row n
       then [if gone' then emptied n else decompose_labels n]
       else [])
      ++ flat_map (rows_in (in_row || is_row n) gone') cs
  | _ => []
  end.

Definition result_rows (sp : soup) : list node :=
  flat_map (rows_in false false) sp.

(** [el.get_text(strip=True)] for the first tag [el] below [row] that passes
    the filter, the empty string when there is none. *)
Definition field_text (P : node -> bool) (row : node) : string :=
  match Bs4.find P (Bs4.contents row) with
  | Some el => Bs4.get_text_strip el
  | None => EmptyString
  end.

Definition rank_filter : node -> bool := Bs4.class_matches (PyStr.contains "place-primary").
Definition name_filter : node -> bool := Bs4.class_matches (PyStr.contains "type-fullname").
Definition nat_filter (n : node) : bool :=
  Bs4.named "span" n && Bs4.class_matches (String.eqb "nation__abbr") n.
Definition age_filter : node -> bool := Bs4.class_matches (PyStr.contains "type-age_class").
Definition time_filter : node -> bool := Bs4.class_matches (PyStr.contains "type-time").

(** The body of the loop after the labels are removed: [None] for
    [continue], the appended record otherwise. *)
Definition parse_row (row : node) : option Athlete :=
  let rank := field_text rank_filter row in
  let name := field_text name_filter row in
  let nat := field_text nat_filter row in
  let age := field_text age_filter row in
  let tot := field_text time_filter row in
  if String.eqb (PyStr.lower rank) "rank" || String.eqb (PyStr.lower rank) EmptyString then None
  else if String.eqb name EmptyString then None
  else Some {| rank := rank; athlete := name; nationality := nat;
               age_group := age; total_time := tot |}.

Definition parse_result_rows (sp : soup) : list Athlete :=
  omap parse_row (result_rows sp).

(** ** The network and the output store *)

(** The two records the discovery calls build, [{"value": .., "text": ..}]. *)
Record Item : Type := { value : json; text : json }.

Inductive Request : Type :=
  | SearchGroups (base_url : string)
  | SearchCodes (base_url : string) (event_main_group : json)
  | ResultsPage (base_url : string) (event_main_group : json)
                (event_code : string) (sex : string) (page : Z).

(** A response that passed [raise_for_status]: what [r.json()] decodes
    ([None] when it raises) and the tree [BeautifulSoup(r.text,
    "html.parser")] builds of it; a body that the parser rejects is one of
    the failures the embedding does not follow. *)
Record Response : Type := { resp_json : option json; resp_soup : soup }.

(** The unit of resumable work, as [load_done_keys] and [scrape_combo] build
    it: a pair of cells, where [None] is the [None] that [csv.DictReader]
    puts in the missing columns of a short line. *)
Abbreviation Key := (option string * option string)%type.

(** One line of the store as [csv.DictReader] yields it. *)
Abbreviation CsvRow := (gmap string (option string)).

(** One dictionary handed to [writer.writerow]. *)
Record Row : Type := mkRow {
  season : string;
  event_main_group : json;
  event_code : string;
  event_label : json;
  category : string;
  gender : string;
  fields : Athlete
}.

Definition row_key (r : Row) : Key := (Some (event_code r), Some (gender r)).

(** The state a run threads: the requests sent so far, the rows handed to the
    writer so far (the store is opened for appending, so they follow the lines
    it held at startup), how many of them [csvfile.flush()] has pushed out,
    and the in-memory set of finished keys. *)
Record World : Type := {
  requests : list Request;
  written : list Row;
  flushed : nat;
  done_keys : gset Key
}.

Definition csv_key (row : CsvRow) : Key :=
  (default (Some EmptyString) (row !! "event_code"),
   default (Some EmptyString) (row !! "gender")).

(** [file] is [None] when the path does not exist. *)
Definition load_done_keys (file : option (list CsvRow)) : gset Key :=
  match file with
  | Some rows => fold_left (fun done row => done ∪ {[ csv_key row ]}) rows ∅
  | None => ∅
  end.

(** The key a results-page request works for. *)
Definition request_key (r : Request) : option Key :=
  match r with
  | ResultsPage _ _ code sex _ => Some (Some code, Some sex)
  | _ => None
  end.

(** ** Event discovery: navigation of the decoded response *)

Definition groups_path (data : json) : result json :=
  d ← Py.getitem data "branches"; d ← Py.getitem d "lists";
  d ← Py.getitem d "fields"; d ← Py.getitem d "event_main_group";
  Py.getitem d "data".

Definition nested_path (data : json) : result json :=
  d ← Py.getitem data "branches"; d ← Py.getitem d "lists";
  d ← Py.getitem d "fields"; d ← Py.getitem d "event";
  Py.getitem d "data".

Definition top_path (data : json) : result json :=
  d ← Py.getitem data "event"; Py.getitem d "data".

(** The list comprehension that ends [get_event_groups]. *)
Fixpoint group_items (items : list json) : result (list Item) :=
  match items with
  | [] => Ok []
  | item :: rest =>
      c ← Py.get item "v";
      if Py.truthy c then
        v ← Py.getitem item "v"; v0 ← Py.index v 0;
        v' ← Py.getitem item "v"; v1 ← Py.index v' 1;
        r ← group_items rest;
        Ok ({| value := v0; text := v1 |} :: r)
      else group_items rest
  end.

(** The [for item in ev_data] loop of [get_event_codes]. *)
Fixpoint code_items (items : list json) (acc : list Item) : result (list Item) :=
  match items with
  | [] => Ok acc
  | item :: rest =>
      v ← Py.get item "v";
      if Py.truthy v then
        n ← Py.len v;
        if 2 <=? n then
          v0 ← Py.index v 0; v1 ← Py.index v 1;
          code_items rest (acc ++ [{| value := v0; text := v1 |}])
        else code_items rest acc
      else code_items rest acc
  end.

(** The loop that ends [get_event_codes]. *)
Definition event_codes_from (ev_data : json) : result (list Item) :=
  items ← Py.iter ev_data; code_items items [].

(** [get_event_groups] after the request, on the decoding of the body
    ([None] when [r.json()] raises).  Only the navigation sits in the [try]
    block; the comprehension runs outside it. *)
Definition event_groups_of (decoded : option json) : result (list Item) :=
  match decoded with
  | None => Ok []
  | Some data =>
      match groups_path data with
      | Ok emg_data => items ← Py.iter emg_data; group_items items
      | Raise e => if Py.key_or_type_error e then Ok [] else Raise e
      end
  end.

(** [get_event_codes] after the request, on the decoding of the body: the
    nested path, in its handler the top-level path, in its handler the empty
    list; the loop over [ev_data] runs outside the [try] blocks. *)
Definition event_codes_of (decoded : option json) : result (list Item) :=
  match decoded with
  | None => Ok []
  | Some data =>
      match nested_path data with
      | Ok ev_data => event_codes_from ev_data
      | Raise e =>
          if Py.key_or_type_error e then
            match top_path data with
            | Ok ev_data => event_codes_from ev_data
            | Raise e' => if Py.key_or_type_error e' then Ok [] else Raise e'
            end
          else Raise e
      end
  end.

(** ** Caller-side filters of [main] *)

(** [o["value"].upper()]: only a [str] has the method. *)
Definition code_upper (o : Item) : result string :=
  match value o with
  | JStr s => Ok (PyStr.upper s)
  | _ => Raise AttributeError
  end.

(** [category_from_code(o["value"])] *)
Definition item_category (o : Item) : result string :=
  match value o with
  | JStr s => Ok (category_from_code s)
  | _ => Raise AttributeError
  end.

(** A list comprehension [[o for o in l if P(o)]] whose test may raise. *)
Fixpoint comprehension {A} (P : A -> result bool) (l : list A) : result (list A) :=
  match l with
  | [] => Ok []
  | o :: rest =>
      b ← P o; r ← comprehension P rest;
      Ok (if (b : bool) then o :: r else r)
  end.

Definition is_open (o : Item) : result bool :=
  c ← item_category o; Ok (String.eqb c "HYROX").

Definition is_overall (o : Item) : result bool :=
  u ← code_upper o; Ok (PyStr.contains "OVERALL" u).

Definition is_not_overall (o : Item) : result bool :=
  u ← code_upper o; Ok (negb (PyStr.contains "OVERALL" u)).

(** The [if ONLY_OPEN:] step. *)
Definition open_filter (event_opts : list Item) : result (list Item) :=
  if ONLY_OPEN then comprehension is_open event_opts else Ok event_opts.

(** [overall], [non_overall] and [use_opts]. *)
Definition use_opts (event_opts : list Item) : result (list Item) :=
  overall ← comprehension is_overall event_opts;
  non_overall ← comprehension is_not_overall event_opts;
  Ok (match overall with [] => non_overall | _ => overall end).

(** ** Collection driver *)

(** The world once the request [r] has gone out. *)
Definition sent (r : Request) (w : World) : World :=
  {| requests := requests w ++ [r]; written := written w;
     flushed := flushed w; done_keys := done_keys w |}.

Section Driver.

(** The outside world: the reply to a request, given the requests already
    sent in this run; [None] when [polite_get] raises (network failure,
    timeout or a status that [raise_for_status] refuses). *)
Variable net : list Request -> Request -> option Response.

Definition polite_get (r : Request) (w : World) : result Response * World :=
  (match net (requests w) r with
   | Some resp => Ok resp
   | None => Raise RequestException
   end,
   sent r w).

Definition get_event_groups (base_url : string) (w : World)
    : result (list Item) * World :=
  match polite_get (SearchGroups base_url) w with
  | (Ok r, w') => (event_groups_of (resp_json r), w')
  | (Raise e, w') => (Raise e, w')
  end.

Definition get_event_codes (base_url : string) (event_main_group : json) (w : World)
    : result (list Item) * World :=
  match polite_get (SearchCodes base_url event_main_group) w with
  | (Ok r, w') => (event_codes_of (resp_json r), w')
  | (Raise e, w') => (Raise e, w')
  end.

Definition get_results_page (base_url : string) (event_main_group : json)
    (event_code sex : string) (page : Z) (w : World) : result Response * World :=
  polite_get (ResultsPage base_url event_main_group event_code sex page) w.

Definition total_pages (total_count : Z) : Z :=
  (total_count + PER_PAGE - 1) / PER_PAGE.

Definition fetch_pages (total_count : Z) : Z :=
  Z.min (total_pages total_count) MAX_PAGES.

Section Combo.

Variables (base_url season : string) (event_main_group : json)
          (event_code : string) (event_label : json)
          (category gender : string).

Definition annotate (a : Athlete) : Row :=
  mkRow season event_main_group event_code event_label category gender a.

(** The end of one iteration: the rows of the page go to the writer and
    the file is flushed. *)
Definition write_page (sp : soup) (w : World) : World :=
  let rows := (written w ++ (annotate <$> parse_result_rows sp))%list in
  {| requests := requests w; written := rows;
     flushed := length rows; done_keys := done_keys w |}.

(** The [for page_num in range(1, fetch_pages + 1)] loop over the page
    numbers still to visit; [sp] is the variable [soup], which holds the
    first page until a later page replaces it.  A failed fetch is the
    [break]. *)
Fixpoint pages_loop (pages : list Z) (sp : soup) (w : World) : World :=
  match pages with
  | [] => w
  | page_num :: rest =>
      if 1 <? page_num then
        match get_results_page base_url event_main_group event_code gender page_num w with
        | (Ok r, w') => pages_loop rest (resp_soup r) (write_page (resp_soup r) w')
        | (Raise _, w') => w'
        end
      else pages_loop rest sp (write_page sp w)
  end.

Definition mark_done (k : Key) (w : World) : World :=
  {| requests := requests w; written := written w;
     flushed := flushed w; done_keys := done_keys w ∪ {[ k ]} |}.

Definition scrape_combo (w : World) : World :=
  let key : Key := (Some event_code, Some gender) in
  if decide (key ∈ done_keys w) then w
  else
    match get_results_page base_url event_main_group event_code gender 1 w with
    | (Raise _, w1) => w1
    | (Ok r, w1) =>
        let sp := resp_soup r in
        let total_count := parse_total_count sp in
        if total_count =? 0 then w1
        else
          mark_done key (pages_loop (seqZ 1 (fetch_pages total_count)) sp w1)
    end.

End Combo.

(** [for sex_code, sex_label in GENDERS] *)
Fixpoint genders_loop (base_url season : string) (emg_value : json)
    (ev_code : string) (ev_label : json) (ev_category : string)
    (genders : list (string * string)) (w : World) : World :=
  match genders with
  | [] => w
  | (sex_code, _) :: rest =>
      genders_loop base_url season emg_value ev_code ev_label ev_category rest
        (scrape_combo base_url season emg_value ev_code ev_label ev_category sex_code w)
  end.

(** [for ev in use_opts]; [category_from_code(ev_code)] raises on a value
    that is not a [str], outside every [try]. *)
Fixpoint options_loop (base_url season : string) (emg_value : json)
    (opts : list Item) (w : World) : result unit * World :=
  match opts with
  | [] => (Ok tt, w)
  | ev :: rest =>
      match value ev with
      | JStr ev_code =>
          options_loop base_url season emg_value rest
            (genders_loop base_url season emg_value ev_code (text ev)
               (category_from_code ev_code) GENDERS w)
      | _ => (Raise AttributeError, w)
      end
  end.

(** The body of [for eg in event_groups]; [Ok] also stands for [continue]. *)
Definition group_body (base_url season : string) (eg : Item) (w : World)
    : result unit * World :=
  let emg_value := value eg in
  match get_event_codes base_url emg_value w with
  | (Raise _, w1) => (Ok tt, w1)
  | (Ok [], w1) => (Ok tt, w1)
  | (Ok event_opts, w1) =>
      match open_filter event_opts with
      | Raise e => (Raise e, w1)
      | Ok [] => (Ok tt, w1)
      | Ok event_opts =>
          match use_opts event_opts with
          | Raise e => (Raise e, w1)
          | Ok opts => options_loop base_url season emg_value opts w1
          end
      end
  end.

Fixpoint groups_loop (base_url season : string) (event_groups : list Item)
    (w : World) : result unit * World :=
  match event_groups with
  | [] => (Ok tt, w)
  | eg :: rest =>
      match group_body base_url season eg w with
      | (Ok _, w') => groups_loop base_url season rest w'
      | (Raise e, w') => (Raise e, w')
      end
  end.

(** The body of [for season, base_url in SEASON_BASES]. *)
Definition season_body (season base_url : string) (w : World) : result unit * World :=
  match get_event_groups base_url w with
  | (Raise _, w1) => (Ok tt, w1)
  | (Ok [], w1) => (Ok tt, w1)
  | (Ok event_groups, w1) => groups_loop base_url season event_groups w1
  end.

Fixpoint seasons_loop (seasons : list (string * string)) (w : World)
    : result unit * World :=
  match seasons with
  | [] => (Ok tt, w)
  | (season, base_url) :: rest =>
      match season_body season base_url w with
      | (Ok _, w') => seasons_loop rest w'
      | (Raise e, w') => (Raise e, w')
      end
  end.

Definition startup (file : option (list CsvRow)) : World :=
  {| requests := []; written := []; flushed := 0; done_keys := load_done_keys file |}.

(** A run of the program on the store found at startup, as far as the
    embedding follows it: [Raise] when the [AttributeError] of a code that
    is not a string leaves [main].  The other exceptions that can leave it
    come from statements the embedding leaves out (see the conventions). *)
Definition main (file : option (list CsvRow)) : result unit * World :=
  seasons_loop SEASON_BASES (startup file).

End Driver.

(** ** Downstream consumer: the time parser of [load_data] *)

(** The longest run of digits at the head of the characters [cs], and what
    follows it. *)
Fixpoint span_digits (cs : list string) : list string * list string :=
  match cs with
  | [] => ([], [])
  | c :: r =>
      if PyStr.is_digit c
      then let '(d, rest) := span_digits r in (c :: d, rest)
      else ([], cs)
  end.

Definition colon (cs : list string) : option (list string) :=
  match cs with
  | c :: r => if String.eqb c ":" then Some r else None
  | [] => None
  end.

Definition two_digits (cs : list string) : option (list string * list string) :=
  match cs with
  | a :: b :: r =>
      if PyStr.is_digit a && PyStr.is_digit b then Some ([a; b], r) else None
  | _ => None
  end.

(** [re.fullmatch] of the pattern with three groups, digits : two digits :
    two digits, on the characters of [t]; the groups come back as strings.
    No digit run can end elsewhere than at its colon, so the match is found
    by reading from the left. *)
Definition fullmatch_hms (t : string) : option (string * string * string) :=
  let '(h, r) := span_digits (PyStr.chars t) in
  match h with
  | [] => None
  | _ =>
      r1 ← colon r; '(m, r2) ← two_digits r1;
      r3 ← colon r2; '(s, r4) ← two_digits r3;
      match r4 with
      | [] => Some (PyStr.join EmptyString h, PyStr.join EmptyString m,
                    PyStr.join EmptyString s)
      | _ => None
      end
  end.

(** [re.fullmatch] of the pattern with two groups, digits : two digits. *)
Definition fullmatch_ms (t : string) : option (string * string) :=
  let '(m, r) := span_digits (PyStr.chars t) in
  match m with
  | [] => None
  | _ =>
      r1 ← colon r; '(s, r2) ← two_digits r1;
      match r2 with
      | [] => Some (PyStr.join EmptyString m, PyStr.join EmptyString s)
      | _ => None
      end
  end.

(** A cell of the frame read with [dtype=str] is a string or missing
    ([None]); the result is [None] for Python's [None]. *)
Definition to_seconds (t : option string) : option Z :=
  match t with
  | None => None
  | Some t =>
      let t := PyStr.strip t in
      match fullmatch_hms t with
      | Some (h, m, s) =>
          Some (PyStr.int_of_digits h * 3600 + PyStr.int_of_digits m * 60
                + PyStr.int_of_digits s)
      | None =>
          match fullmatch_ms t with
          | Some (m, s) => Some (PyStr.int_of_digits m * 60 + PyStr.int_of_digits s)
          | None => None
          end
      end
  end.

(** One line of the store as [pd.read_csv] reads it. *)
Record Line : Type := {
  col_season : option string;
  col_event_main_group : option string;
  col_event_code : option string;
  col_event_label : option string;
  col_category : option string;
  col_gender : option string;
  col_rank : option string;
  col_athlete : option string;
  col_nationality : option string;
  col_age_group : option string;
  col_total_time : option string
}.

(** A line of the frame [load_data] returns, with the derived column
    [total_seconds] (the other derived columns are left out). *)
Record Loaded : Type := { line : Line; total_seconds : Z }.

(** [df["total_seconds"] = df["total_time"].apply(to_seconds)] followed by
    [df.dropna(subset=["total_seconds"])]. *)
Definition load_data (df : list Line) : list Loaded :=
  omap (fun l => s ← to_seconds (col_total_time l);
                 Some {| line := l; total_seconds := s |}) df.

(** The two forms as the specification words them. *)
Definition digits (n : string) : Prop := PyStr.all_digits n = true.

Definition two (n : string) : Prop := length (PyStr.chars n) = 2%nat ∧ digits n.

Definition hms_form (t : string) : Prop :=
  ∃ h m s, t = h ++ ":" ++ m ++ ":" ++ s ∧ h ≠ EmptyString ∧ digits h ∧ two m ∧ two s.

Definition ms_form (t : string) : Prop :=
  ∃ m s, t = m ++ ":" ++ s ∧ m ≠ EmptyString ∧ digits m ∧ two s.

(** ** Vocabulary of the statements *)

(** An option whose code is a string, as every option that passed the Open
    filter is. *)
Definition str_coded (o : Item) : Prop := ∃ code, value o = JStr code.

(** The code of the option contains OVERALL, whatever the case. *)
Definition has_overall (o : Item) : bool :=
  match value o with
  | JStr code => PyStr.contains "OVERALL" (PyStr.upper code)
  | _ => false
  end.

(** The test of a comprehension holds of [o]. *)
Definition passes {A} (P : A → result bool) (o : A) : bool :=
  match P o with
  | Ok true => true
  | _ => false
  end.

(** The data path of the specification: the value reached by following the
    keys through nested objects, when every step finds an object that has
    the key. *)
Fixpoint lookup_path (keys : list string) (data : json) : option json :=
  match keys with
  | [] => Some data
  | k :: rest =>
      match data with
      | JDict d => d !! k ≫= lookup_path rest
      | _ => None
      end
  end.

Definition NESTED : list string := ["branches"; "lists"; "fields"; "event"; "data"].
Definition TOP : list string := ["event"; "data"].

(** The texts the loop body reads off a row. *)
Definition rank_text (row : node) : string := field_text rank_filter row.
Definition name_text (row : node) : string := field_text name_filter row.

(** A header or decorative row: its rank text is empty or is the word rank
    in any case, or its name text is empty. *)
Definition skipped (row : node) : Prop :=
  rank_text row = EmptyString
  ∨ PyStr.lower (rank_text row) = "rank"
  ∨ name_text row = EmptyString.

#[export] Instance skipped_dec row : Decision (skipped row) :=
  ltac:(unfold skipped; apply _).

(** The record of a row: each field is the text of its sub-element. *)
Definition record_of (row : node) : Athlete :=
  {| rank := rank_text row;
     athlete := name_text row;
     nationality := field_text nat_filter row;
     age_group := field_text age_filter row;
     total_time := field_text time_filter row |}.

(** ** Sample inputs *)

Definition div (cls : list string) (cs : list node) : node := Tag "div" (Some cls) cs.

Definition sample_header_row : node :=
  Tag "li" (Some ["list-group-item"; "list-group-header"; "row"])
    [ div ["list-field"; "type-place"; "place-primary"] [NavigableString "Rank"];
      div ["list-field"; "type-fullname"] [NavigableString "Name"];
      div ["list-field"; "type-time"] [NavigableString "Total"] ].

(** An athlete row without the nationality element, with the labels shown
    on narrow screens. *)
Definition sample_row_1 : node :=
  Tag "li" (Some ["list-active"; "list-group-item"; "row"])
    [ div ["list-field"; "type-place"; "place-primary"; "numeric"] [NavigableString " 1 "];
      Tag "h4" (Some ["list-field"; "type-fullname"])
        [ Tag "a" None [NavigableString "Doe, John"] ];
      div ["list-field"; "type-age_class"]
        [ div ["visible-xs-block"; "list-label"] [NavigableString "Age Group"];
          NavigableString "30-34" ];
      div ["right"; "list-field"; "type-time"]
        [ div ["visible-xs-block"; "visible-sm-block"; "list-label"] [NavigableString "Total"];
          NavigableString "0:52:13" ] ].

Definition sample_row_2 : node :=
  Tag "li" (Some ["list-group-item"; "row"])
    [ div ["list-field"; "type-place"; "place-primary"; "numeric"] [NavigableString "2"];
      Tag "h4" (Some ["list-field"; "type-fullname"])
        [ Tag "a" None [NavigableString "Silva, Rui"] ];
      div ["list-field"; "type-nation"]
        [ Tag "span" (Some ["nation__abbr"]) [NavigableString "POR"] ];
      div ["list-field"; "type-age_class"] [NavigableString "25-29"];
      div ["right"; "list-field"; "type-time"] [NavigableString "0:53:40"] ].

Definition sample_page (total : string) (rows : list node) : soup :=
  [ Tag "html" None
      [ Tag "body" None
          [ div ["list-info"]
              [ div ["list-info__text"; "str_num"] [NavigableString total] ];
            Tag "ul" (Some ["list-group"; "list-group-multicolumn"]) rows ] ] ].

Definition sample_page_1 : soup :=
  sample_page "30 Results" [sample_header_row; sample_row_1; sample_row_2].

(** The network answers the requests [rs], sent one after the other once
    the requests [h] are out, with the replies [os]. *)
Fixpoint answers (net : list Request → Request → option Response)
    (h : list Request) (rs : list Request) (os : list (option Response)) : Prop :=
  match rs, os with
  | [], [] => True
  | r :: rs', o :: os' => net h r = o ∧ answers net (h ++ [r]) rs' os'
  | _, _ => False
  end.

(** From [w] to [w'] the run only appended requests and rows, none of them
    for the key [K], and only added keys. *)
Definition avoids (K : Key) (w w' : World) : Prop :=
  ∃ rs xs,
    requests w' = (requests w ++ rs)%list
    ∧ written w' = (written w ++ xs)%list
    ∧ done_keys w ⊆ done_keys w'
    ∧ Forall (fun r => request_key r ≠ Some K) rs
    ∧ Forall (fun x => row_key x ≠ K) xs.

(** The keys a later run loads from the store: those of the lines it held
    at startup and those of the rows appended since. *)
Definition stored_keys (file : option (list CsvRow)) (rows : list Row) : gset Key :=
  load_done_keys file ∪ list_to_set (row_key <$> rows).

Definition season8 : string := "https://results.hyrox.com/season-8/".
Definition taipei : json := JStr "2026 Taipei".

(** The group list, in the nested shape. *)
Definition sample_groups : json :=
  JDict {[ "branches" := JDict {[ "lists" := JDict {[ "fields" := JDict
    {[ "event_main_group" := JDict
         {[ "data" := JList [ JDict {[ "v" := JList [taipei; taipei] ]} ] ]} ]} ]} ]} ]}.

(** The event list of the group, in the top-level shape. *)
Definition sample_codes : json :=
  JDict {[ "event" := JDict
    {[ "data" := JList
         [ JDict {[ "v" := JList [JStr "H_TPE_OVERALL"; JStr "HYROX - Overall"] ]};
           JDict {[ "v" := JList [JStr "H_TPE_SAT"; JStr "HYROX - Saturday"] ]};
           JDict {[ "v" := JList [JStr "HPRO_TPE"; JStr "HYROX PRO"] ]} ] ]} ]}.

Definition json_response (j : json) : Response :=
  {| resp_json := Some j; resp_soup := [] |}.

Definition html_response (sp : soup) : Response :=
  {| resp_json := None; resp_soup := sp |}.

Definition sample_page_130 : soup :=
  sample_page "130 Results" [sample_header_row; sample_row_1; sample_row_2].

Definition sample_page_0 : soup := sample_page "No results" [].

(** A network that serves season 8 only: one group, three event codes, and
    for every key a field of 130 finishers; [fails p] tells that the fetch of
    results page [p] fails. *)
Definition sample_net (fails : Z → bool) (h : list Request) (r : Request)
    : option Response :=
  match r with
  | SearchGroups base =>
      if String.eqb base season8 then Some (json_response sample_groups) else None
  | SearchCodes base _ =>
      if String.eqb base season8 then Some (json_response sample_codes) else None
  | ResultsPage _ _ _ _ page =>
      if fails page then None else Some (html_response sample_page_130)
  end.

(** A network whose results pages announce no result. *)
Definition empty_net (h : list Request) (r : Request) : option Response :=
  match r with
  | ResultsPage _ _ _ _ _ => Some (html_response sample_page_0)
  | _ => None
  end.

(** Three options of one event group: the overall ranking, a code that no
    configured prefix matches, and a code of another category. *)
Definition overall_option : Item :=
  {| value := JStr "H_LR3_OVERALL"; text := JStr "HYROX - Overall" |}.
Definition sunday_option : Item :=
  {| value := JStr "LR3_SUNDAY"; text := JStr "Sunday" |}.
Definition pro_option : Item :=
  {| value := JStr "HPRO_LR3"; text := JStr "Pro" |}.

(** A network whose event list holds the overall ranking and the code that
    no prefix matches, and whose results pages announce 30 results. *)
Definition lr3_net (h : list Request) (r : Request) : option Response :=
  match r with
  | SearchGroups _ => None
  | SearchCodes _ _ =>
      Some (json_response
              (JDict {[ "event" := JDict
                 {[ "data" := JList
                      [ JDict {[ "v" := JList [value overall_option; text overall_option] ]};
                        JDict {[ "v" := JList [value sunday_option; text sunday_option] ]} ] ]} ]}))
  | ResultsPage _ _ _ _ _ => Some (html_response sample_page_1)
  end.

(** A line of the store for the overall ranking of the sample group. *)
Definition sample_line : CsvRow :=
  {[ "event_code" := Some "H_TPE_OVERALL"; "gender" := Some "M" ]}.

Definition sample_request : Z → Request :=
  ResultsPage season8 taipei "H_TPE_OVERALL" "M".

(** The sample call of [scrape_combo]. *)
Definition sample_combo (net : list Request → Request → option Response) : World → World :=
  scrape_combo net season8 "Season 8" taipei "H_TPE_OVERALL"
    (JStr "HYROX - Overall") "HYROX" "M".

(** The text a list of bytes encodes. *)
Definition of_bytes (l : list N) : string := string_of_list_ascii (ascii_of_N <$> l).

(** The time 52:13 after a no-break space (U+00A0), and in full-width
    digits (U+FF10 and the nine after it). *)
Definition nbsp_5213 : string := of_bytes [194; 160]%N ++ "52:13".
Definition fullwidth_5213 : string :=
  of_bytes [239; 188; 149; 239; 188; 146; 58; 239; 188; 145; 239; 188; 147]%N.

(** A row with the given rank cell and a name. *)
Definition row_with (rank_cell : node) : node :=
  Tag "li" (Some ["list-group-item"; "row"])
    [ rank_cell; div ["type-fullname"] [NavigableString "Doe, John"] ].

(** The word RANK spelled with the Kelvin sign (U+212A). *)
Definition kelvin_rank : string := "RAN" ++ of_bytes [226; 132; 170]%N.

(** The character 1 between two no-break spaces (U+00A0). *)
Definition nbsp_one : string :=
  String "194" (String "160" (String "1" (String "194" (String "160" EmptyString)))).

(** A page whose only row has the rank 7 inside an ideographic space
    (U+3000) and a line separator (U+2028). *)
Definition nbsp_page : soup :=
  [ Tag "li" (Some ["list-group-item"; "row"])
      [ div ["place-primary"]
          [ NavigableString
              (String "227" (String "128" (String "128" (String "7"
                 (String "226" (String "128" (String "168" EmptyString))))))) ];
        div ["type-fullname"] [NavigableString " Doe, John "] ] ].

(** The count 130 written with an Arabic-Indic three (U+0663), followed by
    a word. *)
Definition arabic_130 : string :=
  String "1" (String "217" (String "163" (String "0" " Results"))).

(** ** Downstream consumer: formatting and years *)

(** [str(z)] for an [int]. *)
Definition py_str (z : Z) : string :=
  if z <? 0 then String "-" (NilZero.string_of_uint (Nat.to_uint (Z.to_nat (- z))))
  else NilZero.string_of_uint (Nat.to_uint (Z.to_nat z)).

(** The format [{z:02d}]: zero fill up to two characters, sign counted. *)
Definition fmt_02d (z : Z) : string :=
  let s := py_str z in
  if (String.length s <? 2)%nat then String "0" s else s.

(** [fmt_seconds] on an [int] argument, as the tick labels call it: there
    [int(round(s))] is [s] itself.  The float arguments (means and medians)
    are outside the embedding. *)
Definition fmt_seconds (s : Z) : string :=
  let h := s / 3600 in
  let rem := s mod 3600 in
  let m := rem / 60 in
  let sec := rem mod 60 in
  py_str h ++ ":" ++ fmt_02d m ++ ":" ++ fmt_02d sec.

(** The pattern of the year, the characters 2 and 0 and two digits, searched
    in the characters [cs] from the left. *)
Fixpoint search_year (cs : list string) : option (list string) :=
  match cs with
  | [] => None
  | c :: r =>
      match r with
      | c2 :: a :: b :: _ =>
          if String.eqb c "2" && String.eqb c2 "0" && PyStr.is_digit a && PyStr.is_digit b
          then Some [c; c2; a; b]
          else search_year r
      | _ => None
      end
  end.

(** One of the ten ASCII digits. *)
Definition ascii_digit (ch : string) : bool :=
  match PyStr.code ch with
  | Some n => (48 <=? n)%N && (n <=? 57)%N
  | None => false
  end.

(** [pd.to_numeric(..., errors="coerce")] on a run of decimal digits, the
    only strings it is given here: its parser reads ASCII digits, and a run
    with a digit of another script becomes the missing value. *)
Definition to_numeric (g : list string) : option Z :=
  if forallb ascii_digit g then Some (PyStr.int_of_chars g) else None.

(** [df["event_main_group"].str.extract(...)] then [pd.to_numeric]: the
    year of a cell, missing when the cell is missing or holds no year. *)
Definition year_of (cell : option string) : option Z :=
  g ← cell; y ← search_year (PyStr.chars g); to_numeric y.

(** ** Further vocabulary of the statements *)

(** A string without white space. *)
Definition no_space (s : string) : Prop :=
  forallb (fun c => negb (PyStr.is_space c)) (PyStr.chars s) = true.

(** A string that [strip] leaves as it is. *)
Definition trimmed (s : string) : Prop := PyStr.strip s = s.

(** Characters with no white space at either end. *)
Definition bare_chars (cs : list string) : Prop :=
  (∀ c, head cs = Some c → PyStr.is_space c = false)
  ∧ (∀ c, last cs = Some c → PyStr.is_space c = false).

(** A text with no white space at either end. *)
Definition bare (s : string) : Prop := bare_chars (PyStr.chars s).

(** All the strings of an element, of whatever class. *)
Fixpoint all_strings (n : node) : list string :=
  match n with
  | NavigableString s => [s]
  | CData s => [s]
  | Contained _ s => [s]
  | Comment s => [s]
  | Tag _ _ cs => flat_map all_strings cs
  end.

(** An element whose strings all encode texts, as those of a parsed page
    do. *)
Definition text_node (n : node) : Prop :=
  Forall (fun s => PyStr.text s = true) (all_strings n).

(** An item of a discovery list in the expected shape: an object whose
    entry [v], when it has one, is a list. *)
Definition listed (item : json) : Prop :=
  ∃ d, item = JDict d ∧ (d !! "v" = None ∨ ∃ l, d !! "v" = Some (JList l)).

(** The pair an item in the expected shape stands for: the first two
    elements of its list, when it has two. *)
Definition pair_of (item : json) : option Item :=
  match item with
  | JDict d =>
      match d !! "v" with
      | Some (JList (a :: b :: _)) => Some {| value := a; text := b |}
      | _ => None
      end
  | _ => None
  end.

(** The list of an item has exactly one element. *)
Definition singleton_item (item : json) : Prop :=
  ∃ d x, item = JDict d ∧ d !! "v" = Some (JList [x]).

(** From [w] to [w'] the run appended requests that all satisfy [P] and rows
    that all satisfy [Q], and only added keys. *)
Definition grows (P : Request → Prop) (Q : Row → Prop) (w w' : World) : Prop :=
  ∃ rs xs,
    requests w' = (requests w ++ rs)%list
    ∧ written w' = (written w ++ xs)%list
    ∧ done_keys w ⊆ done_keys w'
    ∧ Forall P rs
    ∧ Forall Q xs.

Definition request_base (r : Request) : string :=
  match r with
  | SearchGroups b => b
  | SearchCodes b _ => b
  | ResultsPage b _ _ _ _ => b
  end.

(** What a run over [seasons] may ask for: the base address is a configured
    one, and a results page is asked for a configured gender, a code of the
    Open category and a page within the cap. *)
Definition good_request (seasons : list (string * string)) (r : Request) : Prop :=
  In (request_base r) (seasons.*2)
  ∧ match r with
    | ResultsPage _ _ c s p =>
        In s (GENDERS.*1) ∧ category_from_code c = "HYROX" ∧ 1 ≤ p ≤ MAX_PAGES
    | _ => True
    end.

Definition good_row (seasons : list (string * string)) (x : Row) : Prop :=
  In (season x) (seasons.*1)
  ∧ In (gender x) (GENDERS.*1)
  ∧ category x = "HYROX"
  ∧ category_from_code (event_code x) = "HYROX".


(** The year pattern matches the characters [cs] after [pre], with the
    digits [a] and [b]. *)
Definition year_match (cs pre : list string) (a b : string) : Prop :=
  (∃ post, cs = pre ++ "2" :: "0" :: a :: b :: post)%list
  ∧ PyStr.is_digit a = true ∧ PyStr.is_digit b = true.

(** The leftmost match of the year pattern in the text [g] has the digits
    [a] and [b]. *)
Definition first_year (g : string) (a b : string) : Prop :=
  ∃ pre, year_match (PyStr.chars g) pre a b
         ∧ ∀ pre' a' b', year_match (PyStr.chars g) pre' a' b' → (length pre ≤ length pre')%nat.

(** One character: bytes that encode a code point. *)
Definition is_char (ch : string) : Prop := is_Some (PyStr.code ch).

(** A text in which [lower] followed by [upper] can change nothing that a
    comparison with it meets: it has neither I nor K nor the first byte of
    the two characters outside ASCII that [lower] maps. *)
Definition plain (p : string) : bool :=
  forallb (fun c => negb (Ascii.eqb c "I" || Ascii.eqb c "K"
                          || Ascii.eqb c "196" || Ascii.eqb c "226"))
    (list_ascii_of_string p).

(** * Properties *)

(** ** Strings *)

Lemma upper_char_idem c : PyStr.upper_char (PyStr.upper_char c) = PyStr.upper_char c.
Proof. destruct c as [[] [] [] [] [] [] [] []]; reflexivity. Qed.

Lemma upper_lower_byte c : PyStr.upper_char (PyStr.lower_byte c) = PyStr.upper_char c.
Proof. destruct c as [[] [] [] [] [] [] [] []]; reflexivity. Qed.

Lemma upper_idem s : PyStr.upper (PyStr.upper s) = PyStr.upper s.
Proof. induction s as [|c s IH]; simpl; [done|]. by rewrite upper_char_idem, IH. Qed.

Lemma append_cons c (s r : string) : String c s ++ r = String c (s ++ r).
Proof. reflexivity. Qed.

Lemma append_empty_l (r : string) : EmptyString ++ r = r.
Proof. reflexivity. Qed.

Lemma append_empty_r (s : string) : s ++ EmptyString = s.
Proof. induction s as [|c s IH]; [done|]. by rewrite append_cons, IH. Qed.

Lemma append_assoc (a b c : string) : (a ++ b) ++ c = a ++ b ++ c.
Proof. induction a as [|x a IH]; [done|]. by rewrite !append_cons, IH. Qed.

Lemma startswith_cons a p b s :
  PyStr.startswith (String a p) (String b s)
  = if Ascii.eqb a b then PyStr.startswith p s else false.
Proof. reflexivity. Qed.

Lemma lower_cons c r :
  PyStr.lower (String c r) =
    match r with
    | String b r1 =>
        if Ascii.eqb c "196" && Ascii.eqb b "176"
        then String "i" (String "204" (String "135" (PyStr.lower r1)))
        else
          match r1 with
          | String d r2 =>
              if Ascii.eqb c "226" && Ascii.eqb b "132" && Ascii.eqb d "170"
              then String "k" (PyStr.lower r2)
              else String (PyStr.lower_byte c) (PyStr.lower r)
          | EmptyString => String (PyStr.lower_byte c) (PyStr.lower r)
          end
    | EmptyString => String (PyStr.lower_byte c) (PyStr.lower r)
    end.
Proof. destruct r as [|b [|d r2]]; reflexivity. Qed.

Lemma lower_empty s : PyStr.lower s = EmptyString ↔ s = EmptyString.
Proof.
  destruct s as [|c r]; [done|]. rewrite lower_cons. split; [|done].
  destruct r as [|b [|d r2]]; repeat case_match; done.
Qed.

(** A plain text starts the upper case of a text and the upper case of its
    lower case alike: where [lower] touches a character outside ASCII, a
    plain text has already failed to match. *)
Lemma startswith_upper_lower p : ∀ s,
  plain p = true →
  PyStr.startswith p (PyStr.upper (PyStr.lower s)) = PyStr.startswith p (PyStr.upper s).
Proof.
  induction p as [|a p IH]; intros s Hp; [done|].
  unfold plain in Hp. cbn [list_ascii_of_string forallb] in Hp.
  apply andb_prop in Hp as [Ha Hp]. apply negb_true_iff in Ha.
  apply orb_false_elim in Ha as [Ha H226]. apply orb_false_elim in Ha as [Ha H196].
  apply orb_false_elim in Ha as [HI HK].
  assert (Hplain : ∀ c r,
    PyStr.startswith (String a p) (PyStr.upper (String (PyStr.lower_byte c) (PyStr.lower r)))
    = PyStr.startswith (String a p) (PyStr.upper (String c r))).
  { intros c r. cbn [PyStr.upper]. rewrite !startswith_cons, upper_lower_byte.
    destruct (Ascii.eqb a (PyStr.upper_char c)); [|done]. by apply IH. }
  destruct s as [|c r]; [done|]. rewrite lower_cons.
  destruct r as [|b r1]; [apply Hplain|].
  destruct (Ascii.eqb_spec c "196") as [-> |_]; cbn [andb].
  { destruct (Ascii.eqb_spec b "176") as [-> |_]; [|destruct r1; apply Hplain].
    cbn [PyStr.upper]. rewrite !startswith_cons.
    change (PyStr.upper_char "i") with "I"%char.
    change (PyStr.upper_char "196") with "196"%char.
    by rewrite HI, H196. }
  destruct r1 as [|d r2]; [apply Hplain|].
  destruct (Ascii.eqb_spec c "226") as [-> |_]; cbn [andb]; [|apply Hplain].
  destruct (Ascii.eqb_spec b "132") as [-> |_]; cbn [andb]; [|apply Hplain].
  destruct (Ascii.eqb_spec d "170") as [-> |_]; [|apply Hplain].
  cbn [PyStr.upper]. rewrite !startswith_cons.
  change (PyStr.upper_char "k") with "K"%char.
  change (PyStr.upper_char "226") with "226"%char.
  by rewrite HK, H226.
Qed.

Lemma join_cons x l : PyStr.join EmptyString (x :: l) = x ++ PyStr.join EmptyString l.
Proof. destruct l as [|y l]; [|reflexivity]. simpl. by rewrite append_empty_r. Qed.

Lemma join_app l k :
  PyStr.join EmptyString (l ++ k) = PyStr.join EmptyString l ++ PyStr.join EmptyString k.
Proof.
  induction l as [|x l IH]; [done|].
  change ((x :: l) ++ k)%list with (x :: (l ++ k))%list.
  by rewrite !join_cons, IH, append_assoc.
Qed.

Lemma chars_1 a r :
  PyStr.width a = 1%nat → PyStr.chars (String a r) = String a EmptyString :: PyStr.chars r.
Proof. intros H. cbn [PyStr.chars]. rewrite H. reflexivity. Qed.

Lemma chars_2 a b r :
  PyStr.width a = 2%nat → PyStr.continuation b = true →
  PyStr.chars (String a (String b r)) = String a (String b EmptyString) :: PyStr.chars r.
Proof. intros H Hb. cbn [PyStr.chars]. rewrite H, Hb. reflexivity. Qed.

Lemma chars_3 a b c r :
  PyStr.width a = 3%nat → PyStr.continuation b = true → PyStr.continuation c = true →
  PyStr.chars (String a (String b (String c r)))
  = String a (String b (String c EmptyString)) :: PyStr.chars r.
Proof. intros H Hb Hc. cbn [PyStr.chars]. rewrite H, Hb, Hc. reflexivity. Qed.

Lemma chars_4 a b c d r :
  PyStr.width a = 4%nat → PyStr.continuation b = true → PyStr.continuation c = true →
  PyStr.continuation d = true →
  PyStr.chars (String a (String b (String c (String d r))))
  = String a (String b (String c (String d EmptyString))) :: PyStr.chars r.
Proof. intros H Hb Hc Hd. cbn [PyStr.chars]. rewrite H, Hb, Hc, Hd. reflexivity. Qed.

(** A character is read off a text whatever follows it. *)
Lemma chars_whole ch r : is_char ch → PyStr.chars (ch ++ r) = ch :: PyStr.chars r.
Proof.
  intros [n Hn]. revert Hn.
  destruct ch as [|a [|b [|c [|d [|e ch]]]]]; try done; unfold PyStr.code;
    rewrite ?append_cons, ?append_empty_l.
  - destruct (N.ltb_spec (PyStr.byte a) 128) as [Ha|]; [|done]. intros _.
    apply chars_1. unfold PyStr.width.
    destruct (N.ltb_spec (PyStr.byte a) 192); [done|lia].
  - destruct (Nat.eqb_spec (PyStr.width a) 2) as [Hw|]; [|done].
    destruct (PyStr.continuation b) eqn:Hb; [|done]. intros _. by apply chars_2.
  - destruct (Nat.eqb_spec (PyStr.width a) 3) as [Hw|]; [|done].
    destruct (PyStr.continuation b) eqn:Hb; [|done].
    destruct (PyStr.continuation c) eqn:Hc; [|done]. intros _. by apply chars_3.
  - destruct (Nat.eqb_spec (PyStr.width a) 4) as [Hw|]; [|done].
    destruct (PyStr.continuation b) eqn:Hb; [|done].
    destruct (PyStr.continuation c) eqn:Hc; [|done].
    destruct (PyStr.continuation d) eqn:Hd; [|done]. intros _. by apply chars_4.
Qed.

Lemma join_chars_bound n : ∀ s,
  (String.length s ≤ n)%nat → PyStr.join EmptyString (PyStr.chars s) = s.
Proof.
  induction n as [|n IH]; intros [|a r] Hl; simpl in Hl; try done; try lia.
  assert (H1 : PyStr.join EmptyString (String a EmptyString :: PyStr.chars r) = String a r).
  { rewrite join_cons, IH by lia. done. }
  cbn [PyStr.chars]. destruct (PyStr.width a) as [|[|[|[|[|w]]]]]; try exact H1.
  - destruct r as [|b r2]; [exact H1|]. destruct (PyStr.continuation b); [|exact H1].
    rewrite join_cons, IH by (simpl in Hl; lia). done.
  - destruct r as [|b [|c r3]]; try exact H1.
    destruct (PyStr.continuation b && PyStr.continuation c); [|exact H1].
    rewrite join_cons, IH by (simpl in Hl; lia). done.
  - destruct r as [|b [|c [|d r4]]]; try exact H1.
    destruct (PyStr.continuation b && PyStr.continuation c && PyStr.continuation d);
      [|exact H1].
    rewrite join_cons, IH by (simpl in Hl; lia). done.
Qed.

(** A text is the concatenation of its characters. *)
Lemma join_chars s : PyStr.join EmptyString (PyStr.chars s) = s.
Proof. by apply (join_chars_bound (String.length s)). Qed.

(** Characters put together are read back one by one. *)
Lemma chars_join l r :
  Forall is_char l → PyStr.chars (PyStr.join EmptyString l ++ r) = (l ++ PyStr.chars r)%list.
Proof.
  induction 1 as [|ch l Hch _ IH]; [done|].
  rewrite join_cons, append_assoc, (chars_whole ch _ Hch), IH. done.
Qed.

Lemma text_chars s : PyStr.text s = true ↔ Forall is_char (PyStr.chars s).
Proof.
  unfold PyStr.text. rewrite forallb_forall, Forall_forall. split; intros H ch Hin.
  - apply list_elem_of_In, H in Hin. unfold is_char. by destruct (PyStr.code ch).
  - apply list_elem_of_In, H in Hin as [n Hn]. by rewrite Hn.
Qed.

Lemma chars_app a b :
  PyStr.text a = true → PyStr.chars (a ++ b) = (PyStr.chars a ++ PyStr.chars b)%list.
Proof.
  intros H%text_chars. rewrite <- (join_chars a) at 1. by apply chars_join.
Qed.

Lemma digit_is_char ch : PyStr.is_digit ch = true → is_char ch.
Proof.
  unfold PyStr.is_digit, PyStr.decimal, is_char.
  destruct (PyStr.code ch) as [n|]; [eauto|done].
Qed.

Lemma space_is_char ch : PyStr.is_space ch = true → is_char ch.
Proof. unfold PyStr.is_space, is_char. destruct (PyStr.code ch) as [n|]; [eauto|done]. Qed.

Lemma startswith_length p s : PyStr.startswith p s = true → (String.length p ≤ String.length s)%nat.
Proof.
  revert s; induction p as [|a p IH]; intros [|b s]; simpl; try lia; try done.
  destruct (Ascii.eqb a b); [|done]. intros H%IH. lia.
Qed.

(** Two prefixes of one string: the shorter is a prefix of the longer. *)
Lemma startswith_comparable p q s :
  PyStr.startswith p s = true → PyStr.startswith q s = true →
  (String.length q ≤ String.length p)%nat → PyStr.startswith q p = true.
Proof.
  revert q s; induction p as [|a p IH]; intros [|b q] [|c s]; simpl; try done; try lia.
  destruct (Ascii.eqb_spec a c) as [->|]; [|done].
  destruct (Ascii.eqb_spec b c) as [->|]; [|done].
  intros ???. apply (IH q s); auto with lia.
Qed.

(** ** Category classifier *)

(** No configured prefix is a prefix of another one: at most one of them
    matches any code. *)
Lemma prefixes_antichain :
  Forall (fun x => Forall (fun y => PyStr.startswith y.1 x.1 = true → x = y)
                     CATEGORY_PREFIXES) CATEGORY_PREFIXES.
Proof. repeat constructor; vm_compute; congruence. Qed.

Lemma prefixes_upper :
  Forall (fun x => PyStr.upper x.1 = x.1) CATEGORY_PREFIXES.
Proof. repeat constructor. Qed.

Lemma prefixes_plain :
  Forall (fun x => plain x.1 = true ∧ PyStr.upper (PyStr.lower x.1) = x.1) CATEGORY_PREFIXES.
Proof. repeat constructor. Qed.

(** The loop only asks which entries start the code. *)
Lemma category_loop_ext u u' items :
  (∀ p n, In (p, n) items → PyStr.startswith p u = PyStr.startswith p u') →
  category_loop u items = category_loop u' items.
Proof.
  induction items as [|[p n] items IH]; intros H; simpl; [done|].
  rewrite (H p n) by (by left). rewrite IH; [done|]. intros q m Hq. apply (H q m). by right.
Qed.

Lemma ci_prefix_configured p n code :
  In (p, n) CATEGORY_PREFIXES → ci_prefix p code = PyStr.startswith p (PyStr.upper code).
Proof.
  intros Hin. unfold ci_prefix.
  pose proof prefixes_upper as Hu. rewrite Forall_forall in Hu.
  apply list_elem_of_In, Hu in Hin. simpl in Hin. by rewrite Hin.
Qed.

Lemma matching_unique p n q m u :
  In (p, n) CATEGORY_PREFIXES → In (q, m) CATEGORY_PREFIXES →
  PyStr.startswith p u = true → PyStr.startswith q u = true →
  (p, n) = (q, m).
Proof.
  intros Hp Hq Mp Mq.
  pose proof prefixes_antichain as Ha. rewrite Forall_forall in Ha.
  destruct (Nat.le_gt_cases (String.length q) (String.length p)) as [Hl|Hl].
  - pose proof (Ha _ (proj2 (list_elem_of_In _ _) Hp)) as Hx. rewrite Forall_forall in Hx.
    apply (Hx _ (proj2 (list_elem_of_In _ _) Hq)). simpl.
    by apply (startswith_comparable p q u).
  - pose proof (Ha _ (proj2 (list_elem_of_In _ _) Hq)) as Hx. rewrite Forall_forall in Hx.
    symmetry. apply (Hx _ (proj2 (list_elem_of_In _ _) Hp)). simpl.
    apply (startswith_comparable q p u); auto with lia.
Qed.

(** The loop returns the label of the first entry that matches, and the
    generic label when it runs to the end. *)
Lemma category_loop_first u items :
  (∃ p n, In (p, n) items ∧ PyStr.startswith p u = true ∧ category_loop u items = n)
  ∨ ((∀ p n, In (p, n) items → PyStr.startswith p u = false)
     ∧ category_loop u items = "HYROX").
Proof.
  induction items as [|[p n] items IH]; simpl.
  - right. split; [intros ?? []|done].
  - destruct (PyStr.startswith p u) eqn:E.
    + left. exists p, n. auto.
    + destruct IH as [(q & m & Hin & Hm & Hr)|[Hno Hr]].
      * left. exists q, m. auto.
      * right. split; [|done]. intros q m [[= <- <-]|Hin]; eauto.
Qed.

Lemma longest_match_entry code items best :
  match longest_match code items best with
  | Some e => best = Some e ∨ (In e items ∧ ci_prefix e.1 code = true)
  | None => best = None ∧ ∀ e, In e items → ci_prefix e.1 code = false
  end.
Proof.
  revert best; induction items as [|[p n] items IH]; intros best; simpl.
  - destruct best; auto. split; [done|intros ? []].
  - destruct (ci_prefix p code) eqn:E.
    + destruct best as [[bp bn]|].
      * destruct (String.length bp <? String.length p)%nat.
        -- specialize (IH (Some (p, n))).
           destruct (longest_match code items (Some (p, n))) as [e|].
           ++ destruct IH as [[= <-]|[Hin Hm]]; auto.
           ++ by destruct IH.
        -- specialize (IH (Some (bp, bn))).
           destruct (longest_match code items (Some (bp, bn))) as [e|].
           ++ destruct IH as [?|[Hin Hm]]; auto.
           ++ by destruct IH.
      * specialize (IH (Some (p, n))).
        destruct (longest_match code items (Some (p, n))) as [e|].
        -- destruct IH as [[= <-]|[Hin Hm]]; auto.
        -- by destruct IH.
    + specialize (IH best).
      destruct (longest_match code items best) as [e|].
      * destruct IH as [?|[Hin Hm]]; auto.
      * destruct IH as [-> Hno]. split; [done|]. intros e [<-|Hin]; auto.
Qed.

Lemma category_from_code_refines code : category_from_code code = spec_category code.
Proof.
  unfold category_from_code, spec_category.
  pose proof (longest_match_entry code CATEGORY_PREFIXES None) as Hs.
  destruct (category_loop_first (PyStr.upper code) CATEGORY_PREFIXES)
    as [(p & n & Hin & Hm & ->)|[Hno ->]].
  - destruct (longest_match code CATEGORY_PREFIXES None) as [[q m]|].
    + destruct Hs as [?|[Hq Hqm]]; [done|]. simpl in Hqm.
      rewrite (ci_prefix_configured q m) in Hqm by done.
      by pose proof (matching_unique p n q m _ Hin Hq Hm Hqm) as [= -> ->].
    + destruct Hs as [_ Hs]. specialize (Hs _ Hin). simpl in Hs.
      rewrite (ci_prefix_configured p n) in Hs by done. congruence.
  - destruct (longest_match code CATEGORY_PREFIXES None) as [[q m]|]; [|done].
    destruct Hs as [?|[Hq Hqm]]; [done|]. simpl in Hqm.
    rewrite (ci_prefix_configured q m) in Hqm by done.
    rewrite (Hno _ _ Hq) in Hqm. done.
Qed.

Lemma category_from_code_cases (code : string) :
  (∃ prefix name,
      In (prefix, name) CATEGORY_PREFIXES
      ∧ ci_prefix prefix code = true
      ∧ category_from_code code = name
      ∧ ∀ prefix' name', In (prefix', name') CATEGORY_PREFIXES →
          ci_prefix prefix' code = true →
          (String.length prefix' ≤ String.length prefix)%nat)
  ∨ ((∀ prefix name, In (prefix, name) CATEGORY_PREFIXES → ci_prefix prefix code = false)
     ∧ category_from_code code = "HYROX").
Proof.
  unfold category_from_code.
  destruct (category_loop_first (PyStr.upper code) CATEGORY_PREFIXES)
    as [(p & n & Hin & Hm & Hr)|[Hno Hr]].
  - left. exists p, n. repeat split; auto.
    + by rewrite (ci_prefix_configured p n).
    + intros q m Hq Hqm. rewrite (ci_prefix_configured q m) in Hqm by done.
      by pose proof (matching_unique p n q m _ Hin Hq Hm Hqm) as [= -> ->].
  - right. split; [|done]. intros p n Hin.
    rewrite (ci_prefix_configured p n) by done. eauto.
Qed.

(** C3. For every event code, [category_from_code] agrees with the
    classifier of the specification; its answer is the label of a configured
    prefix that matches the code up to case and that no other matching
    configured prefix exceeds in length, or the generic label [HYROX] when no
    configured prefix matches; and the answer does not depend on the case of
    the code. *)
Theorem category_from_code_longest_prefix (code : string) :
  category_from_code code = spec_category code
  ∧ ((∃ prefix name,
        In (prefix, name) CATEGORY_PREFIXES
        ∧ ci_prefix prefix code = true
        ∧ category_from_code code = name
        ∧ ∀ prefix' name', In (prefix', name') CATEGORY_PREFIXES →
            ci_prefix prefix' code = true →
            (String.length prefix' ≤ String.length prefix)%nat)
     ∨ ((∀ prefix name, In (prefix, name) CATEGORY_PREFIXES → ci_prefix prefix code = false)
        ∧ category_from_code code = "HYROX"))
  ∧ category_from_code (PyStr.upper code) = category_from_code code
  ∧ category_from_code (PyStr.lower code) = category_from_code code.
Proof.
  split; [apply category_from_code_refines|]. split; [apply category_from_code_cases|].
  unfold category_from_code. rewrite upper_idem. split; [done|].
  apply category_loop_ext. intros p n Hin. apply startswith_upper_lower.
  pose proof prefixes_plain as Hp. rewrite Forall_forall in Hp.
  by destruct (Hp _ (proj2 (list_elem_of_In _ _) Hin)).
Qed.

(** ** Caller-side filters *)

Lemma comprehension_filter {A} (P : A → result bool) (f : A → bool) l :
  (∀ o, In o l → P o = Ok (f o)) → comprehension P l = Ok (List.filter f l).
Proof.
  induction l as [|o l IH]; intros H; simpl; [done|].
  rewrite (H o) by (by left). simpl.
  rewrite IH by (intros; apply H; by right). simpl. by destruct (f o).
Qed.

Lemma filter_none {A} (f : A → bool) l :
  (∀ o, In o l → f o = false) → List.filter f l = [].
Proof.
  induction l as [|o l IH]; intros H; simpl; [done|].
  rewrite (H o) by (by left). apply IH. intros; apply H; by right.
Qed.

Lemma filter_all {A} (f : A → bool) l :
  (∀ o, In o l → f o = true) → List.filter f l = l.
Proof.
  induction l as [|o l IH]; intros H; simpl; [done|].
  rewrite (H o) by (by left). f_equal. apply IH. intros; apply H; by right.
Qed.

Lemma is_overall_str o : str_coded o → is_overall o = Ok (has_overall o).
Proof. intros [c Hc]. unfold is_overall, code_upper, has_overall. by rewrite Hc. Qed.

Lemma is_not_overall_str o : str_coded o → is_not_overall o = Ok (negb (has_overall o)).
Proof. intros [c Hc]. unfold is_not_overall, code_upper, has_overall. by rewrite Hc. Qed.

Lemma use_opts_cases (event_opts : list Item) :
  Forall str_coded event_opts →
  ((∃ o, In o event_opts ∧ has_overall o = true) →
     use_opts event_opts = Ok (List.filter has_overall event_opts))
  ∧ ((∀ o, In o event_opts → has_overall o = false) →
     use_opts event_opts = Ok (List.filter (fun o => negb (has_overall o)) event_opts)
     ∧ use_opts event_opts = Ok event_opts).
Proof.
  intros Hstr. rewrite Forall_forall in Hstr.
  assert (Ho : comprehension is_overall event_opts
               = Ok (List.filter has_overall event_opts)).
  { apply comprehension_filter. intros o Hin.
    apply is_overall_str, Hstr, list_elem_of_In, Hin. }
  assert (Hn : comprehension is_not_overall event_opts
               = Ok (List.filter (fun o => negb (has_overall o)) event_opts)).
  { apply comprehension_filter. intros o Hin.
    apply is_not_overall_str, Hstr, list_elem_of_In, Hin. }
  unfold use_opts. rewrite Ho, Hn. simpl. split.
  - intros (o & Hin & Hov).
    assert (Hf : In o (List.filter has_overall event_opts)) by (apply filter_In; auto).
    by destruct (List.filter has_overall event_opts).
  - intros Hnone. rewrite (filter_none has_overall) by done.
    split; [done|]. f_equal. apply filter_all. intros o Hin. by rewrite Hnone.
Qed.

(** A comprehension that does not raise has evaluated its test on every
    element, and keeps a part of the list. *)
Lemma comprehension_ok {A} (P : A → result bool) l kept :
  comprehension P l = Ok kept →
  Forall (fun o => ∃ b, P o = Ok b) l ∧ ∀ o, In o kept → In o l.
Proof.
  revert kept; induction l as [|o l IH]; intros kept; simpl.
  - intros [= <-]. split; [constructor|done].
  - destruct (P o) as [b|e] eqn:E; simpl; [|done].
    destruct (comprehension P l) as [r|e] eqn:El; simpl; [|done].
    intros [= <-]. destruct (IH r eq_refl) as [Hall Hsub]. split.
    + constructor; eauto.
    + destruct b; simpl; [intros o' [?|?]|intros o' ?]; auto.
Qed.

(** What the Open filter lets through has string codes. *)
Lemma open_filter_str_coded event_opts kept :
  open_filter event_opts = Ok kept → Forall str_coded kept.
Proof.
  unfold open_filter. simpl. intros H.
  destruct (comprehension_ok _ _ _ H) as [Hall Hsub].
  rewrite Forall_forall in Hall. apply Forall_forall. intros o Hin.
  apply list_elem_of_In, Hsub, list_elem_of_In, Hall in Hin as [b Hb].
  unfold is_open, item_category, str_coded in *.
  destruct (value o); simpl in Hb; try done. eauto.
Qed.



(** ** Event discovery *)

(** Case analysis along a chain of subscripts. *)
Ltac walk_path :=
  simpl; try done; auto;
  match goal with
  | |- context [Py.getitem ?v _] => is_var v; destruct v; walk_path
  | |- context [@lookup _ _ _ _ ?k ?d] => destruct (d !! k); walk_path
  | _ => idtac
  end.

(** Navigation by subscripts finds what the data path holds and raises only
    what the handler catches. *)
Lemma nested_path_lookup data :
  match nested_path data with
  | Ok x => lookup_path NESTED data = Some x
  | Raise e => lookup_path NESTED data = None ∧ Py.key_or_type_error e = true
  end.
Proof.
  unfold nested_path, NESTED.
  walk_path.
Qed.

Lemma top_path_lookup data :
  match top_path data with
  | Ok x => lookup_path TOP data = Some x
  | Raise e => lookup_path TOP data = None ∧ Py.key_or_type_error e = true
  end.
Proof.
  unfold top_path, TOP.
  walk_path.
Qed.

Lemma event_codes_of_shapes decoded :
  event_codes_of decoded =
    match decoded with
    | None => Ok []
    | Some data =>
        match lookup_path NESTED data with
        | Some ev_data => event_codes_from ev_data
        | None =>
            match lookup_path TOP data with
            | Some ev_data => event_codes_from ev_data
            | None => Ok []
            end
        end
    end.
Proof.
  destruct decoded as [data|]; [|done]. unfold event_codes_of.
  pose proof (nested_path_lookup data) as Hn. pose proof (top_path_lookup data) as Ht.
  destruct (nested_path data) as [x|e].
  - by rewrite Hn.
  - destruct Hn as [-> ->]. destruct (top_path data) as [y|e'].
    + by rewrite Ht.
    + by destruct Ht as [-> ->].
Qed.

(** C7. When the request goes through, [get_event_codes] reads the event
    list at the nested path [branches.lists.fields.event.data]; when that
    path is absent it reads the top-level path [event.data]; when both are
    absent, or the body does not decode as JSON, it returns the empty list
    and raises nothing.  The request is logged and nothing else changes. *)
Theorem get_event_codes_shapes
    (net : list Request → Request → option Response)
    (base_url : string) (event_main_group : json) (w : World) (r : Response) :
  net (requests w) (SearchCodes base_url event_main_group) = Some r →
  (get_event_codes net base_url event_main_group w).1 =
    match resp_json r with
    | None => Ok []
    | Some data =>
        match lookup_path NESTED data with
        | Some ev_data => event_codes_from ev_data
        | None =>
            match lookup_path TOP data with
            | Some ev_data => event_codes_from ev_data
            | None => Ok []
            end
        end
    end
  ∧ requests (get_event_codes net base_url event_main_group w).2
    = (requests w ++ [SearchCodes base_url event_main_group])%list
  ∧ written (get_event_codes net base_url event_main_group w).2 = written w
  ∧ done_keys (get_event_codes net base_url event_main_group w).2 = done_keys w.
Proof.
  intros Hnet. unfold get_event_codes, polite_get. rewrite Hnet. simpl.
  by rewrite event_codes_of_shapes.
Qed.

(** ** Result row parser *)

Lemma node_nested_ind (P : node → Prop) :
  (∀ s, P (NavigableString s)) →
  (∀ s, P (CData s)) →
  (∀ k s, P (Contained k s)) →
  (∀ s, P (Comment s)) →
  (∀ nm cls cs, Forall P cs → P (Tag nm cls cs)) →
  ∀ n, P n.
Proof.
  intros Hs Hd Hk Hc Ht. fix IH 1.
  intros [s|s|k s|s|nm cls cs]; [apply Hs|apply Hd|apply Hk|apply Hc|].
  apply Ht. induction cs as [|c cs IHcs]; constructor; [apply IH|apply IHcs].
Qed.

(** The rows the loop works on are those [find_all] lists, the tags [li]
    below the document that pass the class filter, one for one and in
    document order; each is seen with its labels removed, or emptied. *)
Lemma rows_in_find_all n : ∀ in_row gone,
  Forall2 (fun row seen => seen = decompose_labels row ∨ seen = emptied row)
    (List.filter is_row (Bs4.descendants_of n)) (rows_in in_row gone n).
Proof.
  induction n as [s|s|k s|s|nm cls cs IH] using node_nested_ind; intros in_row gone;
    [constructor..|].
  change (Bs4.descendants_of (Tag nm cls cs))
    with (Tag nm cls cs :: flat_map Bs4.descendants_of cs).
  change (rows_in in_row gone (Tag nm cls cs))
    with ((if is_row (Tag nm cls cs)
           then [if gone || (in_row && is_label (Tag nm cls cs))
                 then emptied (Tag nm cls cs) else decompose_labels (Tag nm cls cs)]
           else [])
          ++ flat_map (rows_in (in_row || is_row (Tag nm cls cs))
                         (gone || (in_row && is_label (Tag nm cls cs)))) cs)%list.
  assert (Hcs : ∀ a b, Forall2 (fun row seen => seen = decompose_labels row ∨ seen = emptied row)
                         (List.filter is_row (flat_map Bs4.descendants_of cs))
                         (flat_map (rows_in a b) cs)).
  { intros a b. induction IH as [|c cs Hc _ IHcs]; [constructor|].
    simpl. rewrite List.filter_app. apply Forall2_app; [apply Hc|apply IHcs]. }
  cbn [List.filter]. destruct (is_row (Tag nm cls cs)).
  - apply Forall2_cons. split; [|apply Hcs].
    destruct (gone || (in_row && is_label (Tag nm cls cs))); auto.
  - apply Hcs.
Qed.

Lemma result_rows_find_all (sp : soup) :
  Forall2 (fun row seen => seen = decompose_labels row ∨ seen = emptied row)
    (List.filter is_row (Bs4.descendants sp)) (result_rows sp).
Proof.
  unfold result_rows, Bs4.descendants. induction sp as [|c sp IH]; [constructor|].
  simpl. rewrite List.filter_app. apply Forall2_app; [apply rows_in_find_all|apply IH].
Qed.

Lemma parse_row_skipped row : skipped row → parse_row row = None.
Proof.
  unfold skipped, rank_text, name_text, parse_row. intros [H|[H|H]].
  - rewrite H. reflexivity.
  - rewrite H. reflexivity.
  - rewrite H. simpl. by destruct (_ || _).
Qed.

Lemma parse_row_kept row : ¬ skipped row → parse_row row = Some (record_of row).
Proof.
  unfold skipped, rank_text, name_text, parse_row, record_of. intros H.
  destruct (String.eqb_spec (PyStr.lower (field_text rank_filter row)) "rank") as [E|_].
  { destruct H. auto. }
  destruct (String.eqb_spec (PyStr.lower (field_text rank_filter row)) EmptyString) as [E|_].
  { destruct H. left. by apply lower_empty. }
  destruct (String.eqb_spec (field_text name_filter row) EmptyString) as [E|_].
  { destruct H. auto. }
  reflexivity.
Qed.

Lemma omap_parse_row (rows : list node) :
  omap parse_row rows = record_of <$> filter (fun row => ¬ skipped row) rows.
Proof.
  induction rows as [|row rows IH]; [done|].
  change (omap parse_row (row :: rows))
    with (match parse_row row with
          | Some y => y :: omap parse_row rows
          | None => omap parse_row rows
          end).
  destruct (decide (skipped row)) as [Hs|Hs].
  - rewrite (parse_row_skipped row Hs).
    rewrite filter_cons_False by (intros Hn; by apply Hn). done.
  - rewrite (parse_row_kept row Hs).
    rewrite filter_cons_True by done. rewrite fmap_cons. by rewrite IH.
Qed.


(** Rows outside ASCII: a rank cell that holds a no-break space only is
    empty once stripped, and the row is skipped; so is a header whose word
    is spelled with the Kelvin sign, which [lower] turns into k; a rank that
    is the body of a [script] tag is read, since [get_text] is called on that
    very tag, while the same string below a [div] is not. *)
Example parse_row_beyond_ascii :
  parse_row (row_with (div ["place-primary"] [NavigableString (of_bytes [194; 160]%N)])) = None
  ∧ parse_row (row_with (div ["place-primary"] [NavigableString kelvin_rank])) = None
  ∧ parse_row (row_with (Tag "script" (Some ["place-primary"]) [Contained Script "1"]))
    = Some {| rank := "1"; athlete := "Doe, John"; nationality := EmptyString;
              age_group := EmptyString; total_time := EmptyString |}
  ∧ parse_row (row_with (div ["place-primary"] [Tag "script" None [Contained Script "1"]]))
    = None.
Proof. repeat split. Qed.

(** A page with a header row, an athlete without nationality and an athlete
    with one. *)
Example parse_result_rows_sample :
  parse_result_rows sample_page_1 =
    [ {| rank := "1"; athlete := "Doe, John"; nationality := EmptyString;
         age_group := "30-34"; total_time := "0:52:13" |};
      {| rank := "2"; athlete := "Silva, Rui"; nationality := "POR";
         age_group := "25-29"; total_time := "0:53:40" |} ]
  ∧ parse_total_count sample_page_1 = 30.
Proof. split; reflexivity. Qed.

(** ** Total count *)

Lemma digit_val_range c : 0 ≤ PyStr.digit_val c ≤ 9.
Proof.
  unfold PyStr.digit_val, PyStr.decimal. generalize PyStr.DECIMAL_ZEROS as zs. intros zs.
  destruct (PyStr.code c) as [n|]; simpl; [|lia].
  destruct (List.find _ zs) as [z|] eqn:E; simpl; [|lia].
  apply find_some in E as [_ E]. apply andb_prop in E as [E1 E2].
  apply N.leb_le in E1. apply N.ltb_lt in E2. lia.
Qed.

Lemma fold_digits_nonneg l : ∀ acc,
  0 ≤ acc → 0 ≤ fold_left (fun acc c => 10 * acc + PyStr.digit_val c) l acc.
Proof.
  induction l as [|c l IH]; intros acc Hacc; simpl; [done|].
  apply IH. pose proof (digit_val_range c). lia.
Qed.

Lemma int_of_chars_nonneg l : 0 ≤ PyStr.int_of_chars l.
Proof. by apply fold_digits_nonneg. Qed.

Lemma int_of_digits_nonneg s : 0 ≤ PyStr.int_of_digits s.
Proof. apply int_of_chars_nonneg. Qed.

Lemma parse_total_count_nonneg sp : 0 ≤ parse_total_count sp.
Proof.
  unfold parse_total_count. destruct (Bs4.find _ sp) as [el|]; [|done].
  destruct (search_count _) as [g|]; [|done]. apply int_of_chars_nonneg.
Qed.

Lemma total_pages_ceil T :
  PER_PAGE * (total_pages T - 1) < T ≤ PER_PAGE * total_pages T.
Proof.
  unfold total_pages, PER_PAGE.
  pose proof (Z.div_mod (T + 25 - 1) 25 ltac:(lia)).
  pose proof (Z.mod_pos_bound (T + 25 - 1) 25 ltac:(lia)). lia.
Qed.

Lemma fetch_pages_bounds T : 0 < T → 1 ≤ fetch_pages T ≤ MAX_PAGES.
Proof.
  intros HT. pose proof (total_pages_ceil T) as HC.
  unfold fetch_pages, MAX_PAGES, PER_PAGE in *. lia.
Qed.

(** ** Collection driver: one key *)

Section ComboFacts.

Variable net : list Request → Request → option Response.
Variables (base_url season : string) (emg : json) (code : string)
          (label : json) (cat sex : string).

Local Abbreviation req := (ResultsPage base_url emg code sex).
Local Abbreviation key := (Some code, Some sex).
Local Abbreviation annot := (annotate season emg code label cat sex).
Local Abbreviation loop := (pages_loop net base_url season emg code label cat sex).
Local Abbreviation combo := (scrape_combo net base_url season emg code label cat sex).
Local Abbreviation page_rows := (fun r : Response => parse_result_rows (resp_soup r)).

Lemma loop_first rest sp w :
  loop (1 :: rest) sp w = loop rest sp (write_page season emg code label cat sex sp w).
Proof. reflexivity. Qed.

Lemma loop_later p rest sp w :
  1 < p →
  loop (p :: rest) sp w =
    match net (requests w) (req p) with
    | Some r => loop rest (resp_soup r)
                  (write_page season emg code label cat sex (resp_soup r) (sent (req p) w))
    | None => sent (req p) w
    end.
Proof.
  intros Hp. simpl. replace (1 <? p) with true by (symmetry; apply Z.ltb_lt; lia).
  unfold get_results_page, polite_get. by destruct (net (requests w) (req p)).
Qed.

(** The later pages: the loop asks for them in turn and stops at the first
    that fails. *)
Lemma loop_seq (len : nat) : ∀ a sp w,
  1 < a →
  ∃ n rows,
    0 ≤ n ≤ Z.of_nat len
    ∧ requests (loop (seqZ a (Z.of_nat len)) sp w) = (requests w ++ (req <$> seqZ a n))%list
    ∧ written (loop (seqZ a (Z.of_nat len)) sp w) = (written w ++ (annot <$> rows))%list
    ∧ done_keys (loop (seqZ a (Z.of_nat len)) sp w) = done_keys w
    ∧ (flushed w = length (written w) →
       flushed (loop (seqZ a (Z.of_nat len)) sp w)
       = length (written (loop (seqZ a (Z.of_nat len)) sp w))).
Proof.
  induction len as [|len IH]; intros a sp w Ha.
  - exists 0, []. simpl. rewrite !app_nil_r. repeat split; auto; lia.
  - rewrite seqZ_cons by lia.
    replace (Z.pred (Z.of_nat (S len))) with (Z.of_nat len) by lia.
    rewrite loop_later by done.
    destruct (net (requests w) (req a)) as [r|].
    + destruct (IH (Z.succ a) (resp_soup r)
                  (write_page season emg code label cat sex (resp_soup r) (sent (req a) w)))
        as (n & rows & Hn & Hr & Hw & Hd & Hf); [lia|].
      exists (Z.succ n), (page_rows r ++ rows)%list.
      split; [lia|]. split; [|split; [|split]].
      * rewrite Hr. simpl. rewrite (seqZ_cons a (Z.succ n)) by lia.
        replace (Z.pred (Z.succ n)) with n by lia.
        rewrite fmap_cons, <- app_assoc. done.
      * rewrite Hw. simpl. by rewrite fmap_app, <- app_assoc.
      * by rewrite Hd.
      * intros _. by apply Hf.
    + exists 1, []. simpl. rewrite app_nil_r. repeat split; auto; lia.
Qed.

(** The later pages when every fetch succeeds. *)
Lemma loop_seq_all (len : nat) : ∀ a sp w,
  1 < a →
  (∀ h p, is_Some (net h (req p))) →
  requests (loop (seqZ a (Z.of_nat len)) sp w)
  = (requests w ++ (req <$> seqZ a (Z.of_nat len)))%list.
Proof.
  induction len as [|len IH]; intros a sp w Ha Hnet.
  - simpl. by rewrite app_nil_r.
  - rewrite seqZ_cons by lia.
    replace (Z.pred (Z.of_nat (S len))) with (Z.of_nat len) by lia.
    rewrite loop_later by done.
    destruct (Hnet (requests w) a) as [r ->].
    rewrite IH by (done || lia). simpl. by rewrite <- app_assoc.
Qed.

(** The later pages when the replies are [resps] and then a failure. *)
Lemma loop_break (resps : list Response) : ∀ a rest sp w,
  1 < a →
  answers net (requests w) (req <$> seqZ a (Z.of_nat (length resps) + 1))
    ((Some <$> resps) ++ [None]) →
  let w' := loop (seqZ a (Z.of_nat (length resps) + 1) ++ rest) sp w in
  requests w' = (requests w ++ (req <$> seqZ a (Z.of_nat (length resps) + 1)))%list
  ∧ written w' = (written w ++ (annot <$> flat_map page_rows resps))%list
  ∧ done_keys w' = done_keys w
  ∧ (flushed w = length (written w) → flushed w' = length (written w')).
Proof.
  induction resps as [|r resps IH]; intros a rest sp w Ha Hans; simpl length in *.
  - change (Z.of_nat 0 + 1) with 1 in *. change (seqZ a 1) with [a] in *.
    simpl in Hans. destruct Hans as [Hnone _].
    simpl app. rewrite loop_later by done. rewrite Hnone. simpl.
    rewrite app_nil_r. auto.
  - replace (Z.of_nat (S (length resps)) + 1)
      with (Z.succ (Z.of_nat (length resps) + 1)) in * by lia.
    rewrite seqZ_cons in * by lia.
    replace (Z.pred (Z.succ (Z.of_nat (length resps) + 1)))
      with (Z.of_nat (length resps) + 1) in * by lia.
    rewrite fmap_cons in Hans. simpl in Hans. destruct Hans as [Hr Hans].
    rewrite <- app_comm_cons, loop_later by done. rewrite Hr.
    destruct (IH (Z.succ a) rest (resp_soup r)
                (write_page season emg code label cat sex (resp_soup r) (sent (req a) w)))
      as (Hq & Hw & Hd & Hf); [lia|exact Hans|].
    split; [|split; [|split]].
    + rewrite Hq. simpl. by rewrite <- app_assoc.
    + rewrite Hw. simpl. by rewrite fmap_app, <- app_assoc.
    + by rewrite Hd.
    + intros _. by apply Hf.
Qed.

Lemma combo_done w : key ∈ done_keys w → combo w = w.
Proof. intros H. unfold scrape_combo. by rewrite decide_True. Qed.

Lemma combo_no_page w :
  key ∉ done_keys w → net (requests w) (req 1) = None → combo w = sent (req 1) w.
Proof.
  intros Hk Hnet. unfold scrape_combo, get_results_page, polite_get.
  rewrite decide_False by done. by rewrite Hnet.
Qed.

Lemma combo_empty w r :
  key ∉ done_keys w → net (requests w) (req 1) = Some r →
  parse_total_count (resp_soup r) = 0 → combo w = sent (req 1) w.
Proof.
  intros Hk Hnet HT. unfold scrape_combo, get_results_page, polite_get.
  rewrite decide_False by done. by rewrite Hnet, HT.
Qed.

(** A key that reaches the pagination phase: the first page is written,
    the later pages are visited, the key is marked. *)
Lemma combo_paginates w r :
  key ∉ done_keys w → net (requests w) (req 1) = Some r →
  parse_total_count (resp_soup r) ≠ 0 →
  combo w =
    mark_done key
      (loop (seqZ 2 (fetch_pages (parse_total_count (resp_soup r)) - 1)) (resp_soup r)
         (write_page season emg code label cat sex (resp_soup r) (sent (req 1) w))).
Proof.
  intros Hk Hnet HT. unfold scrape_combo, get_results_page, polite_get.
  rewrite decide_False by done. rewrite Hnet.
  destruct (Z.eqb_spec (parse_total_count (resp_soup r)) 0) as [|_]; [done|].
  pose proof (parse_total_count_nonneg (resp_soup r)).
  pose proof (fetch_pages_bounds (parse_total_count (resp_soup r)) ltac:(lia)).
  rewrite seqZ_cons by lia. rewrite loop_first. done.
Qed.

Lemma combo_effect w r :
  key ∉ done_keys w → net (requests w) (req 1) = Some r →
  parse_total_count (resp_soup r) ≠ 0 →
  ∃ n rows,
    1 ≤ n ≤ fetch_pages (parse_total_count (resp_soup r))
    ∧ requests (combo w) = (requests w ++ (req <$> seqZ 1 n))%list
    ∧ written (combo w) = (written w ++ (annot <$> (page_rows r ++ rows)))%list
    ∧ done_keys (combo w) = done_keys w ∪ {[ key ]}
    ∧ flushed (combo w) = length (written (combo w)).
Proof.
  intros Hk Hnet HT. rewrite (combo_paginates w r) by done.
  pose proof (parse_total_count_nonneg (resp_soup r)).
  pose proof (fetch_pages_bounds (parse_total_count (resp_soup r)) ltac:(lia)) as Hb.
  set (fp := fetch_pages (parse_total_count (resp_soup r))) in *.
  replace (fp - 1) with (Z.of_nat (Z.to_nat (fp - 1))) by lia.
  destruct (loop_seq (Z.to_nat (fp - 1)) 2 (resp_soup r)
              (write_page season emg code label cat sex (resp_soup r) (sent (req 1) w)))
    as (n & rows & Hn & Hr & Hw & Hd & Hf); [lia|].
  exists (Z.succ n), rows. simpl. split; [lia|]. split; [|split; [|split]].
  - rewrite Hr. simpl. rewrite (seqZ_cons 1) by lia.
    replace (Z.pred (Z.succ n)) with n by lia. by rewrite fmap_cons, <- app_assoc.
  - rewrite Hw. simpl. by rewrite fmap_app, <- app_assoc.
  - by rewrite Hd.
  - by apply Hf.
Qed.

(** What one call may do, whatever the network does. *)
Lemma combo_any w :
  ∃ n rows,
    0 ≤ n ≤ MAX_PAGES
    ∧ requests (combo w) = (requests w ++ (req <$> seqZ 1 n))%list
    ∧ written (combo w) = (written w ++ (annot <$> rows))%list
    ∧ done_keys w ⊆ done_keys (combo w)
    ∧ (key ∈ done_keys (combo w) → key ∈ done_keys w ∨
         ∃ r, net (requests w) (req 1) = Some r ∧ parse_total_count (resp_soup r) ≠ 0).
Proof.
  destruct (decide (key ∈ done_keys w)) as [Hk|Hk].
  { rewrite combo_done by done. exists 0, []. simpl.
    split_and!; rewrite ?app_nil_r; try done; try (unfold MAX_PAGES; lia); auto. }
  destruct (net (requests w) (req 1)) as [r|] eqn:Hnet.
  - destruct (decide (parse_total_count (resp_soup r) = 0)) as [HT|HT].
    + rewrite (combo_empty w r) by done. exists 1, []. simpl.
      split_and!; rewrite ?app_nil_r; try done; try (unfold MAX_PAGES; lia); auto.
    + destruct (combo_effect w r) as (n & rows & Hn & Hr & Hw & Hd & _); [done..|].
      pose proof (parse_total_count_nonneg (resp_soup r)).
      pose proof (fetch_pages_bounds (parse_total_count (resp_soup r)) ltac:(lia)).
      exists n, (page_rows r ++ rows)%list. rewrite Hr, Hw, Hd.
      split; [lia|]. split; [done|]. split; [done|]. split; [apply union_subseteq_l|].
      intros _. right. eauto.
  - rewrite combo_no_page by done. exists 1, []. simpl.
    split_and!; rewrite ?app_nil_r; try done; try (unfold MAX_PAGES; lia); auto.
Qed.

(** A key that is not marked is asked for. *)
Lemma combo_fetches w :
  key ∉ done_keys w → ∃ rest, requests (combo w) = (requests w ++ req 1 :: rest)%list.
Proof.
  intros Hk. destruct (net (requests w) (req 1)) as [r|] eqn:Hnet.
  - destruct (decide (parse_total_count (resp_soup r) = 0)) as [HT|HT].
    + rewrite (combo_empty w r) by done. by exists [].
    + destruct (combo_effect w r) as (n & rows & Hn & Hr & _); [done..|].
      exists (req <$> seqZ 2 (n - 1)). rewrite Hr, (seqZ_cons 1) by lia.
      by replace (Z.pred n) with (n - 1) by lia.
  - rewrite combo_no_page by done. by exists [].
Qed.

(** A call marks no other key than its own. *)
Lemma combo_marks w : done_keys (combo w) ⊆ done_keys w ∪ {[ key ]}.
Proof.
  destruct (decide (key ∈ done_keys w)) as [Hk|Hk].
  { rewrite combo_done by done. apply union_subseteq_l. }
  destruct (net (requests w) (req 1)) as [r|] eqn:Hnet.
  - destruct (decide (parse_total_count (resp_soup r) = 0)) as [HT|HT].
    + rewrite (combo_empty w r) by done. apply union_subseteq_l.
    + destruct (combo_effect w r) as (n & rows & _ & _ & _ & Hd & _); [done..|].
      by rewrite Hd.
  - rewrite combo_no_page by done. apply union_subseteq_l.
Qed.

(** The done-set covers the keys of the store at startup, and every call
    keeps it so. *)
Lemma startup_store_covered file :
  stored_keys file (written (startup file)) ⊆ done_keys (startup file).
Proof.
  unfold stored_keys. simpl. intros k [Hk|Hk]%elem_of_union; [done|].
  by apply not_elem_of_empty in Hk.
Qed.


End ComboFacts.

Section ComboClaims.

Variable net : list Request → Request → option Response.
Variables (base_url season : string) (emg : json) (code : string)
          (label : json) (cat sex : string).

Local Abbreviation req := (ResultsPage base_url emg code sex).
Local Abbreviation key := (Some code, Some sex).
Local Abbreviation annot := (annotate season emg code label cat sex).
Local Abbreviation combo := (scrape_combo net base_url season emg code label cat sex).
Local Abbreviation page_rows := (fun r : Response => parse_result_rows (resp_soup r)).

(** C2. With 25 results per page and a cap of 4 pages, a total count
    [T > 0] gives [total_pages T], computed as [(T + 25 - 1) // 25], equal
    to the ceiling of [T / 25], and the loop is set to fetch
    [fetch_pages T = min (ceil (T / 25)) 4] pages, between 1 and 4.  In a
    run on a key whose first page announces [T] results the requests sent
    are those of pages [1..n] with [n ≤ fetch_pages T], and they are those
    of pages [1..fetch_pages T] when no fetch for the key fails; no call
    ever sends more than 4 requests. *)
Theorem page_count_capped (T : Z) :
  0 < T →
  PER_PAGE = 25 ∧ MAX_PAGES = 4
  ∧ total_pages T = (T + PER_PAGE - 1) / PER_PAGE
  ∧ PER_PAGE * (total_pages T - 1) < T ≤ PER_PAGE * total_pages T
  ∧ fetch_pages T = Z.min (total_pages T) MAX_PAGES
  ∧ 1 ≤ fetch_pages T ≤ MAX_PAGES
  ∧ (∀ w r,
       key ∉ done_keys w → net (requests w) (req 1) = Some r →
       parse_total_count (resp_soup r) = T →
       (∃ n, 1 ≤ n ≤ fetch_pages T
             ∧ requests (combo w) = (requests w ++ (req <$> seqZ 1 n))%list)
       ∧ ((∀ h p, is_Some (net h (req p))) →
          requests (combo w) = (requests w ++ (req <$> seqZ 1 (fetch_pages T)))%list))
  ∧ (∀ w, ∃ n, 0 ≤ n ≤ MAX_PAGES
               ∧ requests (combo w) = (requests w ++ (req <$> seqZ 1 n))%list).
Proof.
  intros HT. pose proof (fetch_pages_bounds T HT) as Hb.
  split; [done|]. split; [done|]. split; [done|].
  split; [apply total_pages_ceil|]. split; [done|]. split; [done|]. split.
  - intros w r Hk Hnet Hr. subst T. split.
    + destruct (combo_effect net base_url season emg code label cat sex w r)
        as (n & rows & Hn & Hq & _); [done|done|lia|]. eauto.
    + intros Hall.
      rewrite (combo_paginates net base_url season emg code label cat sex w r)
        by (done || lia).
      set (fp := fetch_pages (parse_total_count (resp_soup r))) in *. simpl.
      replace (fp - 1) with (Z.of_nat (Z.to_nat (fp - 1))) by lia.
      rewrite loop_seq_all by (done || lia). simpl.
      rewrite (seqZ_cons 1 fp) by lia. rewrite fmap_cons, <- app_assoc.
      by replace (Z.of_nat (Z.to_nat (fp - 1))) with (Z.pred fp) by lia.
  - intros w.
    destruct (combo_any net base_url season emg code label cat sex w)
      as (n & rows & Hn & Hq & _). eauto.
Qed.

(** C4. When the first page of a key announces results, the pages after
    it are fetched in turn and one of them fails, [scrape_combo] sends no
    further request for the key, the store keeps (flushed) every row of
    the pages fetched so far, the first page included, after the rows it
    already held, and the key joins the in-memory done-set all the same,
    so a second call for it in the same run does nothing. *)
Theorem later_page_error_keeps_partial (w : World) (r1 : Response)
    (resps : list Response) :
  key ∉ done_keys w →
  parse_total_count (resp_soup r1) ≠ 0 →
  Z.of_nat (length resps) + 2 ≤ fetch_pages (parse_total_count (resp_soup r1)) →
  answers net (requests w) (req <$> seqZ 1 (Z.of_nat (length resps) + 2))
    (Some r1 :: (Some <$> resps) ++ [None]) →
  requests (combo w) = (requests w ++ (req <$> seqZ 1 (Z.of_nat (length resps) + 2)))%list
  ∧ written (combo w) = (written w ++ (annot <$> flat_map page_rows (r1 :: resps)))%list
  ∧ flushed (combo w) = length (written (combo w))
  ∧ done_keys (combo w) = done_keys w ∪ {[ key ]}
  ∧ combo (combo w) = combo w.
Proof.
  intros Hk HT Hlen Hans.
  rewrite (seqZ_cons 1) in Hans by lia.
  replace (Z.pred (Z.of_nat (length resps) + 2))
    with (Z.of_nat (length resps) + 1) in Hans by lia.
  rewrite fmap_cons in Hans. simpl in Hans. destruct Hans as [Hr1 Hans].
  assert (Hmain :
    requests (combo w)
    = (requests w ++ (req <$> seqZ 1 (Z.of_nat (length resps) + 2)))%list
    ∧ written (combo w) = (written w ++ (annot <$> flat_map page_rows (r1 :: resps)))%list
    ∧ flushed (combo w) = length (written (combo w))
    ∧ done_keys (combo w) = done_keys w ∪ {[ key ]}).
  { rewrite (combo_paginates net base_url season emg code label cat sex w r1) by done.
    set (fp := fetch_pages (parse_total_count (resp_soup r1))) in *.
    replace (fp - 1)
      with ((Z.of_nat (length resps) + 1) + (fp - 2 - Z.of_nat (length resps))) by lia.
    rewrite seqZ_app by lia.
    destruct (loop_break net base_url season emg code label cat sex resps 2
                (seqZ (2 + (Z.of_nat (length resps) + 1)) (fp - 2 - Z.of_nat (length resps)))
                (resp_soup r1)
                (write_page season emg code label cat sex (resp_soup r1) (sent (req 1) w)))
      as (Hq & Hw & Hdk & Hf); [lia|exact Hans|].
    simpl in Hq, Hw, Hdk, Hf. simpl.
    split; [|split; [|split]].
    - rewrite Hq, (seqZ_cons 1) by lia.
      replace (Z.pred (Z.of_nat (length resps) + 2))
        with (Z.of_nat (length resps) + 1) by lia.
      by rewrite fmap_cons, <- app_assoc.
    - rewrite Hw. by rewrite fmap_app, <- app_assoc.
    - by apply Hf.
    - by rewrite Hdk. }
  destruct Hmain as (Hq & Hw & Hf & Hdk). split_and!; try done.
  apply combo_done. rewrite Hdk. apply elem_of_union_r, elem_of_singleton. done.
Qed.

(** C10. When the fetch of the first page fails, or the page announces no
    result, [scrape_combo] returns with the request sent and nothing else
    changed: no row written, the done-set as it was.  The key is then in
    none of the lines of the store, so a later run, which starts from the
    keys of the store, asks for it again.  A key only ever joins the
    done-set through a first page that announced results. *)
Theorem unfinished_key_not_marked (w : World) :
  key ∉ done_keys w →
  (net (requests w) (req 1) = None
   ∨ ∃ r, net (requests w) (req 1) = Some r ∧ parse_total_count (resp_soup r) = 0) →
  requests (combo w) = (requests w ++ [req 1])%list
  ∧ written (combo w) = written w
  ∧ flushed (combo w) = flushed w
  ∧ done_keys (combo w) = done_keys w
  ∧ (∀ file, stored_keys file (written w) ⊆ done_keys w →
       (key ∉ stored_keys file (written (combo w)))
       ∧ (∀ net' w', done_keys w' = stored_keys file (written (combo w)) →
            ∃ rest, requests (scrape_combo net' base_url season emg code label cat sex w')
                    = (requests w' ++ req 1 :: rest)%list))
  ∧ (∀ w0, key ∈ done_keys (combo w0) →
       key ∈ done_keys w0
       ∨ ∃ r, net (requests w0) (req 1) = Some r ∧ parse_total_count (resp_soup r) ≠ 0).
Proof.
  intros Hk Hcase.
  assert (Hc : combo w = sent (req 1) w).
  { destruct Hcase as [Hnone|(r & Hr & HT)].
    - by apply combo_no_page.
    - by apply (combo_empty net base_url season emg code label cat sex w r). }
  rewrite Hc. simpl. split_and!; try done.
  - intros file Hinv.
    assert (Habs : key ∉ stored_keys file (written w)) by (intros Hin; apply Hk, Hinv, Hin).
    split; [done|]. intros net' w' Hw'.
    apply combo_fetches. by rewrite Hw'.
  - intros w0 Hin.
    destruct (combo_any net base_url season emg code label cat sex w0)
      as (n & rows & _ & _ & _ & _ & H). by apply H.
Qed.

End ComboClaims.

(** ** Caller-side filters: what is collected *)

Lemma genders_loop_men net base_url season emg code label cat w :
  genders_loop net base_url season emg code label cat GENDERS w
  = scrape_combo net base_url season emg code label cat "M" w.
Proof. reflexivity. Qed.

Lemma options_loop_cons net base_url season emg ev code opts w :
  value ev = JStr code →
  options_loop net base_url season emg (ev :: opts) w
  = options_loop net base_url season emg opts
      (scrape_combo net base_url season emg code (text ev) (category_from_code code) "M" w).
Proof. intros H. cbn [options_loop]. by rewrite H, genders_loop_men. Qed.

Lemma options_loop_requests_grow net base_url season emg opts : ∀ w,
  ∃ rs, requests (options_loop net base_url season emg opts w).2 = (requests w ++ rs)%list.
Proof.
  induction opts as [|ev opts IH]; intros w.
  - exists []. simpl. by rewrite app_nil_r.
  - destruct (value ev) as [| | | |code| |] eqn:Hv;
      try (exists []; cbn [options_loop]; rewrite Hv; simpl; by rewrite app_nil_r).
    rewrite (options_loop_cons _ _ _ _ _ code) by done.
    destruct (combo_any net base_url season emg code (text ev) (category_from_code code) "M" w)
      as (n & rows & _ & Hr & _).
    destruct (IH (scrape_combo net base_url season emg code (text ev)
                    (category_from_code code) "M" w)) as [rs Hrs].
    eexists. rewrite Hrs, Hr, <- app_assoc. reflexivity.
Qed.

(** The loop over the options in use asks for the first page of each of
    them whose key is not marked yet. *)
Lemma options_loop_collects net base_url season emg opts : ∀ w o code,
  In o opts → value o = JStr code → Forall str_coded opts →
  (Some code, Some "M") ∉ done_keys w →
  In (ResultsPage base_url emg code "M" 1)
     (requests (options_loop net base_url season emg opts w).2).
Proof.
  induction opts as [|ev opts IH]; intros w o code Hin Hv Hstr Hk; [done|].
  apply Forall_cons in Hstr as [[c Hc] Hstr].
  rewrite (options_loop_cons _ _ _ _ _ c) by done.
  set (w1 := scrape_combo net base_url season emg c (text ev) (category_from_code c) "M" w).
  destruct (decide (c = code)) as [-> |Hne].
  - destruct (combo_fetches net base_url season emg code (text ev)
                (category_from_code code) "M" w Hk) as [rest Hr].
    destruct (options_loop_requests_grow net base_url season emg opts w1) as [rs Hrs].
    rewrite Hrs. unfold w1. rewrite Hr.
    apply in_or_app. left. apply in_or_app. right. by left.
  - destruct Hin as [<- |Hin]; [congruence|].
    apply (IH w1 o code); try done. intros Hin1.
    apply (combo_marks net base_url season emg c (text ev) (category_from_code c) "M") in Hin1.
    apply elem_of_union in Hin1 as [?|Heq%elem_of_singleton]; [done|]. congruence.
Qed.

Lemma existsb_has_overall kept :
  (∃ o, In o kept ∧ has_overall o = true) ∨ (∀ o, In o kept → has_overall o = false).
Proof.
  destruct (existsb has_overall kept) eqn:E.
  - left. by apply existsb_exists.
  - right. intros o Hin. destruct (has_overall o) eqn:Ho; [|done].
    assert (existsb has_overall kept = true) by (apply existsb_exists; eauto). congruence.
Qed.

(** C9. As amended: a code that no configured prefix matches (up to case)
    is classified [HYROX], the label the Open filter tests for, so the
    filter keeps every option that carries such a code.  It is then among
    the options the driver collects exactly when its code contains OVERALL
    (up to case) or no option that the filter kept does: the preference for
    overall rankings leaves it out otherwise.  For an option in use the
    driver asks for the first results page of its key, unless the key is
    marked done. *)
Theorem open_filter_keeps_unmatched (event_opts : list Item) (o : Item) (code : string) :
  Forall str_coded event_opts →
  In o event_opts → value o = JStr code →
  (∀ prefix name, In (prefix, name) CATEGORY_PREFIXES → ci_prefix prefix code = false) →
  category_from_code code = "HYROX"
  ∧ is_open o = Ok true
  ∧ ∃ kept use,
      open_filter event_opts = Ok kept ∧ In o kept
      ∧ use_opts kept = Ok use
      ∧ (In o use ↔ has_overall o = true ∨ ∀ o', In o' kept → has_overall o' = false)
      ∧ (In o use → ∀ net base_url season emg w,
           (Some code, Some "M") ∉ done_keys w →
           In (ResultsPage base_url emg code "M" 1)
              (requests (options_loop net base_url season emg use w).2)).
Proof.
  intros Hstr Hin Hcode Hno. rewrite Forall_forall in Hstr.
  assert (Hc : category_from_code code = "HYROX").
  { destruct (category_from_code_cases code) as [(p & n & Hp & Hm & _)|[_ H]].
    - rewrite (Hno _ _ Hp) in Hm. done.
    - done. }
  assert (Hopen : is_open o = Ok true).
  { unfold is_open, item_category. rewrite Hcode. simpl. by rewrite Hc. }
  split; [done|]. split; [done|].
  set (kept := List.filter (passes is_open) event_opts).
  assert (Hkept : open_filter event_opts = Ok kept).
  { unfold open_filter. simpl. apply comprehension_filter. intros o' Hin'.
    destruct (Hstr o' (proj2 (list_elem_of_In _ _) Hin')) as [c' Hc'].
    unfold passes, is_open, item_category. rewrite Hc'. simpl.
    by destruct (String.eqb _ _). }
  assert (Hok : In o kept).
  { apply filter_In. split; [done|]. unfold passes. by rewrite Hopen. }
  pose proof (open_filter_str_coded _ _ Hkept) as Hks.
  destruct (use_opts_cases kept Hks) as [Hsome Hnone].
  assert (Huse : ∃ use, use_opts kept = Ok use
                        ∧ (In o use ↔ has_overall o = true
                                      ∨ ∀ o', In o' kept → has_overall o' = false)
                        ∧ Forall str_coded use).
  { destruct (existsb_has_overall kept) as [Hex|Hall].
    - exists (List.filter has_overall kept). split; [by apply Hsome|]. split.
      + rewrite filter_In. split; [intros [_ ?]; by left|].
        intros [Ho|Hall]; [done|]. destruct Hex as (o' & Ho' & Hov).
        rewrite (Hall o' Ho') in Hov. done.
      + apply Forall_forall. intros x Hx%list_elem_of_In. apply filter_In in Hx as [Hx _].
        rewrite Forall_forall in Hks. by apply Hks, list_elem_of_In.
    - exists kept. split; [by apply Hnone|]. split; [|done]. split; auto. }
  destruct Huse as (use & Hu & Hiff & Hus).
  exists kept, use. split_and!; try done.
  intros Hin_use net base_url season emg w Hk.
  by apply (options_loop_collects net base_url season emg use w o code).
Qed.

Lemma open_filter_keeps_unmatched_witness :
  category_from_code "LR3_SUNDAY" = "HYROX"
  ∧ is_open sunday_option = Ok true
  ∧ ∃ kept use,
      open_filter [pro_option; sunday_option] = Ok kept ∧ In sunday_option kept
      ∧ use_opts kept = Ok use
      ∧ (In sunday_option use
         ↔ has_overall sunday_option = true ∨ ∀ o', In o' kept → has_overall o' = false)
      ∧ (In sunday_option use → ∀ net base_url season emg w,
           (Some "LR3_SUNDAY", Some "M") ∉ done_keys w →
           In (ResultsPage base_url emg "LR3_SUNDAY" "M" 1)
              (requests (options_loop net base_url season emg use w).2)).
Proof.
  apply (open_filter_keeps_unmatched [pro_option; sunday_option] sunday_option "LR3_SUNDAY").
  - repeat constructor; eexists; reflexivity.
  - right; left; reflexivity.
  - reflexivity.
  - intros p n Hin. simpl in Hin.
    repeat (destruct Hin as [[= <- <-]|Hin]; [reflexivity|]). destruct Hin.
Defined.

(** The claim as it was stated fails where the event group also lists an
    overall ranking: the code [LR3_SUNDAY] matches no configured prefix, is
    classified [HYROX] and passes the Open filter, yet the options in use
    are the overall ranking alone, and the run on that group asks for the
    pages of the overall ranking and for none of [LR3_SUNDAY]. *)
Lemma open_filter_keeps_unmatched_counterexample :
  (∀ prefix name, In (prefix, name) CATEGORY_PREFIXES → ci_prefix prefix "LR3_SUNDAY" = false)
  ∧ category_from_code "LR3_SUNDAY" = "HYROX"
  ∧ open_filter [overall_option; sunday_option] = Ok [overall_option; sunday_option]
  ∧ use_opts [overall_option; sunday_option] = Ok [overall_option]
  ∧ (get_event_codes lr3_net season8 taipei (startup None)).1
    = Ok [overall_option; sunday_option]
  ∧ requests (group_body lr3_net season8 "Season 8" {| value := taipei; text := taipei |}
                (startup None)).2
    = [ SearchCodes season8 taipei;
        ResultsPage season8 taipei "H_LR3_OVERALL" "M" 1;
        ResultsPage season8 taipei "H_LR3_OVERALL" "M" 2 ]
  ∧ Forall (fun x => event_code x = "H_LR3_OVERALL")
      (written (group_body lr3_net season8 "Season 8" {| value := taipei; text := taipei |}
                  (startup None)).2).
Proof.
  split.
  { intros p n Hin. simpl in Hin.
    repeat (destruct Hin as [[= <- <-]|Hin]; [reflexivity|]). destruct Hin. }
  split; [reflexivity|]. split; [reflexivity|]. split; [reflexivity|].
  split; [vm_compute; reflexivity|]. split; [vm_compute; reflexivity|].
  vm_compute. repeat constructor.
Qed.

(** ** Collection driver: a whole run *)

Lemma load_done_keys_fold (rows : list CsvRow) : ∀ (acc : gset Key) (k : Key),
  k ∈ fold_left (fun done row => done ∪ {[ csv_key row ]}) rows acc
  ↔ k ∈ acc ∨ ∃ row, row ∈ rows ∧ k = csv_key row.
Proof.
  induction rows as [|row rows IH]; intros acc k; simpl.
  - split; [auto|]. intros [?|(row & Hin & _)]; [done|]. by apply elem_of_nil in Hin.
  - rewrite IH, elem_of_union, elem_of_singleton. split.
    + intros [[?| ->]|(r & Hin & ->)]; auto.
      * right. exists row. split; [left|done].
      * right. exists r. split; [by right|done].
    + intros [?|(r & Hin & ->)]; auto.
      apply elem_of_cons in Hin as [-> |Hin]; auto. right. eauto.
Qed.

(** The done-set loaded at startup holds the key of every line of the
    store, and nothing else. *)
Lemma load_done_keys_spec (rows : list CsvRow) (k : Key) :
  k ∈ load_done_keys (Some rows) ↔ ∃ row, row ∈ rows ∧ k = csv_key row.
Proof.
  unfold load_done_keys. rewrite load_done_keys_fold. split; [|auto].
  intros [H|H]; [|done]. by apply not_elem_of_empty in H.
Qed.

Section RunFacts.

Variable net : list Request → Request → option Response.
Variable K : Key.

Lemma avoids_refl w : avoids K w w.
Proof. exists [], []. rewrite !app_nil_r. split_and!; auto. Qed.

Lemma avoids_trans w1 w2 w3 : avoids K w1 w2 → avoids K w2 w3 → avoids K w1 w3.
Proof.
  intros (rs & xs & Hr & Hx & Hd & Fr & Fx) (rs' & xs' & Hr' & Hx' & Hd' & Fr' & Fx').
  exists (rs ++ rs')%list, (xs ++ xs')%list.
  rewrite Hr', Hx', Hr, Hx, !app_assoc. split_and!; auto.
  - by etrans.
  - by apply Forall_app.
  - by apply Forall_app.
Qed.

Lemma avoids_done w w' : avoids K w w' → K ∈ done_keys w → K ∈ done_keys w'.
Proof. intros (rs & xs & _ & _ & Hd & _) Hin. by apply Hd. Qed.

Lemma sent_avoids r w : request_key r = None → avoids K w (sent r w).
Proof.
  intros Hr. exists [r], []. simpl. rewrite app_nil_r. split_and!; auto.
  constructor; [|done]. by rewrite Hr.
Qed.

(** A call for a key leaves a marked key alone: it returns at once when
    the key is the marked one, and works for another key otherwise. *)
Lemma scrape_combo_avoids base_url season emg code label cat sex w :
  K ∈ done_keys w →
  avoids K w (scrape_combo net base_url season emg code label cat sex w).
Proof.
  intros HK. destruct (decide (K = (Some code, Some sex))) as [Heq|Hne].
  - rewrite combo_done by (by rewrite <- Heq). apply avoids_refl.
  - destruct (combo_any net base_url season emg code label cat sex w)
      as (n & rows & _ & Hr & Hw & Hd & _).
    exists (ResultsPage base_url emg code sex <$> seqZ 1 n),
           (annotate season emg code label cat sex <$> rows).
    split_and!; auto.
    + apply Forall_fmap, Forall_true. intros p. simpl. congruence.
    + apply Forall_fmap, Forall_true. intros a. unfold row_key. simpl. congruence.
Qed.

Lemma genders_loop_avoids base_url season emg code label cat genders : ∀ w,
  K ∈ done_keys w →
  avoids K w (genders_loop net base_url season emg code label cat genders w).
Proof.
  induction genders as [|[sex_code sex_label] genders IH]; intros w HK; simpl.
  - apply avoids_refl.
  - pose proof (scrape_combo_avoids base_url season emg code label cat sex_code w HK) as H1.
    eapply avoids_trans; [exact H1|]. apply IH. by eapply avoids_done.
Qed.

Lemma options_loop_avoids base_url season emg opts : ∀ w,
  K ∈ done_keys w →
  avoids K w (options_loop net base_url season emg opts w).2.
Proof.
  induction opts as [|ev opts IH]; intros w HK; simpl.
  - apply avoids_refl.
  - destruct (value ev); simpl; try apply avoids_refl.
    pose proof (genders_loop_avoids base_url season emg s (text ev)
                  (category_from_code s) GENDERS w HK) as H1.
    eapply avoids_trans; [exact H1|]. apply IH. by eapply avoids_done.
Qed.

Lemma get_event_codes_avoids base_url emg w :
  avoids K w (get_event_codes net base_url emg w).2.
Proof.
  unfold get_event_codes, polite_get.
  destruct (net (requests w) (SearchCodes base_url emg)); by apply sent_avoids.
Qed.

Lemma get_event_groups_avoids base_url w :
  avoids K w (get_event_groups net base_url w).2.
Proof.
  unfold get_event_groups, polite_get.
  destruct (net (requests w) (SearchGroups base_url)); by apply sent_avoids.
Qed.

Lemma group_body_avoids base_url season eg w :
  K ∈ done_keys w → avoids K w (group_body net base_url season eg w).2.
Proof.
  intros HK. unfold group_body.
  pose proof (get_event_codes_avoids base_url (value eg) w) as H1.
  destruct (get_event_codes net base_url (value eg) w) as [[opts|e] w1]; simpl in *;
    [|done].
  destruct opts as [|o opts]; [done|].
  destruct (open_filter (o :: opts)) as [[|o' opts']|e]; simpl; [done| |done].
  destruct (use_opts (o' :: opts')) as [use|e]; simpl; [|done].
  eapply avoids_trans; [exact H1|]. apply options_loop_avoids. by eapply avoids_done.
Qed.

Lemma groups_loop_avoids base_url season groups : ∀ w,
  K ∈ done_keys w → avoids K w (groups_loop net base_url season groups w).2.
Proof.
  induction groups as [|eg groups IH]; intros w HK; simpl.
  - apply avoids_refl.
  - pose proof (group_body_avoids base_url season eg w HK) as H1.
    destruct (group_body net base_url season eg w) as [[u|e] w1]; simpl in *; [|done].
    eapply avoids_trans; [exact H1|]. apply IH. by eapply avoids_done.
Qed.

Lemma season_body_avoids season base_url w :
  K ∈ done_keys w → avoids K w (season_body net season base_url w).2.
Proof.
  intros HK. unfold season_body.
  pose proof (get_event_groups_avoids base_url w) as H1.
  destruct (get_event_groups net base_url w) as [[groups|e] w1]; simpl in *; [|done].
  destruct groups as [|eg groups]; [done|].
  eapply avoids_trans; [exact H1|]. apply groups_loop_avoids. by eapply avoids_done.
Qed.

Lemma seasons_loop_avoids seasons : ∀ w,
  K ∈ done_keys w → avoids K w (seasons_loop net seasons w).2.
Proof.
  induction seasons as [|[season base_url] seasons IH]; intros w HK; simpl.
  - apply avoids_refl.
  - pose proof (season_body_avoids season base_url w HK) as H1.
    destruct (season_body net season base_url w) as [[u|e] w1]; simpl in *; [|done].
    eapply avoids_trans; [exact H1|]. apply IH. by eapply avoids_done.
Qed.

End RunFacts.

(** C1. For every line of the store found at startup, its key (event code,
    gender) is in the done-set that [load_done_keys] builds; a call of
    [scrape_combo] for a key of the done-set returns the world unchanged,
    before any fetch; and in the whole run of [main], however the network
    answers, no results page is requested for that key and no row is
    appended for it. *)
Theorem rerun_skips_stored_keys
    (net : list Request → Request → option Response)
    (rows : list CsvRow) (row : CsvRow) :
  row ∈ rows →
  csv_key row ∈ load_done_keys (Some rows)
  ∧ (∀ base_url season emg code label cat sex w,
       csv_key row = (Some code, Some sex) →
       csv_key row ∈ done_keys w →
       scrape_combo net base_url season emg code label cat sex w = w)
  ∧ (∀ r, r ∈ requests (main net (Some rows)).2 → request_key r ≠ Some (csv_key row))
  ∧ (∀ x, x ∈ written (main net (Some rows)).2 → row_key x ≠ csv_key row).
Proof.
  intros Hrow.
  assert (HK : csv_key row ∈ load_done_keys (Some rows)).
  { apply load_done_keys_spec. eauto. }
  split; [done|]. split.
  { intros base_url season emg code label cat sex w Hk Hin.
    apply combo_done. by rewrite <- Hk. }
  destruct (seasons_loop_avoids net (csv_key row) SEASON_BASES (startup (Some rows)) HK)
    as (rs & xs & Hr & Hx & _ & Fr & Fx).
  unfold main. rewrite Hr, Hx. simpl. rewrite Forall_forall in Fr.
  rewrite Forall_forall in Fx. split; auto.
Qed.

(** ** Downstream consumer: time strings *)

Lemma char_nonempty ch : is_char ch → ch ≠ EmptyString.
Proof. intros [n Hn] ->. done. Qed.

Lemma chars_nil s : PyStr.chars s = [] → s = EmptyString.
Proof. intros H. rewrite <- (join_chars s), H. done. Qed.

Lemma chars_of_chars l : Forall is_char l → PyStr.chars (PyStr.join EmptyString l) = l.
Proof.
  intros H. rewrite <- (append_empty_r (PyStr.join EmptyString l)).
  rewrite chars_join by done. apply app_nil_r.
Qed.

Lemma join_nonempty l : Forall is_char l → l ≠ [] → PyStr.join EmptyString l ≠ EmptyString.
Proof.
  intros H Hne. destruct H as [|ch l Hch _]; [done|]. rewrite join_cons.
  pose proof (char_nonempty ch Hch). by destruct ch.
Qed.

Lemma digits_chars h : digits h ↔ Forall (fun c => PyStr.is_digit c = true) (PyStr.chars h).
Proof.
  unfold digits, PyStr.all_digits. rewrite forallb_forall, Forall_forall.
  split; intros H c Hc; apply H; by apply list_elem_of_In.
Qed.

Lemma digits_are_chars l : Forall (fun c => PyStr.is_digit c = true) l → Forall is_char l.
Proof. intros H. eapply Forall_impl; [exact H|]. intros c. apply digit_is_char. Qed.

Lemma digits_text h : digits h → PyStr.text h = true.
Proof. intros H%digits_chars. by apply text_chars, digits_are_chars. Qed.

Lemma digits_join l : Forall (fun c => PyStr.is_digit c = true) l → digits (PyStr.join EmptyString l).
Proof. intros H. apply digits_chars. by rewrite chars_of_chars by (by apply digits_are_chars). Qed.

Lemma two_join l :
  length l = 2%nat → Forall (fun c => PyStr.is_digit c = true) l →
  two (PyStr.join EmptyString l).
Proof.
  intros Hl H. split; [|by apply digits_join].
  by rewrite chars_of_chars by (by apply digits_are_chars).
Qed.

Lemma colon_char : is_char ":".
Proof. by eexists. Qed.

Lemma chars_colon r : PyStr.chars (":" ++ r) = ":" :: PyStr.chars r.
Proof. apply chars_whole, colon_char. Qed.

Lemma span_digits_sound cs : ∀ h r,
  span_digits cs = (h, r) → cs = (h ++ r)%list ∧ Forall (fun c => PyStr.is_digit c = true) h.
Proof.
  induction cs as [|c cs IH]; intros h r; simpl.
  - by intros [= <- <-].
  - destruct (PyStr.is_digit c) eqn:Hc.
    + destruct (span_digits cs) as [d rest]. intros [= <- <-].
      destruct (IH d rest eq_refl) as [-> Hd]. split; [done|]. by constructor.
    + by intros [= <- <-].
Qed.

Lemma span_digits_complete h : ∀ r,
  Forall (fun c => PyStr.is_digit c = true) h →
  (∀ c r', r = c :: r' → PyStr.is_digit c = false) →
  span_digits (h ++ r) = (h, r).
Proof.
  induction h as [|c h IH]; intros r Hd Hr; simpl.
  - destruct r as [|c r']; [done|]. simpl. by rewrite (Hr c r').
  - apply Forall_cons in Hd as [Hc Hd]. rewrite Hc. by rewrite IH.
Qed.

Lemma colon_iff r r1 : colon r = Some r1 ↔ r = ":" :: r1.
Proof.
  destruct r as [|c r]; simpl; [split; done|].
  destruct (String.eqb_spec c ":") as [-> |Hc]; split; intros [=]; subst; done.
Qed.

Lemma two_digits_iff x m r :
  two_digits x = Some (m, r)
  ↔ x = (m ++ r)%list ∧ length m = 2%nat ∧ Forall (fun c => PyStr.is_digit c = true) m.
Proof.
  split.
  - destruct x as [|a [|b x]]; simpl; try done.
    destruct (PyStr.is_digit a) eqn:Ha, (PyStr.is_digit b) eqn:Hb; simpl; try done.
    intros [= <- <-]. split_and!; try done. by repeat constructor.
  - intros (-> & Hl & Hd). destruct m as [|a [|b [|c m]]]; simpl in Hl; try done.
    apply Forall_cons in Hd as [Ha Hd]. apply Forall_cons in Hd as [Hb _].
    simpl. by rewrite Ha, Hb.
Qed.

(** The matcher on the characters of a text. *)
Lemma fullmatch_hms_chars t H M S :
  fullmatch_hms t = Some (H, M, S)
  ↔ ∃ h m s,
      PyStr.chars t = (h ++ ":" :: m ++ ":" :: s)%list
      ∧ h ≠ [] ∧ Forall (fun c => PyStr.is_digit c = true) h
      ∧ (length m = 2%nat ∧ Forall (fun c => PyStr.is_digit c = true) m)
      ∧ (length s = 2%nat ∧ Forall (fun c => PyStr.is_digit c = true) s)
      ∧ H = PyStr.join EmptyString h ∧ M = PyStr.join EmptyString m
      ∧ S = PyStr.join EmptyString s.
Proof.
  unfold fullmatch_hms. split.
  - destruct (span_digits (PyStr.chars t)) as [h r] eqn:Hs.
    apply span_digits_sound in Hs as [Ht Hh].
    destruct h as [|c h]; [done|].
    destruct (colon r) as [r1|] eqn:H1; simpl; [|done]. apply colon_iff in H1 as ->.
    destruct (two_digits r1) as [[m r2]|] eqn:H2; simpl; [|done].
    apply two_digits_iff in H2 as (-> & Hm).
    destruct (colon r2) as [r3|] eqn:H3; simpl; [|done]. apply colon_iff in H3 as ->.
    destruct (two_digits r3) as [[s r4]|] eqn:H4; simpl; [|done].
    apply two_digits_iff in H4 as (-> & Hs').
    destruct r4; [|done]. intros [= <- <- <-].
    exists (c :: h), m, s. rewrite app_nil_r in Ht.
    destruct Hm as [? ?], Hs' as [? ?]. split_and!; first [done|reflexivity].
  - intros (h & m & s & -> & Hne & Hh & Hm & Hs & -> & -> & ->).
    rewrite span_digits_complete; [|done|by intros c r' [= <- _]].
    destruct h as [|c h]; [done|].
    rewrite (proj2 (colon_iff (":" :: m ++ ":" :: s) _) eq_refl). simpl.
    rewrite (proj2 (two_digits_iff (m ++ ":" :: s) m (":" :: s))) by done. simpl.
    rewrite (proj2 (two_digits_iff s s [])) by (by rewrite app_nil_r). simpl.
    done.
Qed.

Lemma fullmatch_ms_chars t M S :
  fullmatch_ms t = Some (M, S)
  ↔ ∃ m s,
      PyStr.chars t = (m ++ ":" :: s)%list
      ∧ m ≠ [] ∧ Forall (fun c => PyStr.is_digit c = true) m
      ∧ (length s = 2%nat ∧ Forall (fun c => PyStr.is_digit c = true) s)
      ∧ M = PyStr.join EmptyString m ∧ S = PyStr.join EmptyString s.
Proof.
  unfold fullmatch_ms. split.
  - destruct (span_digits (PyStr.chars t)) as [m r] eqn:Hs.
    apply span_digits_sound in Hs as [Ht Hh].
    destruct m as [|c m]; [done|].
    destruct (colon r) as [r1|] eqn:H1; simpl; [|done]. apply colon_iff in H1 as ->.
    destruct (two_digits r1) as [[s r2]|] eqn:H2; simpl; [|done].
    apply two_digits_iff in H2 as (-> & Hs').
    destruct r2; [|done]. intros [= <- <-].
    exists (c :: m), s. rewrite app_nil_r in Ht.
    destruct Hs' as [? ?]. split_and!; first [done|reflexivity].
  - intros (m & s & -> & Hne & Hh & Hs & -> & ->).
    rewrite span_digits_complete; [|done|by intros c r' [= <- _]].
    destruct m as [|c m]; [done|].
    rewrite (proj2 (colon_iff (":" :: s) _) eq_refl). simpl.
    rewrite (proj2 (two_digits_iff s s [])) by (by rewrite app_nil_r). simpl.
    done.
Qed.

(** The characters of a text of the three-group form, and of the two-group
    form. *)
Lemma chars_hms h m s :
  digits h → two m →
  PyStr.chars (h ++ ":" ++ m ++ ":" ++ s)
  = (PyStr.chars h ++ ":" :: PyStr.chars m ++ ":" :: PyStr.chars s)%list.
Proof.
  intros Hh [_ Hm].
  rewrite chars_app by (by apply digits_text). rewrite chars_colon.
  rewrite chars_app by (by apply digits_text). by rewrite chars_colon.
Qed.

Lemma chars_ms m s :
  digits m → PyStr.chars (m ++ ":" ++ s) = (PyStr.chars m ++ ":" :: PyStr.chars s)%list.
Proof. intros Hm. rewrite chars_app by (by apply digits_text). by rewrite chars_colon. Qed.

Lemma fullmatch_hms_iff t h m s :
  fullmatch_hms t = Some (h, m, s)
  ↔ t = h ++ ":" ++ m ++ ":" ++ s ∧ h ≠ EmptyString ∧ digits h ∧ two m ∧ two s.
Proof.
  rewrite fullmatch_hms_chars. split.
  - intros (h' & m' & s' & Ht & Hne & Hh & [Lm Hm] & [Ls Hs] & -> & -> & ->).
    split_and!.
    + rewrite <- (join_chars t), Ht, join_app, join_cons, join_app, join_cons. done.
    + by apply join_nonempty; [apply digits_are_chars|].
    + by apply digits_join.
    + by apply two_join.
    + by apply two_join.
  - intros (-> & Hne & Hh & Hm & Hs).
    exists (PyStr.chars h), (PyStr.chars m), (PyStr.chars s).
    rewrite chars_hms by done. rewrite !join_chars.
    destruct Hm as [Lm Hm]. destruct Hs as [Ls Hs].
    apply digits_chars in Hh, Hm, Hs. split_and!; try done.
    intros E. by apply chars_nil in E.
Qed.

Lemma fullmatch_ms_iff t m s :
  fullmatch_ms t = Some (m, s)
  ↔ t = m ++ ":" ++ s ∧ m ≠ EmptyString ∧ digits m ∧ two s.
Proof.
  rewrite fullmatch_ms_chars. split.
  - intros (m' & s' & Ht & Hne & Hh & [Ls Hs] & -> & ->).
    split_and!.
    + rewrite <- (join_chars t), Ht, join_app, join_cons. done.
    + by apply join_nonempty; [apply digits_are_chars|].
    + by apply digits_join.
    + by apply two_join.
  - intros (-> & Hne & Hm & Hs).
    exists (PyStr.chars m), (PyStr.chars s).
    rewrite chars_ms by done. rewrite !join_chars.
    destruct Hs as [Ls Hs]. apply digits_chars in Hm, Hs. split_and!; try done.
    intros E. by apply chars_nil in E.
Qed.

Lemma fullmatch_hms_none t : fullmatch_hms t = None ↔ ¬ hms_form t.
Proof.
  split.
  - intros Hn (h & m & s & H). apply fullmatch_hms_iff in H. congruence.
  - intros Hn. destruct (fullmatch_hms t) as [[[h m] s]|] eqn:E; [|done].
    destruct Hn. exists h, m, s. by apply fullmatch_hms_iff.
Qed.

Lemma fullmatch_ms_none t : fullmatch_ms t = None ↔ ¬ ms_form t.
Proof.
  split.
  - intros Hn (m & s & H). apply fullmatch_ms_iff in H. congruence.
  - intros Hn. destruct (fullmatch_ms t) as [[m s]|] eqn:E; [|done].
    destruct Hn. exists m, s. by apply fullmatch_ms_iff.
Qed.

Lemma to_seconds_none t :
  to_seconds (Some t) = None ↔ ¬ hms_form (PyStr.strip t) ∧ ¬ ms_form (PyStr.strip t).
Proof.
  rewrite <- fullmatch_hms_none, <- fullmatch_ms_none. unfold to_seconds.
  destruct (fullmatch_hms (PyStr.strip t)) as [[[h m] s]|].
  - split; [done|]. by intros [? _].
  - destruct (fullmatch_ms (PyStr.strip t)) as [[m s]|].
    + split; [done|]. by intros [_ ?].
    + done.
Qed.

Lemma load_data_lines (df : list Line) :
  line <$> load_data df
  = filter (fun l => is_Some (to_seconds (col_total_time l))) df.
Proof.
  unfold load_data. induction df as [|l df IH]; [done|].
  change (omap ?f (l :: df)) with (match f l with
                                  | Some y => y :: omap f df
                                  | None => omap f df
                                  end).
  cbv beta. destruct (to_seconds (col_total_time l)) as [z|] eqn:E.
  - rewrite filter_cons_True by (by rewrite E). rewrite <- IH. reflexivity.
  - rewrite filter_cons_False by (rewrite E; by intros [? ?]). rewrite <- IH.
    reflexivity.
Qed.

(** C5. [to_seconds] maps [0:52:13] and [52:13] to 3133 seconds; it gives
    nothing exactly on the missing cells and on the strings that, once
    stripped, have neither the form digits : two digits : two digits nor the
    form digits : two digits; and the frame [load_data] returns holds, in
    order, exactly the lines on which it gives a number: every line whose
    total-time string matches neither form is dropped. *)
Theorem to_seconds_and_dropna :
  to_seconds (Some "0:52:13") = Some 3133
  ∧ to_seconds (Some "52:13") = Some 3133
  ∧ to_seconds None = None
  ∧ (∀ t, to_seconds (Some t) = None
          ↔ ¬ hms_form (PyStr.strip t) ∧ ¬ ms_form (PyStr.strip t))
  ∧ (∀ df, line <$> load_data df
           = filter (fun l => is_Some (to_seconds (col_total_time l))) df)
  ∧ (∀ df l t, col_total_time l = Some t →
       ¬ hms_form (PyStr.strip t) → ¬ ms_form (PyStr.strip t) →
       l ∉ line <$> load_data df)
  ∧ (∀ df x, x ∈ load_data df →
       line x ∈ df ∧ to_seconds (col_total_time (line x)) = Some (total_seconds x)).
Proof.
  split; [reflexivity|]. split; [reflexivity|]. split; [reflexivity|].
  split; [apply to_seconds_none|]. split; [apply load_data_lines|]. split.
  - intros df l t Ht Hh Hm. rewrite load_data_lines.
    intros [Hin _]%list_elem_of_filter. rewrite Ht in Hin.
    rewrite (proj2 (to_seconds_none t)) in Hin by done. by destruct Hin.
  - intros df x Hin. unfold load_data in Hin.
    apply list_elem_of_omap in Hin as (l & Hl & Hx).
    destruct (to_seconds (col_total_time l)) as [z|] eqn:E; simpl in Hx; [|done].
    injection Hx as <-. simpl. done.
Qed.

(** Time strings outside ASCII: white space of Unicode is stripped and the
    digits of any script are read, as [str.strip], the class of digits and
    [int] do. *)
Example to_seconds_beyond_ascii :
  to_seconds (Some nbsp_5213) = Some 3133
  ∧ to_seconds (Some fullwidth_5213) = Some 3133
  ∧ to_seconds (Some "52:13 pm") = None.
Proof. repeat split. Qed.

(** ** Sample runs *)

Example sample_discovery :
  (get_event_groups (sample_net (fun _ => false)) season8 (startup None)).1
  = Ok [ {| value := taipei; text := taipei |} ]
  ∧ (get_event_codes (sample_net (fun _ => false)) season8 taipei (startup None)).1
    = Ok [ {| value := JStr "H_TPE_OVERALL"; text := JStr "HYROX - Overall" |};
           {| value := JStr "H_TPE_SAT"; text := JStr "HYROX - Saturday" |};
           {| value := JStr "HPRO_TPE"; text := JStr "HYROX PRO" |} ].
Proof. split; vm_compute; reflexivity. Qed.

(** A first run on an empty store: the eight seasons are asked for their
    groups, season 8 for the codes of its group, and the overall ranking for
    its four pages. *)
Example sample_first_run :
  let w := (main (sample_net (fun _ => false)) None).2 in
  requests w
  = (((fun s => SearchGroups s.2) <$> SEASON_BASES)
     ++ SearchCodes season8 taipei :: (sample_request <$> seqZ 1 4))%list
  ∧ length (written w) = 8%nat
  ∧ flushed w = 8%nat.
Proof. vm_compute. auto. Qed.

(** The run that follows, on a store that holds the key: no results page is
    asked for. *)
Example sample_second_run :
  let w := (main (sample_net (fun _ => false)) (Some [sample_line])).2 in
  requests w
  = (((fun s => SearchGroups s.2) <$> SEASON_BASES) ++ [SearchCodes season8 taipei])%list
  ∧ written w = [].
Proof. vm_compute. auto. Qed.

(** ** The statements at the sample inputs *)

Lemma rerun_skips_stored_keys_witness :
  csv_key sample_line = (Some "H_TPE_OVERALL", Some "M")
  ∧ csv_key sample_line ∈ load_done_keys (Some [sample_line])
  ∧ (∀ r, r ∈ requests (main (sample_net (fun _ => false)) (Some [sample_line])).2 →
          request_key r ≠ Some (csv_key sample_line))
  ∧ (∀ x, x ∈ written (main (sample_net (fun _ => false)) (Some [sample_line])).2 →
          row_key x ≠ csv_key sample_line).
Proof.
  split; [reflexivity|].
  destruct (rerun_skips_stored_keys (sample_net (fun _ => false)) [sample_line] sample_line)
    as (H1 & _ & H3 & H4).
  - apply list_elem_of_here.
  - auto.
Defined.

Lemma page_count_capped_witness :
  total_pages 130 = 6
  ∧ fetch_pages 130 = 4
  ∧ requests (sample_combo (sample_net (fun _ => false)) (startup None))
    = sample_request <$> seqZ 1 4.
Proof.
  destruct (page_count_capped (sample_net (fun _ => false)) season8 "Season 8" taipei
              "H_TPE_OVERALL" (JStr "HYROX - Overall") "HYROX" "M" 130 ltac:(lia))
    as (_ & _ & _ & _ & _ & _ & Hrun & _).
  destruct (Hrun (startup None) (html_response sample_page_130)) as [_ Hall].
  - apply not_elem_of_empty.
  - reflexivity.
  - reflexivity.
  - split; [reflexivity|]. split; [reflexivity|].
    apply Hall. intros h p. eexists. reflexivity.
Defined.

Lemma later_page_error_keeps_partial_witness :
  requests (sample_combo (sample_net (fun p => 3 <=? p)) (startup None))
  = sample_request <$> seqZ 1 3
  ∧ length (written (sample_combo (sample_net (fun p => 3 <=? p)) (startup None))) = 4%nat
  ∧ flushed (sample_combo (sample_net (fun p => 3 <=? p)) (startup None)) = 4%nat
  ∧ (Some "H_TPE_OVERALL", Some "M")
    ∈ done_keys (sample_combo (sample_net (fun p => 3 <=? p)) (startup None)).
Proof.
  destruct (later_page_error_keeps_partial (sample_net (fun p => 3 <=? p)) season8 "Season 8"
              taipei "H_TPE_OVERALL" (JStr "HYROX - Overall") "HYROX" "M"
              (startup None) (html_response sample_page_130)
              [html_response sample_page_130])
    as (Hq & Hw & Hf & Hd & _).
  - apply not_elem_of_empty.
  - vm_compute. discriminate.
  - vm_compute. discriminate.
  - vm_compute. auto.
  - unfold sample_combo. rewrite Hf, Hw, Hd. split; [exact Hq|].
    split; [reflexivity|]. split; [reflexivity|].
    apply elem_of_union_r, elem_of_singleton. reflexivity.
Defined.

Lemma get_event_codes_shapes_witness :
  (get_event_codes (sample_net (fun _ => false)) season8 taipei (startup None)).1
  = event_codes_from
      (JList [ JDict {[ "v" := JList [JStr "H_TPE_OVERALL"; JStr "HYROX - Overall"] ]};
               JDict {[ "v" := JList [JStr "H_TPE_SAT"; JStr "HYROX - Saturday"] ]};
               JDict {[ "v" := JList [JStr "HPRO_TPE"; JStr "HYROX PRO"] ]} ])
  ∧ (get_event_codes empty_net season8 taipei (startup None)).1 = Raise RequestException.
Proof.
  destruct (get_event_codes_shapes (sample_net (fun _ => false)) season8 taipei
              (startup None) (json_response sample_codes) eq_refl) as (H & _).
  split; [exact H|reflexivity].
Defined.

Lemma unfinished_key_not_marked_witness :
  requests (sample_combo (sample_net (fun _ => true)) (startup None)) = [sample_request 1]
  ∧ written (sample_combo (sample_net (fun _ => true)) (startup None)) = []
  ∧ done_keys (sample_combo (sample_net (fun _ => true)) (startup None)) = ∅
  ∧ ((Some "H_TPE_OVERALL", Some "M")
     ∉ stored_keys None (written (sample_combo (sample_net (fun _ => true)) (startup None))))
  ∧ (∃ rest, requests (sample_combo (sample_net (fun _ => false)) (startup None))
             = sample_request 1 :: rest)
  ∧ requests (sample_combo empty_net (startup None)) = [sample_request 1]
  ∧ written (sample_combo empty_net (startup None)) = []
  ∧ done_keys (sample_combo empty_net (startup None)) = ∅.
Proof.
  destruct (unfinished_key_not_marked (sample_net (fun _ => true)) season8 "Season 8"
              taipei "H_TPE_OVERALL" (JStr "HYROX - Overall") "HYROX" "M" (startup None))
    as (Hq & Hw & _ & Hd & Hnext & _).
  - apply not_elem_of_empty.
  - left. reflexivity.
  - destruct (unfinished_key_not_marked empty_net season8 "Season 8"
                taipei "H_TPE_OVERALL" (JStr "HYROX - Overall") "HYROX" "M" (startup None))
      as (Hq' & Hw' & _ & Hd' & _).
    + apply not_elem_of_empty.
    + right. exists (html_response sample_page_0). split; reflexivity.
    + destruct (Hnext None (startup_store_covered None)) as [Habs Hagain].
      destruct (Hagain (sample_net (fun _ => false)) (startup None)) as [rest Hrest].
      { unfold stored_keys. rewrite Hw. reflexivity. }
      unfold sample_combo. rewrite Hq, Hw, Hd, Hq', Hw', Hd'.
      split_and!; try reflexivity; [exact Habs|]. exists rest. exact Hrest.
Defined.

(** * Further properties *)

(** ** Decimal strings *)

Lemma tables_apart :
  forallb (fun z => forallb (fun w => negb ((z <=? w)%N && (w <? z + 10)%N)) PyStr.WHITESPACE)
    PyStr.DECIMAL_ZEROS = true.
Proof. vm_compute. reflexivity. Qed.

(** No decimal digit is white space. *)
Lemma digit_not_space c : PyStr.is_digit c = true → PyStr.is_space c = false.
Proof.
  unfold PyStr.is_digit, PyStr.decimal, PyStr.is_space.
  destruct (PyStr.code c) as [n|]; [|done].
  generalize tables_apart. generalize PyStr.DECIMAL_ZEROS as zs, PyStr.WHITESPACE as ws.
  intros zs ws Hap. simpl.
  destruct (List.find _ zs) as [z|] eqn:E; simpl; [|done]. intros _.
  apply find_some in E as [Hz E].
  destruct (existsb (N.eqb n) ws) eqn:Ex; [|done]. exfalso.
  apply existsb_exists in Ex as (w & Hw & Hnw). apply N.eqb_eq in Hnw as <-.
  rewrite forallb_forall in Hap. specialize (Hap z Hz).
  rewrite forallb_forall in Hap. specialize (Hap n Hw). by rewrite E in Hap.
Qed.

Lemma no_space_chars s :
  no_space s ↔ Forall (fun c => PyStr.is_space c = false) (PyStr.chars s).
Proof.
  unfold no_space. rewrite forallb_forall, Forall_forall. split; intros H c Hc.
  - apply negb_true_iff, H. by apply list_elem_of_In.
  - apply negb_true_iff, H. by apply list_elem_of_In.
Qed.

Lemma no_space_digits s : digits s → no_space s.
Proof.
  intros H%digits_chars. apply no_space_chars.
  eapply Forall_impl; [exact H|]. intros c. apply digit_not_space.
Qed.

Lemma lstrip_no_space cs :
  Forall (fun c => PyStr.is_space c = false) cs → PyStr.lstrip cs = cs.
Proof. destruct 1 as [|c cs Hc _]; [done|]. simpl. by rewrite Hc. Qed.

Lemma rstrip_no_space cs :
  Forall (fun c => PyStr.is_space c = false) cs → PyStr.rstrip cs = cs.
Proof.
  induction 1 as [|c cs Hc _ IH]; [done|]. simpl. rewrite IH, Hc. by destruct cs.
Qed.

Lemma strip_no_space s : no_space s → PyStr.strip s = s.
Proof.
  intros H%no_space_chars. unfold PyStr.strip.
  by rewrite lstrip_no_space, rstrip_no_space, join_chars.
Qed.

Lemma chars_ascii c r :
  (PyStr.byte c <? 128)%N = true →
  PyStr.chars (String c r) = String c EmptyString :: PyStr.chars r.
Proof.
  intros Hc%N.ltb_lt. apply chars_1. unfold PyStr.width.
  destruct (N.ltb_spec (PyStr.byte c) 192); [done|lia].
Qed.

Lemma digits_cons c s :
  (PyStr.byte c <? 128)%N = true →
  digits (String c s) ↔ PyStr.is_digit (String c EmptyString) = true ∧ digits s.
Proof.
  intros Hc. unfold digits, PyStr.all_digits. rewrite chars_ascii by done.
  cbn [forallb]. apply andb_true_iff.
Qed.

Lemma uint_digits u : digits (NilEmpty.string_of_uint u).
Proof.
  induction u; cbn [NilEmpty.string_of_uint]; try done;
    (apply digits_cons; [reflexivity|split; [reflexivity|assumption]]).
Qed.

Lemma uint_value u : ∀ acc,
  0 ≤ acc →
  fold_left (fun acc c => 10 * acc + PyStr.digit_val c)
    (PyStr.chars (NilEmpty.string_of_uint u)) acc
  = Z.of_nat (Nat.of_uint_acc u (Z.to_nat acc)).
Proof.
  induction u as [|u IH|u IH|u IH|u IH|u IH|u IH|u IH|u IH|u IH|u IH]; intros acc Hacc;
    cbn [NilEmpty.string_of_uint Nat.of_uint_acc]; [simpl; lia|..];
    (rewrite chars_ascii by reflexivity; cbn [fold_left];
     match goal with
     | |- context [PyStr.digit_val ?c] =>
         let v := eval vm_compute in (PyStr.digit_val c) in
         change (PyStr.digit_val c) with v
     end;
     rewrite IH by lia; do 2 f_equal; rewrite Nat.tail_mul_spec; lia).
Qed.

Lemma nat_str_digits n : digits (NilZero.string_of_uint (Nat.to_uint n)).
Proof.
  unfold NilZero.string_of_uint. destruct (Nat.to_uint n) eqn:E; try done;
    rewrite <- E; apply uint_digits.
Qed.

Lemma nat_str_value n :
  PyStr.int_of_digits (NilZero.string_of_uint (Nat.to_uint n)) = Z.of_nat n.
Proof.
  rewrite <- (Unsigned.of_to n) at 2. unfold NilZero.string_of_uint, Nat.of_uint.
  destruct (Nat.to_uint n) eqn:E; [reflexivity|..];
    unfold PyStr.int_of_digits, PyStr.int_of_chars; by rewrite uint_value.
Qed.

Lemma nat_str_nonempty n : NilZero.string_of_uint (Nat.to_uint n) ≠ EmptyString.
Proof. unfold NilZero.string_of_uint. by destruct (Nat.to_uint n). Qed.

Lemma py_str_nonneg z :
  0 ≤ z →
  digits (py_str z) ∧ py_str z ≠ EmptyString ∧ PyStr.int_of_digits (py_str z) = z.
Proof.
  intros Hz. unfold py_str. replace (z <? 0) with false by (symmetry; apply Z.ltb_ge; lia).
  split; [apply nat_str_digits|]. split; [apply nat_str_nonempty|].
  rewrite nat_str_value. lia.
Qed.

Lemma fmt_02d_two z :
  0 ≤ z < 60 → two (fmt_02d z) ∧ PyStr.int_of_digits (fmt_02d z) = z.
Proof.
  intros Hz. replace z with (Z.of_nat (Z.to_nat z)) by lia.
  assert (Hk : (Z.to_nat z < 60)%nat) by lia. revert Hk. generalize (Z.to_nat z) as k.
  intros k Hk.
  do 60 (destruct k as [|k]; [split; [split; reflexivity|reflexivity]|]). lia.
Qed.

(** ** Downstream consumer: formatting, values and years *)

Lemma colon_no_space : PyStr.is_space ":" = false.
Proof. reflexivity. Qed.

Lemma no_space_hms h m s : digits h → two m → two s → no_space (h ++ ":" ++ m ++ ":" ++ s).
Proof.
  intros Hh Hm Hs. apply no_space_chars. rewrite chars_hms by done.
  destruct Hm as [_ Hm], Hs as [_ Hs].
  apply no_space_digits, no_space_chars in Hh, Hm, Hs.
  apply Forall_app. split; [done|]. constructor; [apply colon_no_space|].
  apply Forall_app. split; [done|]. constructor; [apply colon_no_space|done].
Qed.

Lemma no_space_ms m s : digits m → two s → no_space (m ++ ":" ++ s).
Proof.
  intros Hm [_ Hs]. apply no_space_chars. rewrite chars_ms by done.
  apply no_space_digits, no_space_chars in Hm, Hs.
  apply Forall_app. split; [done|]. constructor; [apply colon_no_space|done].
Qed.

Lemma to_seconds_hms h m s :
  h ≠ EmptyString → digits h → two m → two s →
  to_seconds (Some (h ++ ":" ++ m ++ ":" ++ s))
  = Some (PyStr.int_of_digits h * 3600 + PyStr.int_of_digits m * 60 + PyStr.int_of_digits s).
Proof.
  intros Hne Hh Hm Hs. unfold to_seconds.
  rewrite strip_no_space by (by apply no_space_hms).
  by rewrite (proj2 (fullmatch_hms_iff _ h m s)).
Qed.

Lemma to_seconds_ms m s :
  m ≠ EmptyString → digits m → two s →
  to_seconds (Some (m ++ ":" ++ s))
  = Some (PyStr.int_of_digits m * 60 + PyStr.int_of_digits s).
Proof.
  intros Hne Hm Hs. unfold to_seconds.
  rewrite strip_no_space by (by apply no_space_ms).
  assert (Hnone : fullmatch_hms (m ++ ":" ++ s) = None).
  { unfold fullmatch_hms. rewrite chars_ms by done.
    destruct Hs as [Ls Ds]. apply digits_chars in Ds.
    rewrite span_digits_complete; [|by apply digits_chars|by intros c r' [= <- _]].
    destruct (PyStr.chars m) as [|c cs] eqn:E; [by apply chars_nil in E|].
    rewrite (proj2 (colon_iff (":" :: PyStr.chars s) _) eq_refl). simpl.
    rewrite (proj2 (two_digits_iff (PyStr.chars s) (PyStr.chars s) []))
      by (by rewrite app_nil_r).
    reflexivity. }
  rewrite Hnone. by rewrite (proj2 (fullmatch_ms_iff _ m s)).
Qed.

Lemma to_seconds_nonneg t z : to_seconds t = Some z → 0 ≤ z.
Proof.
  destruct t as [t|]; [|done]. unfold to_seconds.
  destruct (fullmatch_hms (PyStr.strip t)) as [[[h m] s]|].
  - intros [= <-].
    pose proof (int_of_digits_nonneg h). pose proof (int_of_digits_nonneg m).
    pose proof (int_of_digits_nonneg s). lia.
  - destruct (fullmatch_ms (PyStr.strip t)) as [[m s]|]; [|done]. intros [= <-].
    pose proof (int_of_digits_nonneg m). pose proof (int_of_digits_nonneg s). lia.
Qed.

(** X1. Formatting then parsing is the identity on the seconds: for every
    non-negative count of seconds [fmt_seconds] gives a string of the
    three-group form, and [to_seconds] reads the count back from it. *)
Theorem fmt_seconds_round_trip (n : Z) :
  0 ≤ n → hms_form (fmt_seconds n) ∧ to_seconds (Some (fmt_seconds n)) = Some n.
Proof.
  intros Hn. unfold fmt_seconds.
  pose proof (Z.div_pos n 3600 Hn ltac:(lia)) as Hh.
  pose proof (Z.mod_pos_bound n 3600 ltac:(lia)) as Hrem.
  pose proof (Z.mod_pos_bound (n mod 3600) 60 ltac:(lia)) as Hsec.
  assert (Hm : 0 ≤ n mod 3600 / 60 < 60).
  { split; [apply Z.div_pos; lia|apply Z.div_lt_upper_bound; lia]. }
  destruct (py_str_nonneg _ Hh) as (Dh & Nh & Vh).
  destruct (fmt_02d_two _ Hm) as [Tm Vm]. destruct (fmt_02d_two _ Hsec) as [Ts Vs].
  split.
  - eexists _, _, _. split; [reflexivity|]. auto.
  - rewrite to_seconds_hms by done. rewrite Vh, Vm, Vs. f_equal.
    pose proof (Z.div_mod n 3600 ltac:(lia)).
    pose proof (Z.div_mod (n mod 3600) 60 ltac:(lia)). lia.
Qed.

Lemma fmt_seconds_round_trip_witness :
  fmt_seconds 3133 = "0:52:13" ∧ to_seconds (Some (fmt_seconds 3133)) = Some 3133.
Proof.
  split; [reflexivity|]. apply (fmt_seconds_round_trip 3133). lia.
Defined.

(** X2. The number [to_seconds] gives is never negative; on a string of the
    three-group form it is hours times 3600 plus minutes times 60 plus
    seconds, on a string of the two-group form minutes times 60 plus seconds,
    the groups read as decimal numbers (minutes and seconds are not bounded
    by 60). *)
Theorem to_seconds_values :
  (∀ t z, to_seconds t = Some z → 0 ≤ z)
  ∧ (∀ h m s, h ≠ EmptyString → digits h → two m → two s →
       to_seconds (Some (h ++ ":" ++ m ++ ":" ++ s))
       = Some (PyStr.int_of_digits h * 3600 + PyStr.int_of_digits m * 60
               + PyStr.int_of_digits s))
  ∧ (∀ m s, m ≠ EmptyString → digits m → two s →
       to_seconds (Some (m ++ ":" ++ s))
       = Some (PyStr.int_of_digits m * 60 + PyStr.int_of_digits s)).
Proof.
  split; [apply to_seconds_nonneg|]. split; [apply to_seconds_hms|apply to_seconds_ms].
Qed.

Lemma search_year_cons c r :
  search_year (c :: r) =
    match r with
    | c2 :: a :: b :: _ =>
        if String.eqb c "2" && String.eqb c2 "0" && PyStr.is_digit a && PyStr.is_digit b
        then Some [c; c2; a; b]
        else search_year r
    | _ => None
    end.
Proof. reflexivity. Qed.

(** The search returns the leftmost match, and nothing when there is none. *)
Lemma search_year_spec cs :
  match search_year cs with
  | Some y =>
      ∃ pre a b, y = ["2"; "0"; a; b] ∧ year_match cs pre a b
                 ∧ ∀ pre' a' b', year_match cs pre' a' b' → (length pre ≤ length pre')%nat
  | None => ∀ pre a b, ¬ year_match cs pre a b
  end.
Proof.
  induction cs as [|c r IH].
  - simpl. intros pre a b [[post H] _]. by destruct pre.
  - rewrite search_year_cons.
    assert (Hshort : (length r < 3)%nat → ∀ pre a b, ¬ year_match (c :: r) pre a b).
    { intros Hl pre a b [[post H] _]. apply (f_equal length) in H.
      rewrite length_app in H. simpl in H. lia. }
    destruct r as [|c2 [|a [|b rest]]]; try (apply Hshort; simpl; lia).
    destruct (String.eqb c "2" && String.eqb c2 "0" && PyStr.is_digit a && PyStr.is_digit b)
      eqn:E.
    + apply andb_prop in E as [E Hb]. apply andb_prop in E as [E Ha].
      apply andb_prop in E as [Hc Hc2]. apply String.eqb_eq in Hc, Hc2. subst c c2.
      exists [], a, b. split; [done|]. split; [|intros; simpl; lia].
      split; [by exists rest|done].
    + assert (Hhead : ∀ a' b', ¬ year_match (c :: c2 :: a :: b :: rest) [] a' b').
      { intros a' b' [[post H] [Ha' Hb']]. simpl in H. injection H as -> -> -> -> _.
        by rewrite Ha', Hb' in E. }
      assert (Hlater : ∀ pre' a' b',
                year_match (c :: c2 :: a :: b :: rest) pre' a' b' →
                ∃ pre'', pre' = c :: pre'' ∧ year_match (c2 :: a :: b :: rest) pre'' a' b').
      { intros pre' a' b' Hm. destruct pre' as [|x pre''].
        - by apply Hhead in Hm.
        - destruct Hm as [[post H] Hd]. simpl in H. injection H as -> H.
          exists pre''. split; [done|]. split; [by exists post|done]. }
      destruct (search_year (c2 :: a :: b :: rest)) as [y|].
      * destruct IH as (pre & a0 & b0 & -> & [[post H] Hd] & Hmin).
        exists (c :: pre), a0, b0. split; [done|]. split.
        -- split; [|done]. exists post. simpl. by rewrite H.
        -- intros pre' a' b' Hm. apply Hlater in Hm as (pre'' & -> & Hm).
           apply Hmin in Hm. simpl. lia.
      * intros pre' a' b' Hm. apply Hlater in Hm as (pre'' & -> & Hm). by apply IH in Hm.
Qed.

Lemma year_value a b :
  PyStr.int_of_chars ["2"; "0"; a; b] = 2000 + 10 * PyStr.digit_val a + PyStr.digit_val b
  ∧ 0 ≤ PyStr.digit_val a ≤ 9 ∧ 0 ≤ PyStr.digit_val b ≤ 9.
Proof.
  split; [|split; apply digit_val_range].
  unfold PyStr.int_of_chars. cbn [fold_left].
  change (PyStr.digit_val "2") with 2. change (PyStr.digit_val "0") with 0. lia.
Qed.

(** Two leftmost matches are the same match. *)
Lemma first_year_unique g a b a' b' :
  first_year g a b → first_year g a' b' → a = a' ∧ b = b'.
Proof.
  intros (pre & Hm & Hmin) (pre' & Hm' & Hmin').
  pose proof (Hmin _ _ _ Hm') as H1. pose proof (Hmin' _ _ _ Hm) as H2.
  destruct Hm as [[post H] _], Hm' as [[post' H'] _]. rewrite H in H'.
  assert (Hl : length pre = length pre') by lia.
  apply app_inj_1 in H' as [_ H']; [|done]. by injection H' as -> ->.
Qed.

Lemma year_of_first g a b :
  first_year g a b →
  year_of (Some g) =
    if ascii_digit a && ascii_digit b
    then Some (2000 + 10 * PyStr.digit_val a + PyStr.digit_val b)
    else None.
Proof.
  intros Hf. unfold year_of. cbn [mbind option_bind].
  pose proof (search_year_spec (PyStr.chars g)) as Hs.
  destruct (search_year (PyStr.chars g)) as [y|].
  - destruct Hs as (pre & a0 & b0 & -> & Hm & Hmin).
    destruct (first_year_unique g a b a0 b0 Hf) as [<- <-]; [by exists pre|].
    unfold to_numeric. cbn [forallb mbind option_bind].
    change (ascii_digit "2") with true. change (ascii_digit "0") with true.
    cbn [andb]. rewrite andb_true_r.
    destruct (ascii_digit a && ascii_digit b); [|done].
    by destruct (year_value a b) as [-> _].
  - destruct Hf as (pre & Hm & _). by apply Hs in Hm.
Qed.

(** X3. The year [load_data] derives from the event-group label is read
    off the leftmost place of the label where the characters 2 and 0 and two
    decimal digits stand: it is 2000 plus the number the two digits write
    when both are ASCII digits, and missing when one of them is a digit of
    another script.  It is missing too when the label is missing or holds
    no such place, and in no other case; a year lies between 2000 and
    2099. *)
Theorem year_of_range :
  (∀ g a b, first_year g a b →
     year_of (Some g) =
       if ascii_digit a && ascii_digit b
       then Some (2000 + 10 * PyStr.digit_val a + PyStr.digit_val b)
       else None)
  ∧ (∀ g, (∀ pre a b, ¬ year_match (PyStr.chars g) pre a b) → year_of (Some g) = None)
  ∧ (∀ g, (∃ a b, first_year g a b) ∨ (∀ pre a b, ¬ year_match (PyStr.chars g) pre a b))
  ∧ (∀ cell y, year_of cell = Some y →
       2000 ≤ y ≤ 2099
       ∧ ∃ g a b, cell = Some g ∧ first_year g a b
                  ∧ ascii_digit a = true ∧ ascii_digit b = true
                  ∧ y = 2000 + 10 * PyStr.digit_val a + PyStr.digit_val b)
  ∧ year_of None = None.
Proof.
  assert (Hdec : ∀ g, (∃ a b, first_year g a b)
                      ∨ (∀ pre a b, ¬ year_match (PyStr.chars g) pre a b)).
  { intros g. pose proof (search_year_spec (PyStr.chars g)) as Hs.
    destruct (search_year (PyStr.chars g)) as [y|]; [|by right].
    destruct Hs as (pre & a & b & _ & Hm & Hmin). left. exists a, b, pre. done. }
  split; [apply year_of_first|]. split; [|split; [exact Hdec|split; [|done]]].
  - intros g Hno. unfold year_of. cbn [mbind option_bind].
    pose proof (search_year_spec (PyStr.chars g)) as Hs.
    destruct (search_year (PyStr.chars g)) as [y|]; [|done].
    destruct Hs as (pre & a & b & _ & Hm & _). by apply Hno in Hm.
  - intros [g|] y Hy; [|done].
    destruct (Hdec g) as [(a & b & Hf)|Hno].
    + rewrite (year_of_first g a b Hf) in Hy.
      destruct (ascii_digit a) eqn:Ha, (ascii_digit b) eqn:Hb; try done.
      injection Hy as <-. destruct (year_value a b) as (_ & Ra & Rb).
      split; [lia|]. exists g, a, b. done.
    + unfold year_of in Hy. cbn [mbind option_bind] in Hy.
      pose proof (search_year_spec (PyStr.chars g)) as Hs.
      destruct (search_year (PyStr.chars g)) as [x|]; [|done].
      destruct Hs as (pre & a & b & _ & Hm & _). by apply Hno in Hm.
Qed.

Example year_of_sample :
  year_of (Some "2026 Taipei") = Some 2026
  ∧ year_of (Some "2021 vs 2022") = Some 2021
  ∧ year_of (Some "Taipei 20x6") = None
  ∧ fmt_seconds 3600 = "1:00:00".
Proof. repeat split. Qed.

(** ** Result row parser: what the records hold *)

Lemma descendants_of_unfold n :
  Bs4.descendants_of n = n :: Bs4.descendants (Bs4.contents n).
Proof. by destruct n. Qed.

Lemma is_label_decompose n : is_label (decompose_labels n) = is_label n.
Proof. by destruct n as [| | | |nm [cls|] cs]. Qed.

Lemma decompose_no_label n :
  Forall (fun d => is_label d = false) (Bs4.descendants (Bs4.contents (decompose_labels n))).
Proof.
  induction n as [s|s|k s|s|nm cls cs IH] using node_nested_ind; [constructor..|].
  cbn [decompose_labels Bs4.contents]. unfold Bs4.descendants.
  induction IH as [|c cs Hc _ IHcs]; [constructor|].
  cbn [flat_map]. destruct (is_label c) eqn:E; [exact IHcs|].
  cbn [app flat_map]. rewrite descendants_of_unfold. apply Forall_app. split; [|exact IHcs].
  constructor; [by rewrite is_label_decompose|exact Hc].
Qed.

Lemma emptied_contents n : Bs4.contents (emptied n) = [].
Proof. by destruct n. Qed.

Lemma Forall2_exists_r {A B} (R : A → B → Prop) l k :
  Forall2 R l k → Forall (fun y => ∃ x, R x y) k.
Proof. induction 1; constructor; eauto. Qed.

Lemma find_some_in {A} (P : A → bool) l x : List.find P l = Some x → In x l ∧ P x = true.
Proof. apply find_some. Qed.

(** X4. When the fields of a row are read, no narrow-screen label is left
    anywhere below it: [decompose] has removed each one with all it
    contains, so no element a field is read from is a label, and no label is
    found below the row. *)
Theorem result_rows_without_labels (sp : soup) (row : node) :
  In row (result_rows sp) →
  Forall (fun d => is_label d = false) (Bs4.descendants (Bs4.contents row))
  ∧ Bs4.find is_label (Bs4.contents row) = None
  ∧ (∀ P el, Bs4.find P (Bs4.contents row) = Some el → is_label el = false).
Proof.
  intros Hin.
  assert (Hall : Forall (fun d => is_label d = false) (Bs4.descendants (Bs4.contents row))).
  { pose proof (result_rows_find_all sp) as HF.
    apply Forall2_exists_r in HF. rewrite Forall_forall in HF.
    destruct (HF row (proj2 (list_elem_of_In _ _) Hin)) as (orig & [-> | ->]).
    - apply decompose_no_label.
    - rewrite emptied_contents. constructor. }
  split; [done|]. rewrite Forall_forall in Hall. split.
  - unfold Bs4.find. destruct (List.find _ _) as [d|] eqn:E; [|done].
    apply find_some_in in E as [Hd Hl]. apply list_elem_of_In, Hall in Hd. congruence.
  - intros P el HP. unfold Bs4.find in HP. apply find_some_in in HP as [Hd _].
    by apply Hall, list_elem_of_In.
Qed.

Lemma result_rows_without_labels_witness :
  In (decompose_labels sample_row_1) (result_rows sample_page_1)
  ∧ Bs4.find is_label (Bs4.contents sample_row_1) ≠ None
  ∧ Bs4.find is_label (Bs4.contents (decompose_labels sample_row_1)) = None.
Proof.
  split; [right; left; reflexivity|]. split; [discriminate|].
  apply (result_rows_without_labels sample_page_1 (decompose_labels sample_row_1)).
  right; left; reflexivity.
Defined.

(** X5. Every record [parse_result_rows] yields has a rank that is neither
    empty nor the word rank in any case and a name that is not empty, and
    there are at most as many records as the document has result rows. *)
Theorem parse_result_rows_records (sp : soup) :
  (∀ a, In a (parse_result_rows sp) →
     rank a ≠ EmptyString ∧ PyStr.lower (rank a) ≠ "rank" ∧ athlete a ≠ EmptyString)
  ∧ (length (parse_result_rows sp)
     ≤ length (List.filter is_row (Bs4.descendants sp)))%nat.
Proof.
  unfold parse_result_rows. rewrite omap_parse_row. split.
  - intros a Hin. apply list_elem_of_In, list_elem_of_fmap in Hin as (row & -> & Hrow).
    apply list_elem_of_filter in Hrow as [Hs _]. unfold skipped in Hs. simpl.
    split_and!; intros H; apply Hs; auto.
  - rewrite length_fmap. etrans; [apply length_filter|].
    by rewrite (Forall2_length _ _ _ (result_rows_find_all sp)).
Qed.

(** ** Stripped text *)

Lemma lstrip_head cs c r : PyStr.lstrip cs = c :: r → PyStr.is_space c = false.
Proof.
  induction cs as [|a cs IH]; [done|]. simpl.
  destruct (PyStr.is_space a) eqn:E; [exact IH|]. by intros [= <- _].
Qed.

Lemma rstrip_cons a t :
  PyStr.rstrip (a :: t)
  = match PyStr.rstrip t with
    | [] => if PyStr.is_space a then [] else [a]
    | r' => a :: r'
    end.
Proof. reflexivity. Qed.

Lemma rstrip_keeps_head cs c r : PyStr.rstrip cs = c :: r → ∃ t, cs = c :: t.
Proof.
  destruct cs as [|a t]; [done|]. rewrite rstrip_cons.
  destruct (PyStr.rstrip t); [destruct (PyStr.is_space a)|]; intros [= <- _]; eauto.
Qed.

Lemma rstrip_last cs c : last (PyStr.rstrip cs) = Some c → PyStr.is_space c = false.
Proof.
  induction cs as [|a t IH]; [done|]. rewrite rstrip_cons.
  destruct (PyStr.rstrip t) as [|b u] eqn:E.
  - destruct (PyStr.is_space a) eqn:Ha; [done|]. by intros [= <-].
  - intros H. apply IH. exact H.
Qed.

Lemma lstrip_id cs :
  (∀ c, head cs = Some c → PyStr.is_space c = false) → PyStr.lstrip cs = cs.
Proof. destruct cs as [|c r]; [done|]. intros H. simpl. by rewrite (H c). Qed.

Lemma rstrip_id cs :
  (∀ c, last cs = Some c → PyStr.is_space c = false) → PyStr.rstrip cs = cs.
Proof.
  induction cs as [|a t IH]; [done|]. intros H. rewrite rstrip_cons.
  destruct t as [|b u].
  - simpl. by rewrite (H a).
  - rewrite IH by (intros c Hc; apply H; exact Hc).
    destruct (PyStr.rstrip (b :: u)) eqn:E; [|done].
    rewrite IH in E by (intros c Hc; apply H; exact Hc). done.
Qed.

(** What [strip] leaves has no white space at either end. *)
Lemma bare_strip cs : bare_chars (PyStr.rstrip (PyStr.lstrip cs)).
Proof.
  split.
  - intros c Hc. destruct (PyStr.rstrip (PyStr.lstrip cs)) as [|x r] eqn:E; [done|].
    injection Hc as ->. apply rstrip_keeps_head in E as [t Ht]. by apply lstrip_head in Ht.
  - apply rstrip_last.
Qed.

Lemma bare_id cs : bare_chars cs → PyStr.rstrip (PyStr.lstrip cs) = cs.
Proof. intros [Hh Hl]. by rewrite lstrip_id, rstrip_id. Qed.

Lemma bare_app a b : a ≠ [] → b ≠ [] → bare_chars a → bare_chars b → bare_chars (a ++ b).
Proof.
  intros Ha Hb [Hah _] [_ Hbl]. split.
  - destruct a as [|x a]; [done|]. exact Hah.
  - intros c. rewrite last_app. destruct (last b) eqn:E; [intros [= <-]; by apply Hbl|].
    by apply last_None in E.
Qed.

Lemma lstrip_sub (P : string → Prop) cs : Forall P cs → Forall P (PyStr.lstrip cs).
Proof.
  induction 1 as [|c cs Hc H IH]; [constructor|]. simpl.
  destruct (PyStr.is_space c); [done|by constructor].
Qed.

Lemma rstrip_sub (P : string → Prop) cs : Forall P cs → Forall P (PyStr.rstrip cs).
Proof.
  induction 1 as [|c cs Hc H IH]; [constructor|]. rewrite rstrip_cons.
  destruct (PyStr.rstrip cs) as [|b u].
  - destruct (PyStr.is_space c); by repeat constructor.
  - by constructor.
Qed.

(** The characters of a stripped text are those [strip] kept. *)
Lemma chars_strip s :
  PyStr.text s = true →
  PyStr.chars (PyStr.strip s) = PyStr.rstrip (PyStr.lstrip (PyStr.chars s))
  ∧ PyStr.text (PyStr.strip s) = true.
Proof.
  intros H%text_chars. unfold PyStr.strip.
  assert (Hk : Forall is_char (PyStr.rstrip (PyStr.lstrip (PyStr.chars s))))
    by (by apply rstrip_sub, lstrip_sub).
  rewrite chars_of_chars by done. split; [done|].
  apply text_chars. by rewrite chars_of_chars.
Qed.

Lemma strip_bare s : PyStr.text s = true → bare (PyStr.strip s).
Proof. intros H. unfold bare. rewrite (proj1 (chars_strip s H)). apply bare_strip. Qed.

Lemma bare_trimmed s : bare s → trimmed s.
Proof. intros H. unfold trimmed, PyStr.strip. by rewrite bare_id, join_chars. Qed.

(** Texts without white space at their ends, put together. *)
Lemma join_bare l :
  Forall (fun s => s ≠ EmptyString ∧ PyStr.text s = true ∧ bare s) l →
  bare (PyStr.join EmptyString l) ∧ PyStr.text (PyStr.join EmptyString l) = true
  ∧ (l ≠ [] → PyStr.join EmptyString l ≠ EmptyString).
Proof.
  induction 1 as [|x l (Hx & Tx & Bx) _ (IHb & IHt & IHn)].
  - repeat split; try done.
  - rewrite join_cons. split_and!.
    + unfold bare. rewrite chars_app by done. destruct l as [|y l].
      * simpl. rewrite app_nil_r. exact Bx.
      * apply bare_app; try done.
        -- intros E%chars_nil. done.
        -- intros E%chars_nil. by apply IHn.
    + apply text_chars. rewrite chars_app by done.
      apply Forall_app. split; by apply text_chars.
    + intros _. destruct x; [done|]. by rewrite append_cons.
Qed.

Lemma get_text_strip_bare el :
  Forall (fun s => PyStr.text s = true) (Bs4.strings el) →
  bare (Bs4.get_text_strip el) ∧ trimmed (Bs4.get_text_strip el).
Proof.
  intros Ht. rewrite Forall_forall in Ht.
  assert (Hb : bare (Bs4.get_text_strip el)).
  { unfold Bs4.get_text_strip. apply join_bare, Forall_forall. intros s Hin.
    apply list_elem_of_In, filter_In in Hin as [Hin Hne].
    apply list_elem_of_In, list_elem_of_fmap in Hin as (t & -> & Hin).
    specialize (Ht t Hin). split_and!.
    - intros E. by rewrite E in Hne.
    - by apply chars_strip.
    - by apply strip_bare. }
  split; [done|by apply bare_trimmed].
Qed.

Lemma in_flat_map_strings (cs : list node) s :
  In s (flat_map all_strings cs) ↔ ∃ c, In c cs ∧ In s (all_strings c).
Proof. apply in_flat_map. Qed.

(** The strings of what lies below an element are strings of the element. *)
Lemma descendants_strings n : ∀ d s,
  In d (Bs4.descendants_of n) → In s (all_strings d) → In s (all_strings n).
Proof.
  induction n as [x|x|k x|x|nm cls cs IH] using node_nested_ind; intros d s Hd Hs;
    try (destruct Hd as [<- |[]]; exact Hs).
  change (Bs4.descendants_of (Tag nm cls cs))
    with (Tag nm cls cs :: flat_map Bs4.descendants_of cs) in Hd.
  destruct Hd as [<- |Hd]; [exact Hs|].
  apply in_flat_map in Hd as (c & Hc & Hd). cbn [all_strings].
  apply in_flat_map. exists c. split; [done|].
  rewrite Forall_forall in IH. apply (IH c (proj2 (list_elem_of_In _ _) Hc) d s); done.
Qed.

(** Removing labels adds no string. *)
Lemma decompose_strings n : ∀ s,
  In s (all_strings (decompose_labels n)) → In s (all_strings n).
Proof.
  induction n as [x|x|k x|x|nm cls cs IH] using node_nested_ind; intros s Hs; try exact Hs.
  cbn [decompose_labels all_strings] in *.
  apply in_flat_map in Hs as (c' & Hc' & Hs).
  apply in_flat_map in Hc' as (c & Hc & Hc').
  destruct (is_label c); [done|]. destruct Hc' as [<- |[]].
  apply in_flat_map. exists c. split; [done|].
  rewrite Forall_forall in IH. by apply (IH c (proj2 (list_elem_of_In _ _) Hc)).
Qed.

Lemma emptied_strings n s : In s (all_strings (emptied n)) → In s (all_strings n).
Proof. by destruct n. Qed.

(** The strings [get_text] reads are strings of the element. *)
Lemma strings_all el s : In s (Bs4.strings el) → In s (all_strings el).
Proof.
  destruct el as [x|x|k x|x|nm cls cs]; try done. cbn [Bs4.strings all_strings].
  intros H. apply list_elem_of_In, list_elem_of_omap in H as (d & Hd & Hi).
  apply list_elem_of_In in Hd. unfold Bs4.descendants in Hd.
  apply in_flat_map in Hd as (c & Hc & Hd). apply in_flat_map. exists c. split; [done|].
  apply (descendants_strings c d s Hd).
  unfold Bs4.interesting in Hi.
  destruct (Bs4.string_containers nm), d; try done; try (injection Hi as <-; by left).
  destruct (decide (c0 = k)); [|done]. injection Hi as <-. by left.
Qed.

Lemma Forall2_in_right {A B} (R : A → B → Prop) l k y :
  Forall2 R l k → In y k → ∃ x, In x l ∧ R x y.
Proof.
  induction 1 as [|x0 y0 l k HR _ IH]; [done|]. intros [<- |Hin].
  - exists x0. split; [by left|done].
  - destruct (IH Hin) as (x & Hx & HRx). exists x. split; [by right|done].
Qed.

(** Every string a field of a row is read from is a string of the page. *)
Lemma row_strings sp row el s :
  In row (result_rows sp) → In el (Bs4.descendants (Bs4.contents row)) →
  In s (Bs4.strings el) → ∃ n, In n sp ∧ In s (all_strings n).
Proof.
  intros Hrow Hel Hs.
  destruct (Forall2_in_right _ _ _ row (result_rows_find_all sp) Hrow)
    as (orig & Horig & Hseen).
  apply filter_In in Horig as [Horig _]. unfold Bs4.descendants in Horig.
  apply in_flat_map in Horig as (n & Hn & Horig). exists n. split; [done|].
  apply (descendants_strings n orig s Horig).
  assert (Hrow_s : In s (all_strings row)).
  { unfold Bs4.descendants in Hel. apply in_flat_map in Hel as (c & Hc & Hel).
    apply strings_all in Hs. pose proof (descendants_strings c el s Hel Hs) as Hcs.
    destruct row as [x|x|k x|x|nm cls cs]; try done. cbn [Bs4.contents] in Hc.
    cbn [all_strings]. apply in_flat_map. eauto. }
  destruct Hseen as [-> | ->]; [by apply decompose_strings|by apply emptied_strings].
Qed.

Lemma field_text_bare sp row P :
  Forall text_node sp → In row (result_rows sp) →
  bare (field_text P row) ∧ trimmed (field_text P row).
Proof.
  intros Hsp Hrow. unfold field_text.
  destruct (Bs4.find P (Bs4.contents row)) as [el|] eqn:E; [|by split].
  apply get_text_strip_bare, Forall_forall. intros s Hs%list_elem_of_In.
  unfold Bs4.find in E. apply find_some in E as [Hel _].
  destruct (row_strings sp row el s Hrow Hel Hs) as (n & Hn & Hin).
  rewrite Forall_forall in Hsp. specialize (Hsp n (proj2 (list_elem_of_In _ _) Hn)).
  unfold text_node in Hsp. rewrite Forall_forall in Hsp. by apply Hsp, list_elem_of_In.
Qed.

(** X6. Every field of every record comes out stripped.  The text
    [get_text(strip=True)] reads from an element whose strings are texts
    has no white space (of Unicode) at either end, whatever the document
    holds around and between its strings, and [strip] leaves it as it is; so
    it is with each of the five fields of a record [parse_result_rows]
    yields from a page. *)
Theorem parse_result_rows_trimmed (sp : soup) :
  Forall text_node sp →
  (∀ el, In el (Bs4.descendants sp) →
     bare (Bs4.get_text_strip el)
     ∧ PyStr.strip (Bs4.get_text_strip el) = Bs4.get_text_strip el)
  ∧ (∀ a, In a (parse_result_rows sp) →
       (bare (rank a) ∧ bare (athlete a) ∧ bare (nationality a)
        ∧ bare (age_group a) ∧ bare (total_time a))
       ∧ (trimmed (rank a) ∧ trimmed (athlete a) ∧ trimmed (nationality a)
          ∧ trimmed (age_group a) ∧ trimmed (total_time a))).
Proof.
  intros Hsp. split.
  - intros el Hel. apply get_text_strip_bare, Forall_forall. intros s Hs%list_elem_of_In.
    apply strings_all in Hs. unfold Bs4.descendants in Hel.
    apply in_flat_map in Hel as (n & Hn & Hel).
    pose proof (descendants_strings n el s Hel Hs) as Hin.
    rewrite Forall_forall in Hsp. specialize (Hsp n (proj2 (list_elem_of_In _ _) Hn)).
    unfold text_node in Hsp. rewrite Forall_forall in Hsp. by apply Hsp, list_elem_of_In.
  - intros a Hin. unfold parse_result_rows in Hin. rewrite omap_parse_row in Hin.
    apply list_elem_of_In, list_elem_of_fmap in Hin as (row & -> & Hrow).
    apply list_elem_of_filter in Hrow as [_ Hrow]. apply list_elem_of_In in Hrow.
    simpl. unfold rank_text, name_text.
    pose proof (field_text_bare sp row rank_filter Hsp Hrow) as [? ?].
    pose proof (field_text_bare sp row name_filter Hsp Hrow) as [? ?].
    pose proof (field_text_bare sp row nat_filter Hsp Hrow) as [? ?].
    pose proof (field_text_bare sp row age_filter Hsp Hrow) as [? ?].
    pose proof (field_text_bare sp row time_filter Hsp Hrow) as [? ?].
    split_and!; assumption.
Qed.

Lemma parse_result_rows_trimmed_witness :
  Bs4.get_text_strip (div ["place-primary"] [NavigableString nbsp_one])
  = "1"
  ∧ ∀ a, In a (parse_result_rows nbsp_page) → bare (rank a) ∧ rank a = "7".
Proof.
  split; [reflexivity|]. intros a Hin.
  destruct (parse_result_rows_trimmed nbsp_page) as [_ H].
  - repeat constructor.
  - destruct (H a Hin) as [[Hb _] _]. split; [exact Hb|].
    destruct Hin as [<- |[]]. reflexivity.
Defined.

(** ** Total count: what is read *)

Lemma search_count_app pre c g post :
  Forall (fun c => PyStr.is_digit c = false) pre →
  PyStr.is_digit c = true →
  Forall (fun c => digit_or_comma c = true) g →
  (∀ c' r, post = c' :: r → digit_or_comma c' = false) →
  search_count (pre ++ c :: g ++ post) = Some (c :: g).
Proof.
  intros Hpre Hc Hg Hpost. induction Hpre as [|a pre Ha _ IH].
  - simpl. rewrite Hc. do 2 f_equal.
    induction Hg as [|x g Hx _ IHg].
    + destruct post as [|c' r]; [done|]. simpl. by rewrite (Hpost c' r).
    + simpl. by rewrite Hx, IHg.
  - simpl. by rewrite Ha.
Qed.

Lemma search_count_none cs :
  Forall (fun c => PyStr.is_digit c = false) cs → search_count cs = None.
Proof. induction 1 as [|a cs Ha _ IH]; [done|]. simpl. by rewrite Ha. Qed.

(** X7. [parse_total_count] is never negative.  It is 0 when the document
    has no summary element or the text of that element has no decimal digit.
    Otherwise it reads the first run of digits and commas of the text, from
    its first digit, as a decimal number with the commas left out, whatever
    surrounds the run; the digits are those of any script, each with its
    value. *)
Theorem parse_total_count_reads :
  (∀ sp, 0 ≤ parse_total_count sp)
  ∧ (∀ sp,
       Bs4.find (Bs4.class_matches (String.eqb "list-info__text str_num")) sp = None →
       parse_total_count sp = 0)
  ∧ (∀ sp el,
       Bs4.find (Bs4.class_matches (String.eqb "list-info__text str_num")) sp = Some el →
       Forall (fun c => PyStr.is_digit c = false) (PyStr.chars (Bs4.get_text el)) →
       parse_total_count sp = 0)
  ∧ (∀ sp el pre c g post,
       Bs4.find (Bs4.class_matches (String.eqb "list-info__text str_num")) sp = Some el →
       PyStr.chars (Bs4.get_text el) = (pre ++ c :: g ++ post)%list →
       Forall (fun c => PyStr.is_digit c = false) pre →
       PyStr.is_digit c = true →
       Forall (fun c => digit_or_comma c = true) g →
       (∀ c' r, post = c' :: r → digit_or_comma c' = false) →
       parse_total_count sp = PyStr.int_of_chars (remove_commas (c :: g)))
  ∧ parse_total_count (sample_page arabic_130 []) = 130.
Proof.
  split; [apply parse_total_count_nonneg|]. split; [|split; [|split]].
  - intros sp H. unfold parse_total_count. by rewrite H.
  - intros sp el H Hno. unfold parse_total_count. rewrite H.
    by rewrite search_count_none.
  - intros sp el pre c g post H Ht Hpre Hc Hg Hpost. unfold parse_total_count.
    rewrite H, Ht. by rewrite search_count_app.
  - reflexivity.
Qed.

Example parse_total_count_thousands :
  parse_total_count (sample_page "Showing 1,883 Results (25 per page)" []) = 1883.
Proof. reflexivity. Qed.

(** ** Category classifier: every configured prefix is reachable *)

Lemma upper_app a b : PyStr.upper (a ++ b) = PyStr.upper a ++ PyStr.upper b.
Proof. induction a as [|c a IH]; [done|]. rewrite append_cons. simpl. by rewrite IH. Qed.

Lemma startswith_app p x : PyStr.startswith p (p ++ x) = true.
Proof.
  induction p as [|c p IH]; [done|]. rewrite append_cons, startswith_cons.
  by rewrite Ascii.eqb_refl.
Qed.

Lemma category_of_match p n code :
  In (p, n) CATEGORY_PREFIXES → PyStr.startswith p (PyStr.upper code) = true →
  category_from_code code = n.
Proof.
  intros Hin Hm. unfold category_from_code.
  destruct (category_loop_first (PyStr.upper code) CATEGORY_PREFIXES)
    as [(q & m & Hq & Hqm & ->)|[Hno _]].
  - by pose proof (matching_unique p n q m _ Hin Hq Hm Hqm) as [= -> ->].
  - rewrite (Hno _ _ Hin) in Hm. done.
Qed.

(** X8. No entry of the prefix table is shadowed by an earlier one: a code
    that starts with a configured prefix, in upper or in lower case, gets the
    label of that very prefix, whatever follows it. *)
Theorem category_from_code_each_prefix (prefix name rest : string) :
  In (prefix, name) CATEGORY_PREFIXES →
  category_from_code (prefix ++ rest) = name
  ∧ category_from_code (PyStr.lower prefix ++ rest) = name.
Proof.
  intros Hin.
  pose proof prefixes_upper as Hu. rewrite Forall_forall in Hu.
  pose proof (Hu _ (proj2 (list_elem_of_In _ _) Hin)) as Hp. simpl in Hp.
  pose proof prefixes_plain as Hl. rewrite Forall_forall in Hl.
  destruct (Hl _ (proj2 (list_elem_of_In _ _) Hin)) as [_ Hlow]. simpl in Hlow.
  split; apply (category_of_match prefix name); try done; rewrite upper_app.
  - rewrite Hp. apply startswith_app.
  - rewrite Hlow. apply startswith_app.
Qed.

Lemma category_from_code_each_prefix_witness :
  category_from_code "HD_2026_TPE" = "HYROX DOUBLES"
  ∧ category_from_code "hd_2026_TPE" = "HYROX DOUBLES".
Proof.
  apply (category_from_code_each_prefix "HD_" "HYROX DOUBLES" "2026_TPE").
  do 2 right. left. reflexivity.
Defined.

(** ** Caller-side filters: what raises *)

Lemma str_coded_dec o : str_coded o ∨ ¬ str_coded o.
Proof.
  unfold str_coded. destruct (value o); try (right; intros [c [=]]; fail). left. eauto.
Qed.

Lemma is_open_raises o : ¬ str_coded o → is_open o = Raise AttributeError.
Proof.
  unfold str_coded, is_open, item_category. destruct (value o); try done.
  intros H. destruct H. eauto.
Qed.

Lemma is_open_str o : str_coded o → is_open o = Ok (passes is_open o).
Proof.
  intros [c Hc]. unfold passes, is_open, item_category. rewrite Hc. simpl.
  by destruct (String.eqb _ _).
Qed.

Lemma comprehension_is_open_raises l :
  Exists (fun o => ¬ str_coded o) l → comprehension is_open l = Raise AttributeError.
Proof.
  induction l as [|o l IH]; intros HE; [by apply Exists_nil in HE|].
  simpl. destruct (str_coded_dec o) as [Hs|Hs].
  - rewrite (is_open_str o Hs). simpl.
    apply Exists_cons in HE as [HE|HE]; [done|]. by rewrite (IH HE).
  - by rewrite (is_open_raises o Hs).
Qed.

(** X9. The Open filter keeps, in order, exactly the options classified
    [HYROX] when every code is a string; as soon as one code is not a string
    it raises [AttributeError], and since the filter runs outside every [try]
    the event group then ends the run with that exception, after the one
    discovery request and with nothing written. *)
Theorem open_filter_outcomes
    (net : list Request → Request → option Response)
    (base_url season : string) (eg : Item) (w : World) :
  (∀ event_opts, Forall str_coded event_opts →
     open_filter event_opts = Ok (List.filter (passes is_open) event_opts)
     ∧ ∀ o, In o (List.filter (passes is_open) event_opts) →
         ∃ code, value o = JStr code ∧ category_from_code code = "HYROX")
  ∧ (∀ event_opts, Exists (fun o => ¬ str_coded o) event_opts →
       open_filter event_opts = Raise AttributeError)
  ∧ (∀ event_opts,
       (get_event_codes net base_url (value eg) w).1 = Ok event_opts →
       Exists (fun o => ¬ str_coded o) event_opts →
       group_body net base_url season eg w
       = (Raise AttributeError, sent (SearchCodes base_url (value eg)) w)).
Proof.
  split; [|split].
  - intros l Hstr. rewrite Forall_forall in Hstr. split.
    + unfold open_filter. simpl. apply comprehension_filter. intros o Hin.
      apply is_open_str, Hstr, list_elem_of_In, Hin.
    + intros o [Hin Hp]%filter_In.
      destruct (Hstr o (proj2 (list_elem_of_In _ _) Hin)) as [c Hc]. exists c.
      split; [done|]. unfold passes, is_open, item_category in Hp. rewrite Hc in Hp.
      simpl in Hp. destruct (String.eqb_spec (category_from_code c) "HYROX"); done.
  - intros l HE. unfold open_filter. simpl. by apply comprehension_is_open_raises.
  - intros l Hget HE. unfold group_body.
    unfold get_event_codes, polite_get in *.
    destruct (net (requests w) (SearchCodes base_url (value eg))) as [r|]; simpl in *;
      [|done].
    rewrite Hget. destruct l as [|o l]; [by apply Exists_nil in HE|].
    unfold open_filter. simpl ONLY_OPEN. cbv iota.
    by rewrite (comprehension_is_open_raises (o :: l) HE).
Qed.

Lemma open_filter_outcomes_witness :
  open_filter [ {| value := JStr "H_TPE"; text := JNull |};
                {| value := JInt 7; text := JNull |} ]
  = Raise AttributeError
  ∧ open_filter [ {| value := JStr "HPRO_TPE"; text := JNull |};
                  {| value := JStr "H_TPE"; text := JNull |} ]
    = Ok [ {| value := JStr "H_TPE"; text := JNull |} ].
Proof.
  destruct (open_filter_outcomes empty_net season8 "Season 8"
              {| value := taipei; text := taipei |} (startup None)) as (Hok & Hraise & _).
  split.
  - apply Hraise. apply Exists_cons. right. apply Exists_cons. left.
    intros [c [=]].
  - apply Hok. repeat constructor; eexists; reflexivity.
Defined.

(** ** Event discovery: the loops over the items *)

Lemma code_items_step item rest acc :
  listed item →
  code_items (item :: rest) acc
  = code_items rest (acc ++ match pair_of item with Some p => [p] | None => [] end)%list.
Proof.
  intros (d & -> & Hv). cbn [code_items Py.get pair_of]. simpl mbind.
  destruct Hv as [-> |[l ->]]; simpl.
  - by rewrite app_nil_r.
  - destruct l as [|a [|b l]]; simpl; rewrite ?app_nil_r; try done.
    destruct (2 <=? Z.of_nat (S (S (length l)))) eqn:E; [done|].
    apply Z.leb_gt in E. lia.
Qed.

Lemma code_items_listed items : ∀ acc,
  Forall listed items → code_items items acc = Ok (acc ++ omap pair_of items)%list.
Proof.
  induction items as [|item items IH]; intros acc Hl.
  - simpl. by rewrite app_nil_r.
  - apply Forall_cons in Hl as [Hi Hl]. rewrite code_items_step by done.
    rewrite IH by done. f_equal.
    change (omap pair_of (item :: items))
      with (match pair_of item with
            | Some y => y :: omap pair_of items
            | None => omap pair_of items
            end).
    destruct (pair_of item); simpl; by rewrite <- ?app_assoc.
Qed.

Lemma code_items_not_object pre x rest : ∀ acc,
  Forall listed pre → (∀ d, x ≠ JDict d) →
  code_items (pre ++ x :: rest) acc = Raise AttributeError.
Proof.
  induction pre as [|item pre IH]; intros acc Hl Hx.
  - destruct x; try done. by destruct (Hx d).
  - apply Forall_cons in Hl as [Hi Hl]. rewrite <- app_comm_cons.
    rewrite code_items_step by done. by apply IH.
Qed.

(** X10. The loop that ends [get_event_codes], on a list of objects whose
    entry [v] is a list or is missing, returns in order one pair (the first
    two elements) for each object whose list has at least two elements and
    skips the others, and never raises; on a list that holds something that
    is not an object it raises [AttributeError] at that item. *)
Theorem event_codes_from_items :
  (∀ items, Forall listed items →
     event_codes_from (JList items) = Ok (omap pair_of items))
  ∧ (∀ pre x rest, Forall listed pre → (∀ d, x ≠ JDict d) →
       event_codes_from (JList (pre ++ x :: rest)) = Raise AttributeError)
  ∧ (∀ v, (∀ l, v ≠ JList l) → (∀ s, v ≠ JStr s) → (∀ d, v ≠ JDict d) →
       event_codes_from v = Raise TypeError).
Proof.
  unfold event_codes_from. split; [|split].
  - intros items Hl. simpl. by rewrite code_items_listed.
  - intros pre x rest Hl Hx. simpl. by apply code_items_not_object.
  - intros v Hl Hs Hd. destruct v; try done.
    + by destruct (Hs s).
    + by destruct (Hl l).
    + by destruct (Hd d).
Qed.

Lemma event_codes_from_items_witness :
  event_codes_from
    (JList [ JDict {[ "v" := JList [JStr "H_TPE"; JStr "HYROX"; JInt 3] ]};
             JDict {[ "v" := JList [JStr "alone"] ]};
             JDict ∅;
             JDict {[ "v" := JList [JStr "HPRO_TPE"; JStr "HYROX PRO"] ]} ])
  = Ok [ {| value := JStr "H_TPE"; text := JStr "HYROX" |};
         {| value := JStr "HPRO_TPE"; text := JStr "HYROX PRO" |} ]
  ∧ event_codes_from (JList [JStr "H_TPE"]) = Raise AttributeError
  ∧ event_codes_from JNull = Raise TypeError.
Proof.
  destruct event_codes_from_items as (Hok & Hbad & Hnot). split; [|split].
  - etrans.
    { apply (Hok [ JDict {[ "v" := JList [JStr "H_TPE"; JStr "HYROX"; JInt 3] ]};
                   JDict {[ "v" := JList [JStr "alone"] ]};
                   JDict ∅;
                   JDict {[ "v" := JList [JStr "HPRO_TPE"; JStr "HYROX PRO"] ]} ]).
      repeat constructor; eexists; (split; [reflexivity|]);
        first [left; reflexivity|right; eexists; reflexivity]. }
    reflexivity.
  - apply (Hbad [] (JStr "H_TPE") []); [constructor|done].
  - by apply Hnot.
Defined.

Lemma group_items_step item rest :
  listed item → ¬ singleton_item item →
  group_items (item :: rest)
  = r ← group_items rest;
    Ok (match pair_of item with Some p => p :: r | None => r end).
Proof.
  intros (d & -> & Hv) Hs. cbn [group_items Py.get pair_of Py.getitem]. simpl mbind.
  destruct Hv as [-> |[l Hl]]; simpl.
  - by destruct (group_items rest).
  - rewrite Hl. simpl. destruct l as [|a [|b l]]; simpl.
    + by destruct (group_items rest).
    + destruct Hs. exists d, a. done.
    + done.
Qed.

Lemma group_items_listed items :
  Forall listed items → ¬ Exists singleton_item items →
  group_items items = Ok (omap pair_of items).
Proof.
  induction items as [|item items IH]; intros Hl Hs; [done|].
  apply Forall_cons in Hl as [Hi Hl].
  rewrite group_items_step; [|done|by intros ?; apply Hs; left].
  rewrite IH; [|done|by intros ?; apply Hs; right]. simpl.
  change (omap pair_of (item :: items))
    with (match pair_of item with
          | Some y => y :: omap pair_of items
          | None => omap pair_of items
          end).
  by destruct (pair_of item).
Qed.

Lemma group_items_singleton pre x rest :
  Forall listed pre → ¬ Exists singleton_item pre → singleton_item x →
  group_items (pre ++ x :: rest) = Raise IndexError.
Proof.
  induction pre as [|item pre IH]; intros Hl Hs Hx.
  - destruct Hx as (d & y & -> & Hv). simpl. rewrite Hv. simpl. done.
  - apply Forall_cons in Hl as [Hi Hl]. rewrite <- app_comm_cons.
    rewrite group_items_step; [|done|by intros ?; apply Hs; left].
    rewrite IH; [done|done|by intros ?; apply Hs; right|done].
Qed.

Lemma groups_path_lookup data :
  match groups_path data with
  | Ok x => lookup_path ["branches"; "lists"; "fields"; "event_main_group"; "data"] data
            = Some x
  | Raise e => lookup_path ["branches"; "lists"; "fields"; "event_main_group"; "data"] data
               = None
               ∧ Py.key_or_type_error e = true
  end.
Proof. unfold groups_path. walk_path. Qed.

(** X11. [get_event_groups] raises when the request fails; returns the
    empty list when the body is not JSON or the path
    [branches.lists.fields.event_main_group.data] is absent; on a list found
    there, of objects whose entry [v] is a list or is missing, it returns in
    order one pair for each object with a list of two elements or more and
    skips the objects with an empty or missing list; and, unlike
    [get_event_codes], it has no guard on the length, so an object whose
    list has a single element makes it raise [IndexError]. *)
Theorem get_event_groups_outcomes
    (net : list Request → Request → option Response) (base_url : string) (w : World) :
  (get_event_groups net base_url w).2 = sent (SearchGroups base_url) w
  ∧ (net (requests w) (SearchGroups base_url) = None →
     (get_event_groups net base_url w).1 = Raise RequestException)
  ∧ (∀ r, net (requests w) (SearchGroups base_url) = Some r →
       (resp_json r = None → (get_event_groups net base_url w).1 = Ok [])
       ∧ ∀ data, resp_json r = Some data →
           (lookup_path ["branches"; "lists"; "fields"; "event_main_group"; "data"] data
            = None →
            (get_event_groups net base_url w).1 = Ok [])
           ∧ ∀ items,
               lookup_path ["branches"; "lists"; "fields"; "event_main_group"; "data"] data
               = Some (JList items) →
               (Forall listed items → ¬ Exists singleton_item items →
                (get_event_groups net base_url w).1 = Ok (omap pair_of items))
               ∧ (∀ pre x rest, items = (pre ++ x :: rest)%list →
                    Forall listed pre → ¬ Exists singleton_item pre → singleton_item x →
                    (get_event_groups net base_url w).1 = Raise IndexError)).
Proof.
  unfold get_event_groups, polite_get.
  destruct (net (requests w) (SearchGroups base_url)) as [r0|]; cbn [fst snd].
  2:{ split; [done|]. split; [done|]. by intros r. }
  split; [done|]. split; [done|]. intros r [= <-]. split.
  { by intros ->. }
  intros data ->. unfold event_groups_of.
  pose proof (groups_path_lookup data) as Hp.
  destruct (groups_path data) as [x|e].
  - rewrite Hp. split; [done|]. intros items [= ->]. simpl. split.
    + apply group_items_listed.
    + intros pre x rest ->. apply group_items_singleton.
  - destruct Hp as [-> ->]. split; [done|]. by intros items.
Qed.

Lemma get_event_groups_outcomes_witness :
  (get_event_groups (sample_net (fun _ => false)) season8 (startup None)).1
  = Ok [ {| value := taipei; text := taipei |} ]
  ∧ (get_event_groups (sample_net (fun _ => false)) "elsewhere" (startup None)).1
    = Raise RequestException
  ∧ group_items [ JDict {[ "v" := JList [taipei] ]} ] = Raise IndexError.
Proof.
  destruct (get_event_groups_outcomes (sample_net (fun _ => false)) season8 (startup None))
    as (_ & _ & Hsome).
  destruct (Hsome (json_response sample_groups) eq_refl) as [_ Hdata].
  destruct (Hdata sample_groups eq_refl) as [_ Hitems].
  destruct (Hitems [ JDict {[ "v" := JList [taipei; taipei] ]} ] eq_refl) as [Hok _].
  split; [|split; reflexivity].
  etrans.
  { apply Hok.
    - repeat constructor. eexists. split; [reflexivity|]. right. eexists. reflexivity.
    - intros [(d & x & [= <-] & Hv)|H]%Exists_cons; [done|by apply Exists_nil in H]. }
  reflexivity.
Defined.

(** ** The done-set loaded at startup *)

(** X12. The done-set [load_done_keys] builds is empty when the store does
    not exist and otherwise holds exactly the keys of its lines, so that the
    lines of two stores put together give the union of their done-sets.  A
    line without the two columns counts for the key of two empty strings; a
    short line whose code or gender cell is missing gives a key that no call
    of [scrape_combo] ever looks up. *)
Theorem load_done_keys_exact :
  load_done_keys None = ∅
  ∧ (∀ rows k, k ∈ load_done_keys (Some rows) ↔ ∃ row, row ∈ rows ∧ k = csv_key row)
  ∧ (∀ rows rows',
       load_done_keys (Some (rows ++ rows')%list)
       = load_done_keys (Some rows) ∪ load_done_keys (Some rows'))
  ∧ (∀ row : CsvRow, row !! "event_code" = None → row !! "gender" = None →
       csv_key row = (Some EmptyString, Some EmptyString))
  ∧ (∀ (row : CsvRow) code sex,
       row !! "event_code" = Some None ∨ row !! "gender" = Some None →
       csv_key row ≠ (Some code, Some sex)).
Proof.
  split; [done|]. split; [apply load_done_keys_spec|]. split; [|split].
  - intros rows rows'. apply set_eq. intros k.
    rewrite elem_of_union, !load_done_keys_spec. split.
    + intros (row & [Hin|Hin]%elem_of_app & ->); eauto.
    + intros [(row & Hin & ->)|(row & Hin & ->)]; exists row;
        (split; [apply elem_of_app; auto|done]).
  - intros row H1 H2. unfold csv_key. by rewrite H1, H2.
  - intros row code sex [H|H]; unfold csv_key; rewrite H; simpl; congruence.
Qed.

(** ** Collection driver: a key whose pages all arrive *)

Section ComboComplete.

Variable net : list Request → Request → option Response.
Variables (base_url season : string) (emg : json) (code : string)
          (label : json) (cat sex : string).

Local Abbreviation req := (ResultsPage base_url emg code sex).
Local Abbreviation key := (Some code, Some sex).
Local Abbreviation annot := (annotate season emg code label cat sex).
Local Abbreviation loop := (pages_loop net base_url season emg code label cat sex).
Local Abbreviation combo := (scrape_combo net base_url season emg code label cat sex).
Local Abbreviation page_rows := (fun r : Response => parse_result_rows (resp_soup r)).

Lemma loop_complete (resps : list Response) : ∀ a sp w,
  1 < a →
  answers net (requests w) (req <$> seqZ a (Z.of_nat (length resps))) (Some <$> resps) →
  let w' := loop (seqZ a (Z.of_nat (length resps))) sp w in
  requests w' = (requests w ++ (req <$> seqZ a (Z.of_nat (length resps))))%list
  ∧ written w' = (written w ++ (annot <$> flat_map page_rows resps))%list
  ∧ done_keys w' = done_keys w
  ∧ (flushed w = length (written w) → flushed w' = length (written w')).
Proof.
  induction resps as [|r resps IH]; intros a sp w Ha Hans; simpl length in *.
  - simpl. rewrite !app_nil_r. auto.
  - rewrite seqZ_cons in * by lia.
    replace (Z.pred (Z.of_nat (S (length resps)))) with (Z.of_nat (length resps)) in * by lia.
    rewrite fmap_cons in Hans. simpl in Hans. destruct Hans as [Hr Hans].
    rewrite (loop_later net base_url season emg code label cat sex) by done. rewrite Hr.
    destruct (IH (Z.succ a) (resp_soup r)
                (write_page season emg code label cat sex (resp_soup r) (sent (req a) w)))
      as (Hq & Hw & Hd & Hf); [lia|exact Hans|].
    split; [|split; [|split]].
    + rewrite Hq. simpl. by rewrite <- app_assoc.
    + rewrite Hw. simpl. by rewrite fmap_app, <- app_assoc.
    + by rewrite Hd.
    + intros _. by apply Hf.
Qed.

(** X13. When the first page of a key announces results and every page up
    to the page bound arrives, [scrape_combo] asks for exactly the pages
    [1..fetch_pages], appends after the rows already written the rows of all
    these pages in page order, each annotated with the season, group, code,
    label, category and gender of the call, has flushed them all, and marks
    the key done, so that a second call for the key does nothing. *)
Theorem scrape_combo_complete (w : World) (r1 : Response) (resps : list Response) :
  key ∉ done_keys w →
  parse_total_count (resp_soup r1) ≠ 0 →
  Z.of_nat (length resps) + 1 = fetch_pages (parse_total_count (resp_soup r1)) →
  answers net (requests w)
    (req <$> seqZ 1 (fetch_pages (parse_total_count (resp_soup r1))))
    (Some <$> (r1 :: resps)) →
  requests (combo w)
  = (requests w ++ (req <$> seqZ 1 (fetch_pages (parse_total_count (resp_soup r1)))))%list
  ∧ written (combo w) = (written w ++ (annot <$> flat_map page_rows (r1 :: resps)))%list
  ∧ flushed (combo w) = length (written (combo w))
  ∧ done_keys (combo w) = done_keys w ∪ {[ key ]}
  ∧ combo (combo w) = combo w.
Proof.
  intros Hk HT Hlen Hans.
  cut (requests (combo w)
       = (requests w ++ (req <$> seqZ 1 (fetch_pages (parse_total_count (resp_soup r1)))))%list
       ∧ written (combo w) = (written w ++ (annot <$> flat_map page_rows (r1 :: resps)))%list
       ∧ flushed (combo w) = length (written (combo w))
       ∧ done_keys (combo w) = done_keys w ∪ {[ key ]}).
  { intros (H1 & H2 & H3 & H4). split_and!; try done.
    apply combo_done. rewrite H4. apply elem_of_union_r, elem_of_singleton. done. }
  rewrite <- Hlen in *.
  rewrite (seqZ_cons 1) in Hans by lia.
  replace (Z.pred (Z.of_nat (length resps) + 1)) with (Z.of_nat (length resps)) in Hans by lia.
  rewrite fmap_cons in Hans. simpl in Hans. destruct Hans as [Hr1 Hans].
  rewrite (combo_paginates net base_url season emg code label cat sex w r1) by done.
  rewrite <- Hlen.
  replace (Z.of_nat (length resps) + 1 - 1) with (Z.of_nat (length resps)) by lia.
  destruct (loop_complete resps 2 (resp_soup r1)
              (write_page season emg code label cat sex (resp_soup r1) (sent (req 1) w)))
    as (Hq & Hw & Hd & Hf); [lia|exact Hans|].
  simpl in Hq, Hw, Hd, Hf. simpl. split; [|split; [|split]].
  - rewrite Hq, (seqZ_cons 1) by lia.
    replace (Z.pred (Z.of_nat (length resps) + 1)) with (Z.of_nat (length resps)) by lia.
    by rewrite fmap_cons, <- app_assoc.
  - rewrite Hw. by rewrite fmap_app, <- app_assoc.
  - by apply Hf.
  - by rewrite Hd.
Qed.


End ComboComplete.

Lemma scrape_combo_complete_witness :
  requests (sample_combo (sample_net (fun _ => false)) (startup None))
  = sample_request <$> seqZ 1 4
  ∧ length (written (sample_combo (sample_net (fun _ => false)) (startup None))) = 8%nat
  ∧ flushed (sample_combo (sample_net (fun _ => false)) (startup None)) = 8%nat.
Proof.
  destruct (scrape_combo_complete (sample_net (fun _ => false)) season8 "Season 8"
              taipei "H_TPE_OVERALL" (JStr "HYROX - Overall") "HYROX" "M"
              (startup None) (html_response sample_page_130)
              [html_response sample_page_130; html_response sample_page_130;
               html_response sample_page_130])
    as (Hq & Hw & Hf & _).
  - apply not_elem_of_empty.
  - vm_compute. discriminate.
  - reflexivity.
  - vm_compute. auto.
  - unfold sample_combo. rewrite Hf, Hw. split; [exact Hq|]. split; reflexivity.
Defined.

(** ** Comprehensions: what is kept *)

Lemma comprehension_kept {A} (P : A → result bool) l kept :
  comprehension P l = Ok kept → ∀ o, In o kept → In o l ∧ P o = Ok true.
Proof.
  revert kept; induction l as [|x l IH]; intros kept; simpl.
  - by intros [= <-] o [].
  - destruct (P x) as [b|e] eqn:E; simpl; [|done].
    destruct (comprehension P l) as [r|e] eqn:El; simpl; [|done].
    intros [= <-] o Hin. destruct b.
    + destruct Hin as [<- |Hin]; [auto|]. destruct (IH r eq_refl o Hin). auto.
    + destruct (IH r eq_refl o Hin). auto.
Qed.

Lemma use_opts_sub kept use : use_opts kept = Ok use → ∀ o, In o use → In o kept.
Proof.
  unfold use_opts.
  destruct (comprehension is_overall kept) as [ov|e1] eqn:E1; simpl; [|done].
  destruct (comprehension is_not_overall kept) as [nov|e2] eqn:E2; simpl; [|done].
  intros [= <-] o Hin. destruct ov as [|x ov].
  - by destruct (comprehension_kept _ _ _ E2 o Hin).
  - by destruct (comprehension_kept _ _ _ E1 o Hin).
Qed.

(** ** A whole run: what holds of every step holds of the run *)

Section RunInduction.

Variable net : list Request → Request → option Response.
Variable R : World → World → Prop.
Variable seasons : list (string * string).

Hypothesis R_refl : ∀ w, R w w.
Hypothesis R_trans : ∀ w1 w2 w3, R w1 w2 → R w2 w3 → R w1 w3.
Hypothesis R_groups : ∀ season base w,
  In (season, base) seasons → R w (sent (SearchGroups base) w).
Hypothesis R_codes : ∀ season base g w,
  In (season, base) seasons → R w (sent (SearchCodes base g) w).
Hypothesis R_combo : ∀ season base g code label sex w,
  In (season, base) seasons → In sex (GENDERS.*1) → category_from_code code = "HYROX" →
  R w (scrape_combo net base season g code label "HYROX" sex w).

Lemma genders_loop_R season base g code label :
  In (season, base) seasons → category_from_code code = "HYROX" →
  ∀ genders, (∀ x, In x genders → In x GENDERS) →
  ∀ w, R w (genders_loop net base season g code label "HYROX" genders w).
Proof.
  intros Hs Hc genders. induction genders as [|[sex_code sex_label] genders IH];
    intros Hsub w; simpl; [apply R_refl|].
  eapply R_trans.
  - apply (R_combo season base g code label sex_code w Hs); [|done].
    apply (in_map fst GENDERS (sex_code, sex_label)), Hsub. by left.
  - apply IH. intros x Hx. apply Hsub. by right.
Qed.

Lemma options_loop_R season base g opts :
  In (season, base) seasons →
  Forall (fun o => ∃ code, value o = JStr code ∧ category_from_code code = "HYROX") opts →
  ∀ w, R w (options_loop net base season g opts w).2.
Proof.
  intros Hs. induction opts as [|ev opts IH]; intros Ho w; cbn [options_loop];
    [apply R_refl|].
  apply Forall_cons in Ho as [(c & Hc & Hcat) Ho]. rewrite Hc, Hcat.
  eapply R_trans; [|by apply IH]. by apply (genders_loop_R season base).
Qed.

Lemma group_body_R season base eg w :
  In (season, base) seasons → R w (group_body net base season eg w).2.
Proof.
  intros Hs. unfold group_body, get_event_codes, polite_get.
  pose proof (R_codes season base (value eg) w Hs) as H1.
  destruct (net (requests w) (SearchCodes base (value eg))) as [r|]; simpl; [|done].
  destruct (event_codes_of (resp_json r)) as [[|o opts]|e0]; simpl; try done.
  destruct (open_filter (o :: opts)) as [[|o' kept]|e1] eqn:E1; simpl; try done.
  destruct (use_opts (o' :: kept)) as [use|e2] eqn:E2; simpl; [|done].
  eapply R_trans; [exact H1|]. apply options_loop_R; [done|].
  apply Forall_forall. intros x Hx.
  apply list_elem_of_In, (use_opts_sub _ _ E2) in Hx.
  unfold open_filter, ONLY_OPEN in E1.
  destruct (comprehension_kept _ _ _ E1 x Hx) as [_ Hopen].
  unfold is_open, item_category in Hopen. destruct (value x); simpl in Hopen; try done.
  exists s. split; [done|].
  destruct (String.eqb_spec (category_from_code s) "HYROX"); [done|congruence].
Qed.

Lemma groups_loop_R season base groups :
  In (season, base) seasons → ∀ w, R w (groups_loop net base season groups w).2.
Proof.
  intros Hs. induction groups as [|eg groups IH]; intros w; simpl; [apply R_refl|].
  pose proof (group_body_R season base eg w Hs) as H1.
  destruct (group_body net base season eg w) as [[u|e0] w1]; simpl in *; [|done].
  eapply R_trans; [exact H1|apply IH].
Qed.

Lemma season_body_R season base w :
  In (season, base) seasons → R w (season_body net season base w).2.
Proof.
  intros Hs. unfold season_body, get_event_groups, polite_get.
  pose proof (R_groups season base w Hs) as H1.
  destruct (net (requests w) (SearchGroups base)) as [r|]; cbn [fst snd]; [|done].
  destruct (event_groups_of (resp_json r)) as [[|eg groups]|e0]; cbn [fst snd]; try done.
  eapply R_trans; [exact H1|]. by apply groups_loop_R.
Qed.

Lemma seasons_loop_R l :
  (∀ x, In x l → In x seasons) → ∀ w, R w (seasons_loop net l w).2.
Proof.
  induction l as [|[season base] l IH]; intros Hsub w; simpl; [apply R_refl|].
  pose proof (season_body_R season base w (Hsub _ (or_introl eq_refl))) as H1.
  destruct (season_body net season base w) as [[u|e0] w1]; simpl in *; [|done].
  eapply R_trans; [exact H1|]. apply IH. intros x Hx. apply Hsub. by right.
Qed.

End RunInduction.

Lemma grows_refl P Q w : grows P Q w w.
Proof. exists [], []. rewrite !app_nil_r. split_and!; auto. Qed.

Lemma grows_trans P Q w1 w2 w3 : grows P Q w1 w2 → grows P Q w2 w3 → grows P Q w1 w3.
Proof.
  intros (rs & xs & Hr & Hx & Hd & Fr & Fx) (rs' & xs' & Hr' & Hx' & Hd' & Fr' & Fx').
  exists (rs ++ rs')%list, (xs ++ xs')%list.
  rewrite Hr', Hx', Hr, Hx, !app_assoc. split_and!; auto.
  - by etrans.
  - by apply Forall_app.
  - by apply Forall_app.
Qed.

Lemma grows_sent (P : Request → Prop) Q r w : P r → grows P Q w (sent r w).
Proof.
  intros Hr. exists [r], []. simpl. rewrite app_nil_r. split_and!; auto.
Qed.

(** X16. In a run of [main], whatever the network answers, every request
    goes to a configured season address; every results page asked for is a
    page between 1 and the cap, for the gender of the configuration and for a
    code that [category_from_code] classifies [HYROX]; and every row written
    carries a configured season, that gender, the category [HYROX] and a code
    of that category.  The done-set loaded at startup is only added to. *)
Theorem main_stays_open
    (net : list Request → Request → option Response) (file : option (list CsvRow)) :
  (∀ r, In r (requests (main net file).2) → good_request SEASON_BASES r)
  ∧ (∀ x, In x (written (main net file).2) → good_row SEASON_BASES x)
  ∧ load_done_keys file ⊆ done_keys (main net file).2.
Proof.
  assert (H : grows (good_request SEASON_BASES) (good_row SEASON_BASES)
                (startup file) (main net file).2).
  { apply (seasons_loop_R net _ SEASON_BASES (grows_refl _ _) (grows_trans _ _)); [| | |done].
    - intros season base w Hin. apply grows_sent. split; [|done].
      apply (in_map snd SEASON_BASES (season, base) Hin).
    - intros season base g w Hin. apply grows_sent. split; [|done].
      apply (in_map snd SEASON_BASES (season, base) Hin).
    - intros season base g code label sex w Hin Hsex Hcat.
      destruct (combo_any net base season g code label "HYROX" sex w)
        as (n & rows & Hn & Hr & Hw & Hd & _).
      exists (ResultsPage base g code sex <$> seqZ 1 n),
             (annotate season g code label "HYROX" sex <$> rows).
      split_and!; auto.
      + apply Forall_fmap, Forall_forall. intros p Hp. apply elem_of_seqZ in Hp.
        split; [apply (in_map snd SEASON_BASES (season, base) Hin)|].
        split_and!; auto; lia.
      + apply Forall_fmap, Forall_true. intros a. split_and!; auto.
        apply (in_map fst SEASON_BASES (season, base) Hin). }
  destruct H as (rs & xs & Hr & Hx & Hd & Fr & Fx).
  rewrite Hr, Hx. simpl. rewrite Forall_forall in Fr. rewrite Forall_forall in Fx.
  split_and!; [intros r Hin; by apply Fr, list_elem_of_In
              |intros x Hin; by apply Fx, list_elem_of_In|exact Hd].
Qed.


(** X18. When no season yields an event group (the group requests fail, or
    their bodies do not decode, lack the path or list nothing usable), a run
    of [main] completes having sent exactly one group request per configured
    season, in order, and having written and marked nothing. *)
Theorem main_without_groups
    (net : list Request → Request → option Response) (file : option (list CsvRow)) :
  (∀ h base r g gs, net h (SearchGroups base) = Some r →
     event_groups_of (resp_json r) ≠ Ok (g :: gs)) →
  (main net file).1 = Ok tt
  ∧ requests (main net file).2 = (fun s => SearchGroups s.2) <$> SEASON_BASES
  ∧ written (main net file).2 = []
  ∧ flushed (main net file).2 = 0%nat
  ∧ done_keys (main net file).2 = load_done_keys file.
Proof.
  intros Hnet.
  assert (H : ∀ l w,
    (seasons_loop net l w).1 = Ok tt
    ∧ requests (seasons_loop net l w).2
      = (requests w ++ ((fun s => SearchGroups s.2) <$> l))%list
    ∧ written (seasons_loop net l w).2 = written w
    ∧ flushed (seasons_loop net l w).2 = flushed w
    ∧ done_keys (seasons_loop net l w).2 = done_keys w).
  { induction l as [|[season base] l IH]; intros w; simpl.
    - rewrite app_nil_r. done.
    - assert (Hs : season_body net season base w = (Ok tt, sent (SearchGroups base) w)).
      { unfold season_body, get_event_groups, polite_get.
        pose proof (Hnet (requests w) base) as Hb.
        destruct (net (requests w) (SearchGroups base)) as [r|]; simpl; [|done].
        specialize (Hb r).
        destruct (event_groups_of (resp_json r)) as [[|g gs]|e0]; simpl; try done.
        by destruct (Hb g gs eq_refl). }
      rewrite Hs. destruct (IH (sent (SearchGroups base) w)) as (H1 & H2 & H3 & H4 & H5).
      rewrite H1, H2, H3, H4, H5. simpl. by rewrite <- app_assoc. }
  destruct (H SEASON_BASES (startup file)) as (H1 & H2 & H3 & H4 & H5).
  unfold main. by rewrite H1, H2, H3, H4, H5.
Qed.

Lemma main_without_groups_witness :
  (main empty_net (Some [sample_line])).1 = Ok tt
  ∧ length (requests (main empty_net (Some [sample_line])).2) = 8%nat
  ∧ written (main empty_net (Some [sample_line])).2 = [].
Proof.
  destruct (main_without_groups empty_net (Some [sample_line])) as (H1 & H2 & H3 & _).
  - intros h base r g gs. discriminate.
  - rewrite H1, H2, H3. split_and!; reflexivity.
Defined.
